(** * CALM sensor node: the Sparse Distributed Memory kernel

    A shallow embedding of [sdm.h], [sdm.cpp], [sdm_encoder.cpp] and
    [sdm_benchmark.cpp] (hardware/esp32-s3/sensor-node/src/sdm), and the
    properties of the store, the persistence layer, the encoder and the
    benchmark harness that the specification states.

    Conventions.
    - [uint8_t], [uint16_t], [uint32_t] and [int16_t] values are integers
      of [Z]; every place where the C++ code narrows or wraps is written
      out with [to_uint16], [to_uint32] or [to_int16].
    - [std::vector<T>] is [list T]; [v[i]] is the lookup [v !! i] and
      [v[i] = x] the update [<[i:=x]> v].  C++ leaves an out-of-range
      subscript undefined: the embedding runs in the [option] monad and
      yields [None] there.
    - [float] is a type with the operations of the interface [FloatOps].
      Two instances are given: [binary32], IEEE 754 single precision with
      round-to-nearest-even as the ESP32-S3 computes it, and [exactQ],
      the rationals, where no operation rounds. *)

From Stdlib Require Import ZArith List Bool Lia QArith Qround Qabs Lqa Permutation.
From Stdlib Require Import Floats.SpecFloat.
From stdpp Require Import base option list strings gmap.

Local Open Scope Z_scope.

(** ** Machine integers *)

Definition INT16_MAX : Z := 32767.
Definition INT16_MIN : Z := -32768.
Definition UINT16_MAX : Z := 65535.

Definition to_uint8 (x : Z) : Z := x mod 256.
Definition to_uint16 (x : Z) : Z := x mod 65536.
Definition to_uint32 (x : Z) : Z := x mod 4294967296.
Definition to_int16 (x : Z) : Z := (x + 32768) mod 65536 - 32768.

Definition is_uint8 (x : Z) : Prop := 0 <= x <= 255.
Definition is_uint16 (x : Z) : Prop := 0 <= x <= UINT16_MAX.
Definition is_uint32 (x : Z) : Prop := 0 <= x < 4294967296.
Definition is_int16 (x : Z) : Prop := INT16_MIN <= x <= INT16_MAX.

(** ** Floating point *)

(** What the code asks of [float].  [f_to_int] is the truncation toward
    zero behind [static_cast<uint16_t>]; it is [None] on a NaN or an
    infinity, where the cast is undefined. *)
Class FloatOps (F : Type) : Type := {
  f_of_int : Z -> F;
  f_add : F -> F -> F;
  f_sub : F -> F -> F;
  f_mul : F -> F -> F;
  f_div : F -> F -> F;
  f_ltb : F -> F -> bool;
  f_abs : F -> F;
  f_to_int : F -> option Z
}.

Module Binary32.
Definition prec : Z := 24.
Definition emax : Z := 128.

Definition of_int (z : Z) : spec_float := binary_normalize prec emax z 0 false.

Definition magnitude (m : positive) (e : Z) : Z :=
  match e with
  | Z0 => Zpos m
  | Zpos p => Zpos m * 2 ^ Zpos p
  | Zneg p => Zpos m / 2 ^ Zpos p
  end.

Definition to_int (x : spec_float) : option Z :=
  match x with
  | S754_zero _ => Some 0
  | S754_finite s m e => Some (cond_Zopp s (magnitude m e))
  | S754_infinity _ | S754_nan => None
  end.

(** The exact value of a float that has one, in lowest terms. *)
Definition to_Q (x : spec_float) : option Q :=
  match x with
  | S754_zero _ => Some 0%Q
  | S754_finite s m e =>
      Some (Qred (match e with
                  | Z0 => inject_Z (cond_Zopp s (Zpos m))
                  | Zpos p => inject_Z (cond_Zopp s (Zpos m) * 2 ^ Zpos p)
                  | Zneg p => Qmake (cond_Zopp s (Zpos m)) (2 ^ p)%positive
                  end))
  | S754_infinity _ | S754_nan => None
  end.

Definition is_nan (x : spec_float) : bool :=
  match x with S754_nan => true | _ => false end.

(** Zero or a finite number: neither an infinity nor a NaN. *)
Definition finite (x : spec_float) : bool :=
  match x with
  | S754_zero _ | S754_finite _ _ _ => true
  | S754_infinity _ | S754_nan => false
  end.
End Binary32.

#[export] Instance binary32 : FloatOps spec_float := {|
  f_of_int := Binary32.of_int;
  f_add := SFadd Binary32.prec Binary32.emax;
  f_sub := SFsub Binary32.prec Binary32.emax;
  f_mul := SFmul Binary32.prec Binary32.emax;
  f_div := SFdiv Binary32.prec Binary32.emax;
  f_ltb := SFltb;
  f_abs := SFabs;
  f_to_int := Binary32.to_int
|}.

Module ExactQ.
Definition ltb (x y : Q) : bool := negb (Qle_bool y x).
Definition to_int (x : Q) : option Z := Some (Z.quot (Qnum x) (Zpos (Qden x))).
End ExactQ.

#[export] Instance exactQ : FloatOps Q := {|
  f_of_int := inject_Z;
  f_add := Qplus;
  f_sub := Qminus;
  f_mul := Qmult;
  f_div := Qdiv;
  f_ltb := ExactQ.ltb;
  f_abs := Qabs;
  f_to_int := ExactQ.to_int
|}.

Section Float.
Context {F : Type} `{FloatOps F}.

(** [static_cast<uint16_t>(x)]: defined when the truncated value fits. *)
Definition f_to_uint16 (x : F) : option Z :=
  z ← f_to_int x;
  if (0 <=? z) && (z <=? UINT16_MAX) then Some z else None.

(** A decimal literal [n/d] with [n] and [d] small integers, e.g. [0.03f]. *)
Definition f_lit (n d : Z) : F := f_div (f_of_int n) (f_of_int d).

(** [std::max(a, b)] is [(a < b) ? b : a]. *)
Definition f_max (a b : F) : F := if f_ltb a b then b else a.

(** Arduino's [constrain(amt, low, high)] macro. *)
Definition constrain (amt low high : F) : F :=
  if f_ltb amt low then low else if f_ltb high amt then high else amt.
End Float.

(** ** Loops *)

(** [for (i = lo; i < lo + n; i++) body], threading the loop state. *)
Fixpoint for_range {S : Type} (body : nat -> S -> option S) (lo n : nat) (s : S)
  : option S :=
  match n with
  | O => Some s
  | Datatypes.S n' => s' ← body lo s; for_range body (Datatypes.S lo) n' s'
  end.

(** ** Data model ([sdm.h]) *)

Record SDMConfig (F : Type) : Type := mkConfig {
  vector_dim : Z;
  num_locations : Z;
  access_radius : Z;
  sparsity : F
}.
Arguments mkConfig {F}.
Arguments vector_dim {F}.
Arguments num_locations {F}.
Arguments access_radius {F}.
Arguments sparsity {F}.

Record SDMStats (F : Type) : Type := mkStats {
  total_writes : Z;
  total_reads : Z;
  last_confidence : F;
  last_activated_locations : Z;
  avg_match_ratio : F
}.
Arguments mkStats {F}.
Arguments total_writes {F}.
Arguments total_reads {F}.
Arguments last_confidence {F}.
Arguments last_activated_locations {F}.
Arguments avg_match_ratio {F}.

Record SparseDistributedMemory (F : Type) : Type := mkSDM {
  stats : SDMStats F;
  addresses : list (list Z);
  memory : list (list Z);
  access_counts : list Z;
  config : SDMConfig F
}.
Arguments mkSDM {F}.
Arguments stats {F}.
Arguments addresses {F}.
Arguments memory {F}.
Arguments access_counts {F}.
Arguments config {F}.

Section Store.
Context {F : Type} `{FloatOps F}.

Definition default_config : SDMConfig F :=
  mkConfig 128 1000 20 (f_lit 3 100).

Definition default_stats : SDMStats F :=
  mkStats 0 0 (f_of_int 0) 0 (f_of_int 0).

(** [hammingDistance]: the loop runs while [i] is inside both vectors;
    [distance] is a [uint16_t]. *)
Fixpoint hammingDistance_from (distance : Z) (v1 v2 : list Z) : Z :=
  match v1, v2 with
  | x :: v1', y :: v2' =>
      hammingDistance_from
        (if x =? y then distance else to_uint16 (distance + 1)) v1' v2'
  | _, _ => distance
  end.

Definition hammingDistance (v1 v2 : list Z) : Z := hammingDistance_from 0 v1 v2.

(** One counter update of [write].  [updated] is an [int32_t]: the sum
    of an [int16_t] and a [uint8_t] is exact there; the assignment to
    [memory[i][j]] narrows to [int16_t]. *)
Definition write_counter (x m strength : Z) : Z :=
  if x =? 1 then
    let updated := m + strength in
    to_int16 (if updated >? INT16_MAX then INT16_MAX else updated)
  else
    let updated := m - strength in
    to_int16 (if updated <? INT16_MIN then INT16_MIN else updated).

(** Body of the loop over [j] in [write], for location [i]. *)
Definition write_bit (input : list Z) (strength : Z) (i j : nat)
    (mem : list (list Z)) : option (list (list Z)) :=
  x ← input !! j;
  row ← mem !! i;
  m ← row !! j;
  Some (<[i := <[j := write_counter x m strength]> row]> mem).

(** The state of the loop over [i] in [write]. *)
Record write_state : Type := mkWriteState {
  ws_memory : list (list Z);
  ws_access_counts : list Z;
  ws_activated : Z
}.

Definition write_location (cfg : SDMConfig F) (addrs : list (list Z))
    (input : list Z) (strength : Z) (i : nat) (st : write_state)
    : option write_state :=
  a ← addrs !! i;
  let dist := hammingDistance input a in
  if dist <=? access_radius cfg then
    c ← ws_access_counts st !! i;
    let counts := <[i := to_uint16 (c + 1)]> (ws_access_counts st) in
    mem ← for_range (write_bit input strength i) 0
             (Z.to_nat (vector_dim cfg)) (ws_memory st);
    Some (mkWriteState mem counts (to_uint16 (ws_activated st + 1)))
  else Some st.

(** [SparseDistributedMemory::write]: the store after the call and the
    returned count. *)
Definition write (s : SparseDistributedMemory F) (input_vector : list Z)
    (strength : Z) : option (SparseDistributedMemory F * Z) :=
  if negb (Z.of_nat (length input_vector) =? vector_dim (config s)) then
    Some (s, 0)
  else
    st ← for_range
            (write_location (config s) (addresses s) input_vector strength)
            0 (Z.to_nat (num_locations (config s)))
            (mkWriteState (memory s) (access_counts s) 0);
    let st' := mkStats (to_uint32 (total_writes (stats s) + 1))
                       (total_reads (stats s))
                       (last_confidence (stats s))
                       (ws_activated st)
                       (avg_match_ratio (stats s)) in
    Some (mkSDM st' (addresses s) (ws_memory st) (ws_access_counts st)
                (config s),
          ws_activated st).

(** The loop of [read] that collects [activated_indices] and
    [distances] ([push_back] appends). *)
Definition read_collect (cfg : SDMConfig F) (addrs : list (list Z))
    (query : list Z) (i : nat) (st : list Z * list Z)
    : option (list Z * list Z) :=
  a ← addrs !! i;
  let dist := hammingDistance query a in
  if dist <=? access_radius cfg then
    Some (st.1 ++ [Z.of_nat i], st.2 ++ [dist])
  else Some st.

(** [total[j] += weight * memory[loc_idx][j]]. *)
Definition read_accumulate (mem : list (list Z)) (weight : F) (loc_idx : nat)
    (j : nat) (total : list F) : option (list F) :=
  row ← mem !! loc_idx;
  m ← row !! j;
  t ← total !! j;
  Some (<[j := f_add t (f_mul weight (f_of_int m))]> total).

(** Body of the loop over the activated locations. *)
Definition read_weigh (cfg : SDMConfig F) (mem : list (list Z))
    (activated_indices distances : list Z) (i : nat) (st : list F * F)
    : option (list F * F) :=
  d ← distances !! i;
  let weight := f_div (f_of_int 1) (f_add (f_of_int 1) (f_of_int d)) in
  let total_weight := f_add st.2 weight in
  loc_idx ← activated_indices !! i;
  total ← for_range (read_accumulate mem weight (Z.to_nat loc_idx)) 0
             (Z.to_nat (vector_dim cfg)) st.1;
  Some (total, total_weight).

(** Body of the normalise-and-threshold loop. *)
Definition read_threshold (total : list F) (total_weight : F) (i : nat)
    (st : list Z * F) : option (list Z * F) :=
  t ← total !! i;
  _ ← st.1 !! i;
  let normalized_value := f_div t total_weight in
  let bit := if f_ltb (f_of_int 0) normalized_value then 1 else 0 in
  Some (<[i := bit]> st.1, f_max st.2 (f_abs normalized_value)).

(** [SparseDistributedMemory::read]: the store after the call and the
    returned pair. *)
Definition read (s : SparseDistributedMemory F) (query_vector : list Z)
    : option (SparseDistributedMemory F * (list Z * F)) :=
  let cfg := config s in
  let D := Z.to_nat (vector_dim cfg) in
  if negb (Z.of_nat (length query_vector) =? vector_dim cfg) then
    Some (s, (replicate D 0, f_of_int 0))
  else
    '(activated_indices, distances) ←
      for_range (read_collect cfg (addresses s) query_vector) 0
        (Z.to_nat (num_locations cfg)) ([], []);
    if decide (activated_indices = []) then
      Some (s, (replicate D 0, f_of_int 0))
    else
      '(total, total_weight) ←
        for_range (read_weigh cfg (memory s) activated_indices distances) 0
          (length activated_indices) (replicate D (f_of_int 0), f_of_int 0);
      '(output, max_confidence) ←
        for_range (read_threshold total total_weight) 0 D
          (replicate D 0, f_of_int 0);
      let st' := mkStats (total_writes (stats s))
                         (to_uint32 (total_reads (stats s) + 1))
                         max_confidence
                         (last_activated_locations (stats s))
                         (avg_match_ratio (stats s)) in
      Some (mkSDM st' (addresses s) (memory s) (access_counts s) cfg,
            (output, max_confidence)).
End Store.


(** ** The SD card and the rest of the environment *)

(** An open [File]: its bytes and the read position. *)
Record File : Type := mkFile { f_data : list Z; f_pos : nat }.

(** [file.read(buf, n)]: up to [n] bytes from the read position; at the
    end of the file fewer (or none) are delivered. *)
Definition file_read (f : File) (n : nat) : File * list Z :=
  let bytes := take n (drop (f_pos f) (f_data f)) in
  (mkFile (f_data f) (f_pos f + length bytes), bytes).

(** The two bytes of a 16-bit object, low byte first (the ESP32-S3 is
    little-endian), and back. *)
Definition bytes_of_uint16 (x : Z) : list Z := [x mod 256; (x / 256) mod 256].

Definition uint16_of_bytes (b : list Z) : Z :=
  match b with
  | [lo; hi] => lo + 256 * hi
  | _ => 0
  end.

(** Bytes delivered into a buffer overwrite its first bytes; the rest of
    the buffer keeps what it held. *)
Definition overwrite (old new : list Z) : list Z := new ++ drop (length new) old.

(** [file.read] into the two bytes of a [uint16_t x] and of an
    [int16_t x]; the count that [read] returns is not looked at. *)
Definition file_read_uint16 (f : File) (x : Z) : File * Z :=
  let '(f', bytes) := file_read f 2 in
  (f', uint16_of_bytes (overwrite (bytes_of_uint16 x) bytes)).

Definition file_read_int16 (f : File) (x : Z) : File * Z :=
  let '(f', v) := file_read_uint16 f (to_uint16 x) in (f', to_int16 v).

(** The values the code puts into and takes out of a [DynamicJsonDocument]. *)
Inductive JsonValue (F : Type) : Type :=
  | JInt (z : Z)
  | JFloat (x : F)
  | JString (s : string).
Arguments JInt {F}.
Arguments JFloat {F}.
Arguments JString {F}.

Definition JsonDocument (F : Type) : Type := list (string * JsonValue F).

(** [doc[key]]: the member, if the document has it. *)
Fixpoint json_get {F} (doc : JsonDocument F) (key : string)
  : option (JsonValue F) :=
  match doc with
  | [] => None
  | (k, v) :: rest => if String.eqb k key then Some v else json_get rest key
  end.

(** [doc[key] = v]: replaces the member or appends it. *)
Fixpoint json_set {F} (doc : JsonDocument F) (key : string) (v : JsonValue F)
  : JsonDocument F :=
  match doc with
  | [] => [(key, v)]
  | (k, v0) :: rest =>
      if String.eqb k key then (k, v) :: rest else (k, v0) :: json_set rest key v
  end.

Section JsonAccess.
Context {F : Type} `{FloatOps F}.

(** [doc[key] | fallback] for a [uint16_t]: the member when it is an
    integer that fits, otherwise the fallback. *)
Definition json_uint16_or (doc : JsonDocument F) (key : string) (fallback : Z)
  : Z :=
  match json_get doc key with
  | Some (JInt z) => if (0 <=? z) && (z <=? UINT16_MAX) then z else fallback
  | _ => fallback
  end.

(** [doc[key] | fallback] for a [float]. *)
Definition json_float_or (doc : JsonDocument F) (key : string) (fallback : F)
  : F :=
  match json_get doc key with
  | Some (JFloat x) => x
  | Some (JInt z) => f_of_int z
  | _ => fallback
  end.

(** The implicit conversions [uint16_t x = doc[key]] and
    [float x = doc[key]]: zero when the member is missing or of another
    kind. *)
Definition json_uint16 (doc : JsonDocument F) (key : string) : Z :=
  json_uint16_or doc key 0.

Definition json_float (doc : JsonDocument F) (key : string) : F :=
  json_float_or doc key (f_of_int 0).
End JsonAccess.

(** One row of a benchmark log. *)
Record CsvRow (F : Type) : Type := mkRow {
  row_vector_dim : Z;
  row_num_locations : Z;
  row_access_radius : Z;
  row_radius_factor : F;
  row_reinforcement : Z;
  row_match_ratio : F;
  row_confidence : F;
  row_duration_ms : Z;
  row_memory_usage : Z;
  row_free_heap : option Z
}.
Arguments mkRow {F}.
Arguments row_vector_dim {F}.
Arguments row_num_locations {F}.
Arguments row_access_radius {F}.
Arguments row_radius_factor {F}.
Arguments row_reinforcement {F}.
Arguments row_match_ratio {F}.
Arguments row_confidence {F}.
Arguments row_duration_ms {F}.
Arguments row_memory_usage {F}.
Arguments row_free_heap {F}.

(** The card, by the paths the kernel uses.  A binary file is its bytes;
    a JSON file is what [deserializeJson] makes of its text ([None] when
    the text is refused); a log is its rows below the header line.
    [sd_read_ok] and [sd_write_ok] say whether [SD.open] succeeds for
    reading an existing file and for [FILE_WRITE]. *)
Record SDCard (F : Type) : Type := mkSD {
  sd_config_file : option (option (JsonDocument F));   (* /sdm_config.json *)
  sd_memory_file : option (list Z);                    (* /sdm/memory.bin *)
  sd_stats_file : option (JsonDocument F);             (* /sdm/stats.json *)
  sd_optimal_config_file : option (option (JsonDocument F));
                                                       (* /sdm_optimal_config.json *)
  sd_benchmark_results : option (list (CsvRow F));     (* /sdm_benchmark_results.csv *)
  sd_comprehensive_benchmark : option (list (CsvRow F));
                                            (* /sdm_comprehensive_benchmark.csv *)
  sd_sdm_dir : bool;                                   (* /sdm *)
  sd_read_ok : bool;
  sd_write_ok : bool
}.
Arguments mkSD {F}.
Arguments sd_config_file {F}.
Arguments sd_memory_file {F}.
Arguments sd_stats_file {F}.
Arguments sd_optimal_config_file {F}.
Arguments sd_benchmark_results {F}.
Arguments sd_comprehensive_benchmark {F}.
Arguments sd_sdm_dir {F}.
Arguments sd_read_ok {F}.
Arguments sd_write_ok {F}.

Section Persistence.
Context {F : Type} `{FloatOps F}.

(** The loop of [loadMemoryFromSD] over the access counts. *)
Definition load_access_count (i : nat) (st : File * list Z)
    : option (File * list Z) :=
  c ← st.2 !! i;
  let '(f, c') := file_read_uint16 st.1 c in
  Some (f, <[i := c']> st.2).

(** The loops of [loadMemoryFromSD] over the counters. *)
Definition load_counter (i j : nat) (st : File * list (list Z))
    : option (File * list (list Z)) :=
  row ← st.2 !! i;
  m ← row !! j;
  let '(f, m') := file_read_int16 st.1 m in
  Some (f, <[i := <[j := m']> row]> st.2).

Definition load_row (D : nat) (i : nat) (st : File * list (list Z))
    : option (File * list (list Z)) :=
  for_range (load_counter i) 0 D st.

(** [SparseDistributedMemory::loadMemoryFromSD].  [stored_locations]
    and [stored_dim] are declared without a value: [garbage] is what
    they hold before the two header reads. *)
Definition loadMemoryFromSD (sd : SDCard F) (garbage : Z * Z)
    (s : SparseDistributedMemory F)
    : option (SparseDistributedMemory F * bool) :=
  match sd_memory_file sd with
  | None => Some (s, false)
  | Some data =>
      if negb (sd_read_ok sd) then Some (s, false)
      else
        let file := mkFile data 0 in
        let '(file, stored_locations) := file_read_uint16 file garbage.1 in
        let '(file, stored_dim) := file_read_uint16 file garbage.2 in
        if negb (stored_locations =? num_locations (config s))
           || negb (stored_dim =? vector_dim (config s))
        then Some (s, false)
        else
          '(file, counts) ←
            for_range load_access_count 0
              (Z.to_nat (num_locations (config s))) (file, access_counts s);
          '(file, mem) ←
            for_range (load_row (Z.to_nat (vector_dim (config s)))) 0
              (Z.to_nat (num_locations (config s))) (file, memory s);
          Some (mkSDM (stats s) (addresses s) mem counts (config s), true)
  end.
End Persistence.

(** ** Encoder ([sdm_encoder.cpp]) *)

Definition sequence_length : Z := 32.

Section Encoder.
Context {F : Type} `{FloatOps F}.

(** [encoded[i] = 1]. *)
Definition set_bit (i : nat) (encoded : list Z) : option (list Z) :=
  _ ← encoded !! i; Some (<[i := 1]> encoded).

(** [SDMEncoder::encodeFloat].  The loop runs for [i = 0 .. position]
    while [i < vector_dim]. *)
Definition encodeFloat (cfg : SDMConfig F) (value min_val max_val : F)
    : option (list Z) :=
  let encoded := replicate (Z.to_nat (vector_dim cfg)) 0 in
  let normalized := f_div (f_sub value min_val) (f_sub max_val min_val) in
  let normalized := constrain normalized (f_of_int 0) (f_of_int 1) in
  position ← f_to_uint16 (f_mul normalized (f_of_int (vector_dim cfg - 1)));
  for_range set_bit 0 (Z.to_nat (Z.min (position + 1) (vector_dim cfg))) encoded.

(** The scan of [decodeFloat]: [i] is the index of the head of [v].  The
    index is a [uint16_t]; it stays below 65536 on the vectors of a
    store, which have [vector_dim] elements. *)
Fixpoint highest_bit_from (i highest_bit : Z) (v : list Z) : Z :=
  match v with
  | [] => highest_bit
  | x :: v' =>
      highest_bit_from (i + 1) (if x =? 1 then i else highest_bit) v'
  end.

(** [SDMEncoder::decodeFloat]. *)
Definition decodeFloat (cfg : SDMConfig F) (vector : list Z)
    (min_val max_val : F) : F :=
  let highest_bit := highest_bit_from 0 0 vector in
  let normalized := f_div (f_of_int highest_bit) (f_of_int (vector_dim cfg - 1)) in
  f_add min_val (f_mul normalized (f_sub max_val min_val)).

(** [bits_per_element = vector_dim / sequence_length], an integer
    quotient. *)
Definition bits_per_element (cfg : SDMConfig F) : Z :=
  to_uint16 (vector_dim cfg / sequence_length).

(** Body of the loop of [encodeSequence] over the elements. *)
Definition encode_element (cfg : SDMConfig F) (sequence : list F) (i : nat)
    (encoded : list Z) : option (list Z) :=
  x ← sequence !! i;
  let normalized := f_div (f_add x (f_of_int 1)) (f_of_int 2) in
  let normalized := constrain normalized (f_of_int 0) (f_of_int 1) in
  let start_bit := to_uint16 (Z.of_nat i * bits_per_element cfg) in
  num_bits ← f_to_uint16 (f_mul normalized (f_of_int (bits_per_element cfg)));
  for_range set_bit (Z.to_nat start_bit)
    (Z.to_nat (Z.min num_bits (vector_dim cfg - start_bit))) encoded.

(** [SDMEncoder::encodeSequence]. *)
Definition encodeSequence (cfg : SDMConfig F) (sequence : list F)
    : option (list Z) :=
  let encoded := replicate (Z.to_nat (vector_dim cfg)) 0 in
  match sequence with
  | [] => Some encoded
  | _ =>
      for_range (encode_element cfg sequence) 0
        (Nat.min (length sequence) (Z.to_nat sequence_length)) encoded
  end.

(** The count of set bits in one segment. *)
Definition count_active (vector : list Z) (j : nat) (active_bits : Z)
    : option Z :=
  x ← vector !! j;
  Some (if x =? 1 then to_uint16 (active_bits + 1) else active_bits).

(** Body of the loop of [decodeSequence] over the 32 segments; the
    quotient [active_bits / bits_per_element] is a [float] division. *)
Definition decode_element (cfg : SDMConfig F) (vector : list Z) (i : nat)
    (sequence : list F) : option (list F) :=
  let start_bit := to_uint16 (Z.of_nat i * bits_per_element cfg) in
  active_bits ←
    for_range (count_active vector) (Z.to_nat start_bit)
      (Z.to_nat (Z.min (bits_per_element cfg)
                       (Z.of_nat (length vector) - start_bit))) 0;
  let normalized :=
    f_div (f_of_int active_bits) (f_of_int (bits_per_element cfg)) in
  let value := f_sub (f_mul normalized (f_of_int 2)) (f_of_int 1) in
  Some (sequence ++ [value]).

(** [SDMEncoder::decodeSequence]. *)
Definition decodeSequence (cfg : SDMConfig F) (vector : list Z)
    : option (list F) :=
  for_range (decode_element cfg vector) 0 (Z.to_nat sequence_length) [].
End Encoder.

(** ** The environment of the benchmark

    Everything the code draws from outside the store: the card, the
    clock, the free-heap reading and the two sources of randomness.  Each
    source is the sequence of its successive answers and the number of
    answers already given. *)
Record World (F : Type) : Type := mkWorld {
  w_sd : SDCard F;
  w_clock : nat -> Z;        (* successive readings of millis() *)
  w_clock_calls : nat;
  w_heap : nat -> Z;         (* successive readings of ESP.getFreeHeap() *)
  w_heap_calls : nat;
  w_raw_random : nat -> Z;   (* successive raw draws behind random() *)
  w_random_calls : nat;
  w_shuffles : nat -> nat -> list Z;
      (* [w_shuffles k n]: the order std::shuffle leaves [0 .. n-1] in,
         the k-th time a freshly seeded generator is used *)
  w_shuffle_calls : nat;
  w_garbage : Z * Z          (* what uninitialised locals happen to hold *)
}.
Arguments mkWorld {F}.
Arguments w_sd {F}.
Arguments w_clock {F}.
Arguments w_clock_calls {F}.
Arguments w_heap {F}.
Arguments w_heap_calls {F}.
Arguments w_raw_random {F}.
Arguments w_random_calls {F}.
Arguments w_shuffles {F}.
Arguments w_shuffle_calls {F}.
Arguments w_garbage {F}.

Section Environment.
Context {F : Type}.

Definition set_sd (sd : SDCard F) (w : World F) : World F :=
  mkWorld sd (w_clock w) (w_clock_calls w) (w_heap w) (w_heap_calls w)
          (w_raw_random w) (w_random_calls w) (w_shuffles w)
          (w_shuffle_calls w) (w_garbage w).

(** [millis()], an [unsigned long] of 32 bits. *)
Definition millis (w : World F) : Z * World F :=
  (to_uint32 (w_clock w (w_clock_calls w)),
   mkWorld (w_sd w) (w_clock w) (Datatypes.S (w_clock_calls w)) (w_heap w)
           (w_heap_calls w) (w_raw_random w) (w_random_calls w)
           (w_shuffles w) (w_shuffle_calls w) (w_garbage w)).

(** [ESP.getFreeHeap()], a [uint32_t]. *)
Definition getFreeHeap (w : World F) : Z * World F :=
  (to_uint32 (w_heap w (w_heap_calls w)),
   mkWorld (w_sd w) (w_clock w) (w_clock_calls w) (w_heap w)
           (Datatypes.S (w_heap_calls w)) (w_raw_random w) (w_random_calls w)
           (w_shuffles w) (w_shuffle_calls w) (w_garbage w)).

(** Arduino's [random(howbig)]: 0 when [howbig] is 0, otherwise a draw
    reduced modulo [howbig]. *)
Definition random (howbig : Z) (w : World F) : Z * World F :=
  (if howbig =? 0 then 0
   else to_uint32 (w_raw_random w (w_random_calls w)) mod howbig,
   mkWorld (w_sd w) (w_clock w) (w_clock_calls w) (w_heap w) (w_heap_calls w)
           (w_raw_random w) (Datatypes.S (w_random_calls w)) (w_shuffles w)
           (w_shuffle_calls w) (w_garbage w)).

(** [std::iota] then [std::shuffle] with a generator seeded from
    [std::random_device]. *)
Definition shuffled_indices (n : nat) (w : World F) : list Z * World F :=
  (w_shuffles w (w_shuffle_calls w) n,
   mkWorld (w_sd w) (w_clock w) (w_clock_calls w) (w_heap w) (w_heap_calls w)
           (w_raw_random w) (w_random_calls w) (w_shuffles w)
           (Datatypes.S (w_shuffle_calls w)) (w_garbage w)).

Definition set_config_file (c : option (option (JsonDocument F)))
    (sd : SDCard F) : SDCard F :=
  mkSD c (sd_memory_file sd) (sd_stats_file sd) (sd_optimal_config_file sd)
       (sd_benchmark_results sd) (sd_comprehensive_benchmark sd)
       (sd_sdm_dir sd) (sd_read_ok sd) (sd_write_ok sd).

Definition set_memory_file (m : option (list Z)) (sd : SDCard F) : SDCard F :=
  mkSD (sd_config_file sd) m (sd_stats_file sd) (sd_optimal_config_file sd)
       (sd_benchmark_results sd) (sd_comprehensive_benchmark sd)
       (sd_sdm_dir sd) (sd_read_ok sd) (sd_write_ok sd).

Definition set_stats_file (t : option (JsonDocument F)) (sd : SDCard F)
    : SDCard F :=
  mkSD (sd_config_file sd) (sd_memory_file sd) t (sd_optimal_config_file sd)
       (sd_benchmark_results sd) (sd_comprehensive_benchmark sd)
       (sd_sdm_dir sd) (sd_read_ok sd) (sd_write_ok sd).

Definition set_optimal_config_file (c : option (option (JsonDocument F)))
    (sd : SDCard F) : SDCard F :=
  mkSD (sd_config_file sd) (sd_memory_file sd) (sd_stats_file sd) c
       (sd_benchmark_results sd) (sd_comprehensive_benchmark sd)
       (sd_sdm_dir sd) (sd_read_ok sd) (sd_write_ok sd).

Definition set_benchmark_results (r : option (list (CsvRow F)))
    (sd : SDCard F) : SDCard F :=
  mkSD (sd_config_file sd) (sd_memory_file sd) (sd_stats_file sd)
       (sd_optimal_config_file sd) r (sd_comprehensive_benchmark sd)
       (sd_sdm_dir sd) (sd_read_ok sd) (sd_write_ok sd).

Definition set_comprehensive_benchmark (r : option (list (CsvRow F)))
    (sd : SDCard F) : SDCard F :=
  mkSD (sd_config_file sd) (sd_memory_file sd) (sd_stats_file sd)
       (sd_optimal_config_file sd) (sd_benchmark_results sd) r
       (sd_sdm_dir sd) (sd_read_ok sd) (sd_write_ok sd).

(** [if (!SD.exists("/sdm")) SD.mkdir("/sdm")]. *)
Definition ensure_sdm_dir (sd : SDCard F) : SDCard F :=
  mkSD (sd_config_file sd) (sd_memory_file sd) (sd_stats_file sd)
       (sd_optimal_config_file sd) (sd_benchmark_results sd)
       (sd_comprehensive_benchmark sd) true (sd_read_ok sd) (sd_write_ok sd).
End Environment.

Section Saving.
Context {F : Type} `{FloatOps F}.

(** [SparseDistributedMemory::loadConfig]. *)
Definition loadConfig (sd : SDCard F) (s : SparseDistributedMemory F)
    : SparseDistributedMemory F * bool :=
  match sd_config_file sd with
  | None => (s, false)
  | Some content =>
      if negb (sd_read_ok sd) then (s, false)
      else
        match content with
        | None => (s, false)
        | Some doc =>
            let c := config s in
            let c := mkConfig (json_uint16_or doc "vector_dim" (vector_dim c))
                              (num_locations c) (access_radius c) (sparsity c) in
            let c := mkConfig (vector_dim c)
                              (json_uint16_or doc "num_locations" (num_locations c))
                              (access_radius c) (sparsity c) in
            let c := mkConfig (vector_dim c) (num_locations c)
                              (json_uint16_or doc "access_radius" (access_radius c))
                              (sparsity c) in
            let c := mkConfig (vector_dim c) (num_locations c) (access_radius c)
                              (json_float_or doc "sparsity" (sparsity c)) in
            (mkSDM (stats s) (addresses s) (memory s) (access_counts s) c, true)
        end
  end.

(** The document [saveConfig] and [saveOptimalConfig] build. *)
Definition config_document (c : SDMConfig F) (timestamp : Z) : JsonDocument F :=
  let doc := [] in
  let doc := json_set doc "vector_dim" (JInt (vector_dim c)) in
  let doc := json_set doc "num_locations" (JInt (num_locations c)) in
  let doc := json_set doc "access_radius" (JInt (access_radius c)) in
  let doc := json_set doc "sparsity" (JFloat (sparsity c)) in
  json_set doc "timestamp" (JInt timestamp).

(** [SparseDistributedMemory::saveConfig]. *)
Definition saveConfig (s : SparseDistributedMemory F) (w : World F)
    : bool * World F :=
  let '(now, w) := millis w in
  let doc := config_document (config s) now in
  if negb (sd_write_ok (w_sd w)) then (false, w)
  else (true, set_sd (set_config_file (Some (Some doc)) (w_sd w)) w).

(** The loops of [saveMemoryToSD]; the file under construction is the
    list of bytes written so far. *)
Definition save_access_count (counts : list Z) (i : nat) (file : list Z)
    : option (list Z) :=
  c ← counts !! i; Some (file ++ bytes_of_uint16 c).

Definition save_counter (mem : list (list Z)) (i j : nat) (file : list Z)
    : option (list Z) :=
  row ← mem !! i; m ← row !! j; Some (file ++ bytes_of_uint16 (to_uint16 m)).

Definition save_row (mem : list (list Z)) (D : nat) (i : nat) (file : list Z)
    : option (list Z) :=
  for_range (save_counter mem i) 0 D file.

(** [SparseDistributedMemory::saveMemoryToSD]. *)
Definition saveMemoryToSD (s : SparseDistributedMemory F) (w : World F)
    : option (bool * World F) :=
  let sd := ensure_sdm_dir (w_sd w) in
  if negb (sd_write_ok sd) then Some (false, set_sd sd w)
  else
    let N := Z.to_nat (num_locations (config s)) in
    let D := Z.to_nat (vector_dim (config s)) in
    let file := bytes_of_uint16 (num_locations (config s))
                ++ bytes_of_uint16 (vector_dim (config s)) in
    file ← for_range (save_access_count (access_counts s)) 0 N file;
    file ← for_range (save_row (memory s) D) 0 N file;
    Some (true, set_sd (set_memory_file (Some file) sd) w).

(** [SparseDistributedMemory::saveStatsToSD]. *)
Definition saveStatsToSD (s : SparseDistributedMemory F) (w : World F)
    : bool * World F :=
  let st := stats s in
  let doc := [] in
  let doc := json_set doc "total_writes" (JInt (total_writes st)) in
  let doc := json_set doc "total_reads" (JInt (total_reads st)) in
  let doc := json_set doc "last_confidence" (JFloat (last_confidence st)) in
  let doc := json_set doc "last_activated_locations"
                      (JInt (last_activated_locations st)) in
  let doc := json_set doc "avg_match_ratio" (JFloat (avg_match_ratio st)) in
  let '(now, w) := millis w in
  let doc := json_set doc "timestamp" (JInt now) in
  if negb (sd_write_ok (w_sd w)) then (false, w)
  else (true, set_sd (set_stats_file (Some doc) (w_sd w)) w).

(** [SparseDistributedMemory::saveToSD]; [success &= f()] calls every
    [f]. *)
Definition saveToSD (s : SparseDistributedMemory F) (w : World F)
    : option (bool * World F) :=
  let success := true in
  let '(ok, w) := saveConfig s w in
  let success := success && ok in
  '(ok, w) ← saveMemoryToSD s w;
  let success := success && ok in
  let '(ok, w) := saveStatsToSD s w in
  let success := success && ok in
  Some (success, w).

(** The destructor saves the state. *)
Definition destroy (s : SparseDistributedMemory F) (w : World F)
    : option (World F) :=
  '(_, w) ← saveToSD s w; Some w.
End Saving.

(** ** Initialisation ([sdm.cpp]) *)

Section Initialize.
Context {F : Type} `{FloatOps F}.

(** [num_ones = static_cast<uint16_t>(config.vector_dim * sparsity)]. *)
Definition num_ones (cfg : SDMConfig F) (sparsity : F) : option Z :=
  f_to_uint16 (f_mul (f_of_int (vector_dim cfg)) sparsity).

(** [vector[indices[i]] = 1]. *)
Definition set_indexed_bit (indices : list Z) (i : nat) (vector : list Z)
    : option (list Z) :=
  idx ← indices !! i;
  _ ← vector !! Z.to_nat idx;
  Some (<[Z.to_nat idx := 1]> vector).

(** [SparseDistributedMemory::generateSparseVector]; [indices] is the
    shuffled index vector. *)
Definition generateSparseVector (cfg : SDMConfig F) (indices : list Z)
    (vector : list Z) (sparsity : F) : option (list Z) :=
  let vector := replicate (length vector) 0 in
  n ← num_ones cfg sparsity;
  for_range (set_indexed_bit indices) 0
    (Z.to_nat (Z.min n (Z.of_nat (length indices)))) vector.

(** The state of the loop of [initialize]. *)
Record init_state : Type := mkInitState {
  is_world : World F;
  is_addresses : list (list Z);
  is_memory : list (list Z)
}.

Definition initialize_location (cfg : SDMConfig F) (i : nat) (st : init_state)
    : option init_state :=
  let D := Z.to_nat (vector_dim cfg) in
  _ ← is_addresses st !! i;
  _ ← is_memory st !! i;
  let addrs := <[i := replicate D 0]> (is_addresses st) in
  let mem := <[i := replicate D 0]> (is_memory st) in
  let '(indices, w) := shuffled_indices D (is_world st) in
  a ← addrs !! i;
  a ← generateSparseVector cfg indices a (sparsity cfg);
  Some (mkInitState w (<[i := a]> addrs) mem).

(** [SparseDistributedMemory::initialize]. *)
Definition initialize (s : SparseDistributedMemory F) (w : World F)
    : option (SparseDistributedMemory F * bool * World F) :=
  let '(s, _) := loadConfig (w_sd w) s in
  let cfg := config s in
  let N := Z.to_nat (num_locations cfg) in
  st ← for_range (initialize_location cfg) 0 N
          (mkInitState w (replicate N []) (replicate N []));
  let s := mkSDM (stats s) (is_addresses st) (is_memory st) (replicate N 0) cfg in
  let w := is_world st in
  '(s, _) ← loadMemoryFromSD (w_sd w) (w_garbage w) s;
  Some (s, true, w).
End Initialize.

(** ** Benchmark ([sdm_benchmark.cpp]) *)

(** A loop over the elements of a container. *)
Fixpoint for_each {A S : Type} (body : A -> S -> option S) (l : list A) (s : S)
  : option S :=
  match l with
  | [] => Some s
  | x :: l' => s' ← body x s; for_each body l' s'
  end.

Section Benchmark.
Context {F : Type} `{FloatOps F}.

(** [SDMBenchmark::saveOptimalConfig]. *)
Definition saveOptimalConfig (c : SDMConfig F) (w : World F) : bool * World F :=
  let '(now, w) := millis w in
  let doc := config_document c now in
  let doc := json_set doc "version" (JString "1.0") in
  if negb (sd_write_ok (w_sd w)) then (false, w)
  else (true, set_sd (set_optimal_config_file (Some (Some doc)) (w_sd w)) w).

(** The defaults [findOptimalConfig] falls back to. *)
Definition safe_default_config : SDMConfig F :=
  let c := default_config in
  let c := mkConfig 16 (num_locations c) (access_radius c) (sparsity c) in
  let c := mkConfig (vector_dim c) 50 (access_radius c) (sparsity c) in
  let c := mkConfig (vector_dim c) (num_locations c) 3 (sparsity c) in
  mkConfig (vector_dim c) (num_locations c) (access_radius c) (f_lit 3 100).

(** [SDMBenchmark::findOptimalConfig]. *)
Definition findOptimalConfig (w : World F) : SDMConfig F * World F :=
  let fallback :=
    let '(_, w) := saveOptimalConfig safe_default_config w in
    (safe_default_config, w) in
  match sd_optimal_config_file (w_sd w) with
  | Some content =>
      if sd_read_ok (w_sd w) then
        match content with
        | Some doc =>
            (mkConfig (json_uint16 doc "vector_dim")
                      (json_uint16 doc "num_locations")
                      (json_uint16 doc "access_radius")
                      (json_float doc "sparsity"), w)
        | None => fallback
        end
      else fallback
  | None => fallback
  end.

(** The partial shuffle of [testConfiguration] that draws the test
    vector: state is [(indices, test_vector, world)]. *)
Definition draw_test_bit (cfg : SDMConfig F) (i : nat)
    (st : list Z * list Z * World F) : option (list Z * list Z * World F) :=
  let '(indices, test_vector, w) := st in
  let '(r, w) := random (vector_dim cfg - Z.of_nat i) w in
  let swap_idx := to_uint16 (r + Z.of_nat i) in
  a ← indices !! i;
  b ← indices !! Z.to_nat swap_idx;
  let indices := <[Z.to_nat swap_idx := a]> (<[i := b]> indices) in
  idx ← indices !! i;
  _ ← test_vector !! Z.to_nat idx;
  Some (indices, <[Z.to_nat idx := 1]> test_vector, w).

(** [test_sdm.write(test_vector)], ten times, with the default strength. *)
Definition write_repeatedly (test_vector : list Z) (i : nat)
    (s : SparseDistributedMemory F) : option (SparseDistributedMemory F) :=
  '(s, _) ← write s test_vector 1; Some s.

(** The count of positions where input and output agree. *)
Definition count_match (test_vector output_vector : list Z) (i : nat)
    (matches : Z) : option Z :=
  x ← test_vector !! i;
  y ← output_vector !! i;
  Some (if x =? y then to_uint16 (matches + 1) else matches).

(** One trial of [testConfiguration]; state is the store, the world and
    [total_match_ratio]. *)
Definition run_trial (cfg : SDMConfig F) (test : nat)
    (st : SparseDistributedMemory F * World F * F)
    : option (SparseDistributedMemory F * World F * F) :=
  let '(test_sdm, w, total_match_ratio) := st in
  let D := Z.to_nat (vector_dim cfg) in
  let test_vector := replicate D 0 in
  n ← num_ones cfg (sparsity cfg);
  let indices := map Z.of_nat (seq 0 D) in
  '(_, test_vector, w) ←
    for_range (draw_test_bit cfg) 0 (Z.to_nat (Z.min n (vector_dim cfg)))
      (indices, test_vector, w);
  test_sdm ← for_range (write_repeatedly test_vector) 0 10 test_sdm;
  '(test_sdm, (output_vector, confidence)) ← read test_sdm test_vector;
  matches ← for_range (count_match test_vector output_vector) 0 D 0;
  let match_ratio := f_div (f_of_int matches) (f_of_int (vector_dim cfg)) in
  Some (test_sdm, w, f_add total_match_ratio match_ratio).

(** [SDMBenchmark::testConfiguration]; the store is destroyed, and so
    saved, on return. *)
Definition testConfiguration (cfg : SDMConfig F) (num_tests : Z) (w : World F)
    : option (F * World F) :=
  let test_sdm := mkSDM default_stats [] [] [] cfg in
  '(test_sdm, ok, w) ← initialize test_sdm w;
  if negb ok then w ← destroy test_sdm w; Some (f_of_int 0, w)
  else
    '(test_sdm, w, total_match_ratio) ←
      for_range (run_trial cfg) 0 (Z.to_nat num_tests)
        (test_sdm, w, f_of_int 0);
    w ← destroy test_sdm w;
    Some (f_div total_match_ratio (f_of_int num_tests), w).

(** The local state of a sweep: the world, the rows printed to the open
    log so far, and the best point seen. *)
Record sweep_state : Type := mkSweep {
  sw_world : World F;
  sw_csv : list (CsvRow F);
  sw_best_performance : F;
  sw_best_config : SDMConfig F
}.

(** [SDMConfig test_config] with dimension, capacity and radius set. *)
Definition make_test_config (dim locations : Z) (factor : F)
    : option (SDMConfig F) :=
  let c := default_config in
  let c := mkConfig dim (num_locations c) (access_radius c) (sparsity c) in
  let c := mkConfig (vector_dim c) locations (access_radius c) (sparsity c) in
  radius ← f_to_uint16 (f_mul (f_of_int dim) factor);
  Some (mkConfig (vector_dim c) (num_locations c) radius (sparsity c)).

(** [locations * dim * 3 + locations * 2], a [uint32_t]. *)
Definition memory_footprint (dim locations : Z) : Z :=
  to_uint32 (locations * dim * 3 + locations * 2).

(** [if (performance > best_performance) ...]. *)
Definition track_best (performance : F) (test_config : SDMConfig F)
    (st : sweep_state) : F * SDMConfig F :=
  if f_ltb (sw_best_performance st) performance
  then (performance, test_config)
  else (sw_best_performance st, sw_best_config st).

(** One grid point of the quick sweep, up to the heap check. *)
Definition quick_point (dim locations : Z) (factor : F) (reinforce : Z)
    (st : sweep_state) : option sweep_state :=
  test_config ← make_test_config dim locations factor;
  let '(start_time, w) := millis (sw_world st) in
  '(performance, w) ← testConfiguration test_config 5 w;
  let '(end_time, w) := millis w in
  let duration := to_uint32 (end_time - start_time) in
  let memory_usage := memory_footprint dim locations in
  let row := mkRow dim locations (access_radius test_config) factor reinforce
                   performance (f_of_int 0) duration memory_usage None in
  let '(best, best_config) := track_best performance test_config st in
  Some (mkSweep w (sw_csv st ++ [row]) best best_config).

(** The innermost loop of the quick sweep; it stops at the first point
    after which less than 50000 bytes of heap are free. *)
Fixpoint quick_reinforce_loop (dim locations : Z) (factor : F)
    (reinforce_levels : list Z) (st : sweep_state) : option sweep_state :=
  match reinforce_levels with
  | [] => Some st
  | reinforce :: rest =>
      st ← quick_point dim locations factor reinforce st;
      let '(heap, w) := getFreeHeap (sw_world st) in
      let st := mkSweep w (sw_csv st) (sw_best_performance st)
                        (sw_best_config st) in
      if heap <? 50000 then Some st
      else quick_reinforce_loop dim locations factor rest st
  end.

Definition quick_dims : list Z := [32; 64].
Definition quick_locations : list Z := [100; 200].
Definition quick_factors : list F := [f_lit 2 10; f_lit 4 10; f_lit 6 10].

(** [SDMBenchmark::runQuickBenchmark], for a given list of
    reinforcement levels. *)
Definition runQuickBenchmark_with (reinforce_levels : list Z) (w : World F)
    : option (bool * World F) :=
  if negb (sd_write_ok (w_sd w)) then Some (false, w)
  else
    let w := set_sd (set_benchmark_results (Some []) (w_sd w)) w in
    st ← for_each (fun dim =>
            for_each (fun locations =>
              for_each (fun factor =>
                quick_reinforce_loop dim locations factor reinforce_levels)
                quick_factors)
              quick_locations)
            quick_dims (mkSweep w [] (f_of_int 0) default_config);
    let w := sw_world st in
    let w := set_sd (set_benchmark_results (Some (sw_csv st)) (w_sd w)) w in
    let '(_, w) := saveOptimalConfig (sw_best_config st) w in
    Some (true, w).

(** The quick sweep as written: reinforcement levels 5, 15 and 30. *)
Definition runQuickBenchmark (w : World F) : option (bool * World F) :=
  runQuickBenchmark_with [5; 15; 30] w.

(** [struct BenchmarkParams]. *)
Record BenchmarkParams : Type := mkParams {
  vector_dims : list Z;
  num_locations_grid : list Z;
  radius_factors : list F;
  reinforce_cycles : list Z
}.

Definition default_params : BenchmarkParams :=
  mkParams [32; 64; 128; 256] [500; 1000; 2000]
           [f_lit 1 10; f_lit 2 10; f_lit 4 10; f_lit 6 10]
           [1; 5; 10; 20; 30].

(** One grid point of the comprehensive sweep. *)
Definition comprehensive_point (dim locations required_memory : Z) (factor : F)
    (reinforce : Z) (st : sweep_state) : option sweep_state :=
  test_config ← make_test_config dim locations factor;
  let '(start_time, w) := millis (sw_world st) in
  '(performance, w) ← testConfiguration test_config 3 w;
  let '(end_time, w) := millis w in
  let duration := to_uint32 (end_time - start_time) in
  let memory_usage := required_memory in
  let '(free_heap, w) := getFreeHeap w in
  let row := mkRow dim locations (access_radius test_config) factor reinforce
                   performance (f_of_int 0) duration memory_usage
                   (Some free_heap) in
  let '(best, best_config) := track_best performance test_config st in
  Some (mkSweep w (sw_csv st ++ [row]) best best_config).

(** The body of the loop over [locations]: the memory check, then the
    two inner loops. *)
Definition comprehensive_locations (params : BenchmarkParams)
    (dim locations : Z) (st : sweep_state) : option sweep_state :=
  let required_memory := memory_footprint dim locations in
  let '(heap, w) := getFreeHeap (sw_world st) in
  let st := mkSweep w (sw_csv st) (sw_best_performance st)
                    (sw_best_config st) in
  if required_memory >? to_uint32 (heap - 100000) then Some st
  else
    for_each (fun factor =>
      for_each (comprehensive_point dim locations required_memory factor)
               (reinforce_cycles params))
      (radius_factors params) st.

(** [SDMBenchmark::runComprehensiveBenchmark], for given parameters. *)
Definition runComprehensiveBenchmark_with (params : BenchmarkParams)
    (w : World F) : option (bool * World F) :=
  if negb (sd_write_ok (w_sd w)) then Some (false, w)
  else
    let w := set_sd (set_comprehensive_benchmark (Some []) (w_sd w)) w in
    st ← for_each (fun dim =>
            for_each (comprehensive_locations params dim)
                     (num_locations_grid params))
            (vector_dims params) (mkSweep w [] (f_of_int 0) default_config);
    let w := sw_world st in
    let w := set_sd (set_comprehensive_benchmark (Some (sw_csv st)) (w_sd w)) w in
    let '(_, w) := saveOptimalConfig (sw_best_config st) w in
    Some (true, w).

Definition runComprehensiveBenchmark (w : World F) : option (bool * World F) :=
  runComprehensiveBenchmark_with default_params w.
End Benchmark.
(** ** Specification-level notions for the store *)

(** Number of positions at which two bit vectors differ. *)
Fixpoint hamming (v1 v2 : list Z) : Z :=
  match v1, v2 with
  | x :: v1', y :: v2' => (if x =? y then 0 else 1) + hamming v1' v2'
  | _, _ => 0
  end.

(** Location with address [a] is activated by [x]. *)
Definition activated {F} (cfg : SDMConfig F) (x a : list Z) : bool :=
  hamming a x <=? access_radius cfg.

Definition count_activated {F} (cfg : SDMConfig F) (x : list Z)
    (addrs : list (list Z)) : Z :=
  Z.of_nat (length (List.filter (activated cfg x) addrs)).

Definition clamp_int16 (v : Z) : Z := Z.max INT16_MIN (Z.min INT16_MAX v).

(** The counter a write of input bit [x] with [strength] leaves. *)
Definition counter_after (x m strength : Z) : Z :=
  if x =? 1 then clamp_int16 (m + strength) else clamp_int16 (m - strength).

(** The shape the store has after [initialize], with every field inside
    its C++ type. *)
Record store_wf {F} (s : SparseDistributedMemory F) : Prop := mkStoreWf {
  wf_vector_dim : is_uint16 (vector_dim (config s));
  wf_num_locations : is_uint16 (num_locations (config s));
  wf_access_radius : is_uint16 (access_radius (config s));
  wf_addresses : length (addresses s) = Z.to_nat (num_locations (config s));
  wf_address_dim :
    Forall (fun a => length a = Z.to_nat (vector_dim (config s))) (addresses s);
  wf_memory : length (memory s) = Z.to_nat (num_locations (config s));
  wf_memory_dim :
    Forall (fun row => length row = Z.to_nat (vector_dim (config s))) (memory s);
  wf_memory_int16 : Forall (Forall is_int16) (memory s);
  wf_access_counts :
    length (access_counts s) = Z.to_nat (num_locations (config s));
  wf_access_counts_uint16 : Forall is_uint16 (access_counts s)
}.


(** What [write] leaves at location [k], whose address is [a] and whose
    access count and counter row were [c] and [row]. *)
Definition written_at {F} (cfg : SDMConfig F) (input : list Z) (strength : Z)
    (counts' : list Z) (mem' : list (list Z))
    (k : nat) (a : list Z) (c : Z) (row : list Z) : Prop :=
  if activated cfg input a then
    counts' !! k = Some (to_uint16 (c + 1)) /\
    exists row', mem' !! k = Some row' /\ length row' = length row /\
      forall j x m, input !! j = Some x -> row !! j = Some m ->
        row' !! j = Some (write_counter x m strength)
  else counts' !! k = Some c /\ mem' !! k = Some row.


(** A store with one location at distance 1 from the vector [[1]], whose
    access count stands at the top of [uint16_t]. *)
Definition saturated_count_store : SparseDistributedMemory spec_float :=
  mkSDM default_stats [[0]] [[0]] [65535] (mkConfig 1 1 1 (f_lit 3 100)).

(** A small store used to exercise the operations: two locations of three
    bits, radius 1; location 1 holds counters near both ends of
    [int16_t]. *)
Definition demo_store : SparseDistributedMemory spec_float :=
  mkSDM default_stats
        [[1; 0; 0]; [0; 1; 1]]
        [[0; 0; 0]; [32767; -32768; 5]]
        [7; 9]
        (mkConfig 3 2 1 (f_lit 3 100)).

(** *** The read formula *)

Section ReadSpec.
Context {F : Type} `{FloatOps F}.

(** The activated locations of [q] with their distances [(i, d_i)], in
    index order; [i] counts from [start]. *)
Fixpoint activations_from (cfg : SDMConfig F) (q : list Z) (start : nat)
    (addrs : list (list Z)) : list (nat * Z) :=
  match addrs with
  | [] => []
  | a :: rest =>
      (if hamming a q <=? access_radius cfg then [(start, hamming a q)] else [])
      ++ activations_from cfg q (Datatypes.S start) rest
  end.

Definition activations (cfg : SDMConfig F) (q : list Z)
    (addrs : list (list Z)) : list (nat * Z) :=
  activations_from cfg q 0 addrs.

(** [w_i = 1 / (1 + d_i)]. *)
Definition weight (d : Z) : F :=
  f_div (f_of_int 1) (f_add (f_of_int 1) (f_of_int d)).

(** A sum taken from zero in list order, as the accumulating loops do. *)
Definition f_sum (l : list F) : F := foldl f_add (f_of_int 0) l.

(** [memory[i][j]]. *)
Definition counter (mem : list (list Z)) (i j : nat) : Z :=
  default 0 (row ← mem !! i; row !! j).

(** [W], the sum of the weights. *)
Definition total_weight (acts : list (nat * Z)) : F :=
  f_sum (map (fun p => weight p.2) acts).

(** [mu[j] = (sum_i w_i * memory[i][j]) / W]. *)
Definition weighted_mean (mem : list (list Z)) (acts : list (nat * Z))
    (j : nat) : F :=
  f_div (f_sum (map (fun p => f_mul (weight p.2) (f_of_int (counter mem p.1 j)))
                    acts))
        (total_weight acts).

(** The largest of a list of values and zero. *)
Definition f_maximum (l : list F) : F := foldl f_max (f_of_int 0) l.

Definition read_bits (mem : list (list Z)) (acts : list (nat * Z)) (D : nat)
    : list Z :=
  map (fun j => if f_ltb (f_of_int 0) (weighted_mean mem acts j) then 1 else 0)
      (seq 0 D).

Definition read_confidence (mem : list (list Z)) (acts : list (nat * Z))
    (D : nat) : F :=
  f_maximum (map (fun j => f_abs (weighted_mean mem acts j)) (seq 0 D)).
End ReadSpec.

(** A store whose single address [[1;0;0]] is activated only by itself
    (radius 0), with four reads already counted and a last confidence of
    2.5. *)
Definition quiet_store : SparseDistributedMemory spec_float :=
  mkSDM (mkStats 6 4 (f_lit 5 2) 1 (f_of_int 0))
        [[1; 0; 0]] [[3; -3; -3]] [6]
        (mkConfig 3 1 0 (f_lit 3 100)).

(** *** The state file *)

(** What a 16-bit object that held [old] holds after [file.read] at byte
    offset [p] of [data]: the bytes the file still has there, over the
    bytes of [old]. *)
Definition stored_uint16 (data : list Z) (p : nat) (old : Z) : Z :=
  uint16_of_bytes (overwrite (bytes_of_uint16 old) (take 2 (drop p data))).

Definition stored_int16 (data : list Z) (p : nat) (old : Z) : Z :=
  to_int16 (stored_uint16 data p (to_uint16 old)).

(** The header test of [loadMemoryFromSD]: the file is there, opens, and
    its first two 16-bit words are [num_locations] and [vector_dim]. *)
Definition header_accepted {F} (sd : SDCard F) (garbage : Z * Z)
    (cfg : SDMConfig F) : bool :=
  match sd_memory_file sd with
  | None => false
  | Some data =>
      sd_read_ok sd
      && (stored_uint16 data 0 garbage.1 =? num_locations cfg)
      && (stored_uint16 data 2 garbage.2 =? vector_dim cfg)
  end.

(** Byte offsets of access count [i] and of counter [(i, j)] in the file. *)
Definition count_offset (i : nat) : nat := 4 + 2 * i.
Definition counter_offset {F} (cfg : SDMConfig F) (i j : nat) : nat :=
  4 + 2 * Z.to_nat (num_locations cfg)
  + 2 * (i * Z.to_nat (vector_dim cfg) + j).

(** Length of a complete state file for [cfg]. *)
Definition payload_length {F} (cfg : SDMConfig F) : nat :=
  4 + 2 * Z.to_nat (num_locations cfg)
  + 2 * (Z.to_nat (num_locations cfg) * Z.to_nat (vector_dim cfg)).

(** A card holding only a state file for [demo_store] that stops after
    the first access count. *)
Definition truncated_card : SDCard spec_float :=
  mkSD None (Some [2; 0; 3; 0; 1; 0]) None None None None true true true.

(** *** Encoder examples *)

(** The configuration with eight bits per vector, and the default range
    of [encodeFloat]. *)
Definition dim8_config : SDMConfig spec_float := mkConfig 8 50 3 (f_lit 3 100).
Definition default_min_val : spec_float := f_of_int (-100).
Definition default_max_val : spec_float := f_of_int 100.

(** The [float] -42.857143402099609375 (bit pattern 0xC22B6DB7), just
    below [-100 + 2 * 200/7]. *)
Definition near_boundary_value : spec_float := S754_finite true 11234743 (-18).

(** *** Configuration files *)

(** The document holds the four fields of [c]. *)
Definition document_holds {F} (doc : JsonDocument F) (c : SDMConfig F) : Prop :=
  json_get doc "vector_dim" = Some (JInt (vector_dim c)) /\
  json_get doc "num_locations" = Some (JInt (num_locations c)) /\
  json_get doc "access_radius" = Some (JInt (access_radius c)) /\
  json_get doc "sparsity" = Some (JFloat (sparsity c)).

(** Every field of the configuration is inside its C++ type. *)
Definition config_wf {F} (c : SDMConfig F) : Prop :=
  is_uint16 (vector_dim c) /\ is_uint16 (num_locations c) /\
  is_uint16 (access_radius c).

(** An empty, writable card and deterministic stand-ins for the clock, the
    heap reading and the random sources ([std::shuffle] leaves the indices
    reversed). *)
Definition empty_card : SDCard spec_float :=
  mkSD None None None None None None false true true.

Definition blank_world : World spec_float :=
  mkWorld empty_card
          (fun k => 40 * Z.of_nat k) 0
          (fun _ => 200000) 0
          (fun k => 7 * Z.of_nat k + 3) 0
          (fun _ n => rev (map Z.of_nat (seq 0 n))) 0
          (0, 0).

(** The same world with a card that refuses to open files for writing. *)
Definition write_protected_world : World spec_float :=
  set_sd (mkSD None None None None None None false true false) blank_world.

(** *** Address vectors *)

(** Number of one-bits of a vector. *)
Definition count_ones (v : list Z) : Z :=
  Z.of_nat (length (List.filter (Z.eqb 1) v)).

(** [std::shuffle] leaves a permutation of the indices it was given. *)
Definition shuffles_permute {F} (w : World F) : Prop :=
  forall k n, Permutation (w_shuffles w k n) (map Z.of_nat (seq 0 n)).

(** A [D]-bit address with exactly [k] one-bits. *)
Definition sparse_address (D : nat) (k : Z) (a : list Z) : Prop :=
  length a = D /\ count_ones a = k /\ Forall (fun b => b = 0 \/ b = 1) a.

(** *** Noninterference of the reinforcement column *)

(** A row with its reinforcement column blanked. *)
Definition erase_reinforcement {F} (r : CsvRow F) : CsvRow F :=
  mkRow (row_vector_dim r) (row_num_locations r) (row_access_radius r)
        (row_radius_factor r) 0 (row_match_ratio r) (row_confidence r)
        (row_duration_ms r) (row_memory_usage r) (row_free_heap r).

(** A world with the reinforcement column of both logs blanked. *)
Definition erase_logs {F} (w : World F) : World F :=
  let sd := w_sd w in
  set_sd (set_comprehensive_benchmark
            (option_map (map erase_reinforcement) (sd_comprehensive_benchmark sd))
            (set_benchmark_results
               (option_map (map erase_reinforcement) (sd_benchmark_results sd))
               sd))
         w.

(** Two runs agree when both are undefined, or both return the same flag
    and worlds that differ at most in the reinforcement column of the
    logs. *)
Definition runs_agree {F} (r1 r2 : option (bool * World F)) : Prop :=
  match r1, r2 with
  | Some (ok1, w1), Some (ok2, w2) => ok1 = ok2 /\ erase_logs w1 = erase_logs w2
  | None, None => True
  | _, _ => False
  end.

(** Two sweep states agree when they differ at most in the reinforcement
    column of the rows printed so far. *)
Definition sweeps_agree {F} `{FloatOps F} (o1 o2 : option (sweep_state (F := F)))
    : Prop :=
  match o1, o2 with
  | Some st1, Some st2 =>
      sw_world st1 = sw_world st2 /\
      map erase_reinforcement (sw_csv st1) = map erase_reinforcement (sw_csv st2) /\
      sw_best_performance st1 = sw_best_performance st2 /\
      sw_best_config st1 = sw_best_config st2
  | None, None => True
  | _, _ => False
  end.

(** Parameters that differ from [params] at most in the reinforcement
    levels. *)
Definition with_reinforce_cycles {F} `{FloatOps F}
    (params : BenchmarkParams (F := F)) (levels : list Z) : BenchmarkParams :=
  mkParams (vector_dims params) (num_locations_grid params)
           (radius_factors params) levels.

(** A store before [initialize], configured for three locations of a
    hundred bits at 3 % sparsity. *)
Definition fresh_store : SparseDistributedMemory spec_float :=
  mkSDM default_stats [] [] [] (mkConfig 100 3 10 (f_lit 3 100)).

(** The state a sweep starts from in [blank_world]. *)
Definition blank_sweep : sweep_state (F := spec_float) :=
  mkSweep blank_world [] (f_of_int 0) default_config.

(** The reinforcement column and the match ratio of the rows printed. *)
Definition logged_scores (st : option (sweep_state (F := spec_float)))
    : option (list (Z * spec_float)) :=
  option_map (fun st => map (fun r => (row_reinforcement r, row_match_ratio r))
                            (sw_csv st)) st.

(** ** Loading the whole state ([sdm.cpp]) *)

Section Loading.
Context {F : Type} `{FloatOps F}.

(** [SparseDistributedMemory::loadFromSD]; [success &= f()] calls every
    [f]. *)
Definition loadFromSD (sd : SDCard F) (garbage : Z * Z)
    (s : SparseDistributedMemory F)
    : option (SparseDistributedMemory F * bool) :=
  let success := true in
  let '(s, ok) := loadConfig sd s in
  let success := success && ok in
  '(s, ok) ← loadMemoryFromSD sd garbage s;
  let success := success && ok in
  Some (s, success).
End Loading.

(** The bytes of a complete state file: the two header words, the access
    counts, then the counters row by row, each 16-bit object low byte
    first. *)
Definition counter_bytes (row : list Z) : list Z :=
  flat_map (fun m => bytes_of_uint16 (to_uint16 m)) row.

Definition state_file_bytes {F} (s : SparseDistributedMemory F) : list Z :=
  (bytes_of_uint16 (num_locations (config s))
   ++ bytes_of_uint16 (vector_dim (config s)))
  ++ flat_map bytes_of_uint16 (access_counts s)
  ++ flat_map counter_bytes (memory s).

(** The bytes of the state file, when there is one, are bytes. *)
Definition card_holds_bytes {F} (sd : SDCard F) : Prop :=
  forall data, sd_memory_file sd = Some data -> Forall is_uint8 data.

(** ** Text encoder ([sdm_encoder.cpp]) *)

From stdpp Require Import pretty.
Local Open Scope Z_scope.

Section TextEncoder.
Context {F : Type}.

(** [uint16_t hash = (c * a + i * b) % vector_dim]: [int] arithmetic,
    [%] truncates toward zero, the result is converted to [uint16_t]. *)
Definition text_hash (cfg : SDMConfig F) (c : Z) (i : nat) (a b : Z) : Z :=
  to_uint16 (Z.rem (c * a + Z.of_nat i * b) (vector_dim cfg)).

(** Body of the loop of [encodeText]; [text] is the string as its
    character codes.  A remainder by [vector_dim = 0] is undefined. *)
Definition encode_char (cfg : SDMConfig F) (text : list Z) (i : nat)
    (encoded : list Z) : option (list Z) :=
  c ← text !! i;
  if vector_dim cfg =? 0 then None
  else
    let hash1 := text_hash cfg c i 17 31 in
    let hash2 := text_hash cfg c i 23 47 in
    let hash3 := text_hash cfg c i 41 53 in
    encoded ← set_bit (Z.to_nat hash1) encoded;
    encoded ← set_bit (Z.to_nat hash2) encoded;
    set_bit (Z.to_nat hash3) encoded.

(** [SDMEncoder::encodeText]. *)
Definition encodeText (cfg : SDMConfig F) (text : list Z) : option (list Z) :=
  let encoded := replicate (Z.to_nat (vector_dim cfg)) 0 in
  for_range (encode_char cfg text) 0
    (Nat.min (length text) (Z.to_nat sequence_length)) encoded.
End TextEncoder.

(** [SDMEncoder::decodeText]: [if (bit) active_bits++] over the bytes,
    then the decimal numeral between two fixed words. *)
Definition count_set (active_bits bit : Z) : Z :=
  if bit =? 0 then active_bits else to_uint16 (active_bits + 1).

Definition decodeText (vector : list Z) : string :=
  let active_bits := fold_left count_set vector 0 in
  "Decoded_" +:+ pretty active_bits +:+ "_bits".

(** Position [j] is one of the three hashed positions of a character
    among the first 32 of [text]. *)
Definition hashed_position {F} (cfg : SDMConfig F) (text : list Z) (j : nat)
    : Prop :=
  exists i c, (i < 32)%nat /\ text !! i = Some c /\
    (Z.of_nat j = (c * 17 + Z.of_nat i * 31) mod vector_dim cfg \/
     Z.of_nat j = (c * 23 + Z.of_nat i * 47) mod vector_dim cfg \/
     Z.of_nat j = (c * 41 + Z.of_nat i * 53) mod vector_dim cfg).

(** Number of non-zero bytes. *)
Definition count_nonzero (v : list Z) : Z :=
  Z.of_nat (length (List.filter (fun b => negb (b =? 0)) v)).

(** The world after [n] more draws of [random]. *)
Definition advance_random {F} (n : nat) (w : World F) : World F :=
  mkWorld (w_sd w) (w_clock w) (w_clock_calls w) (w_heap w) (w_heap_calls w)
          (w_raw_random w) (n + w_random_calls w) (w_shuffles w)
          (w_shuffle_calls w) (w_garbage w).

(** A world whose card holds the configuration of an eight-bit store. *)
Definition configured_world : World spec_float :=
  set_sd (mkSD (Some (Some (config_document dim8_config 0))) None None None
               None None false true true)
         blank_world.

(** A card written by a store of three locations of three bits. *)
Definition three_location_config : SDMConfig spec_float :=
  mkConfig 3 3 1 (f_lit 3 100).

Definition three_location_card : SDCard spec_float :=
  mkSD (Some (Some (config_document three_location_config 0)))
       (Some [3; 0; 3; 0]) None None None None true true true.

(** ** Pre-trained libraries ([sdm_prelib.cpp]) *)

(** The four bytes of a 32-bit object, low byte first, and back. *)
Definition bytes_of_uint32 (x : Z) : list Z :=
  [x mod 256; (x / 256) mod 256; (x / 65536) mod 256; (x / 16777216) mod 256].

Definition uint32_of_bytes (b : list Z) : Z :=
  match b with
  | [b0; b1; b2; b3] => b0 + 256 * b1 + 65536 * b2 + 16777216 * b3
  | _ => 0
  end.

(** [file.read] into the four bytes of a [uint32_t x], and into one
    [uint8_t x]; the count that [read] returns is not looked at. *)
Definition file_read_uint32 (f : File) (x : Z) : File * Z :=
  let '(f', bytes) := file_read f 4 in
  (f', uint32_of_bytes (overwrite (bytes_of_uint32 x) bytes)).

Definition file_read_uint8 (f : File) (x : Z) : File * Z :=
  let '(f', bytes) := file_read f 1 in
  (f', match bytes with b :: _ => b | [] => x end).

Section Library.
Context {F : Type} `{FloatOps F}.

(** The writes of [savePretrainedVectors] to [vectors.bin]: the header,
    then every byte of every vector.  [lib] is what [vectors.bin] held,
    the result what it holds afterwards.  (The labels and the metadata go
    to two other files of the library's directory.) *)
Definition savePretrainedVectors (write_ok : bool) (vectors : list (list Z))
    (lib : option (list Z)) : option (list Z) * bool :=
  if negb write_ok then (lib, false)
  else
    let num_vectors := to_uint32 (Z.of_nat (length vectors)) in
    let vector_dim :=
      to_uint32 (match vectors with
                 | [] => 0
                 | v :: _ => Z.of_nat (length v)
                 end) in
    let file := bytes_of_uint32 num_vectors ++ bytes_of_uint32 vector_dim in
    let file :=
      fold_left (fun file vector =>
                   fold_left (fun file bit => file ++ [bit]) vector file)
                vectors file in
    (Some file, true).

(** [file.read(&vector[j], 1)]. *)
Definition load_vector_byte (j : nat) (st : File * list Z)
    : option (File * list Z) :=
  x ← st.2 !! j;
  let '(f, b) := file_read_uint8 st.1 x in
  Some (f, <[j := b]> st.2).

(** Body of the loop of [loadPretrainedVectors] over the vectors. *)
Definition load_vector (dim : nat) (i : nat) (st : File * list (list Z))
    : option (File * list (list Z)) :=
  '(f, vector) ← for_range load_vector_byte 0 dim (st.1, replicate dim 0);
  Some (f, st.2 ++ [vector]).

(** [loadPretrainedVectors], as far as [vectors.bin] and the argument
    [vectors] go: [lib] is the content of the file, if it exists,
    [garbage] what the two uninitialised header words hold before they
    are read.  (The labels are then read from [labels.txt] into the third
    argument; neither the result nor the vectors depend on them.) *)
Definition loadPretrainedVectors (cfg : SDMConfig F) (lib : option (list Z))
    (read_ok : bool) (garbage : Z * Z) (vectors : list (list Z))
    : option (list (list Z) * bool) :=
  match lib with
  | None => Some (vectors, false)
  | Some data =>
      if negb read_ok then Some (vectors, false)
      else
        let file := mkFile data 0 in
        let '(file, num_vectors) := file_read_uint32 file garbage.1 in
        let '(file, lib_dim) := file_read_uint32 file garbage.2 in
        if negb (lib_dim =? vector_dim cfg) then Some (vectors, false)
        else
          let vectors := [] in
          '(file, vectors) ←
            for_range (load_vector (Z.to_nat lib_dim)) 0
              (Z.to_nat num_vectors) (file, vectors);
          Some (vectors, true)
  end.

(** [sdm->write(vector, 2)], [reinforcement] times. *)
Definition reinforce (vector : list Z) (i : nat) (s : SparseDistributedMemory F)
    : option (SparseDistributedMemory F) :=
  '(s, _) ← write s vector 2; Some s.

(** [mergeLibraryIntoSDM]. *)
Definition mergeLibraryIntoSDM (s : SparseDistributedMemory F)
    (lib : option (list Z)) (read_ok : bool) (garbage : Z * Z)
    (reinforcement : Z) : option (SparseDistributedMemory F * bool) :=
  '(vectors, ok) ← loadPretrainedVectors (config s) lib read_ok garbage [];
  if negb ok then Some (s, false)
  else
    s ← for_each (fun vector =>
                    for_range (reinforce vector) 0 (Z.to_nat reinforcement))
                 vectors s;
    Some (s, true).

(** [SparseDistributedMemory::loadPretrainedLib]: the default
    reinforcement is 3. *)
Definition loadPretrainedLib (s : SparseDistributedMemory F)
    (lib : option (list Z)) (read_ok : bool) (garbage : Z * Z)
    : option (SparseDistributedMemory F * bool) :=
  mergeLibraryIntoSDM s lib read_ok garbage 3.

(** [pattern[j] = (memory[i][j] > 0) ? 1 : 0]. *)
Definition pattern_bit (mem : list (list Z)) (i j : nat) (pattern : list Z)
    : option (list Z) :=
  row ← mem !! i;
  m ← row !! j;
  _ ← pattern !! j;
  Some (<[j := if m >? 0 then 1 else 0]> pattern).

(** Body of the loop of [savePretrainedLib] over the locations; the state
    is [(vectors, labels)]. *)
Definition extract_pattern (s : SparseDistributedMemory F) (i : nat)
    (st : list (list Z) * list string) : option (list (list Z) * list string) :=
  c ← access_counts s !! i;
  if c >? 5 then
    let D := Z.to_nat (vector_dim (config s)) in
    pattern ← for_range (pattern_bit (memory s) i) 0 D (replicate D 0);
    Some (st.1 ++ [pattern],
          st.2 ++ ["pattern_" +:+ pretty (Z.of_nat i) +:+ "_access_" +:+ pretty c])
  else Some st.

(** [SparseDistributedMemory::savePretrainedLib], as far as [vectors.bin]
    goes. *)
Definition savePretrainedLib (s : SparseDistributedMemory F) (write_ok : bool)
    (lib : option (list Z)) : option (option (list Z) * bool) :=
  '(vectors, labels) ←
    for_range (extract_pattern s) 0 (Z.to_nat (num_locations (config s)))
      ([], []);
  Some (savePretrainedVectors write_ok vectors lib).
End Library.

(** What a header read, a byte read and the reads of one vector deliver
    from [data]. *)
Definition stored_uint32 (data : list Z) (p : nat) (old : Z) : Z :=
  uint32_of_bytes (overwrite (bytes_of_uint32 old) (take 4 (drop p data))).

Definition loaded_vector (data : list Z) (base dim : nat) : list Z :=
  map (fun j => default 0 (data !! (base + j)%nat)) (seq 0 dim).

(** The pattern [savePretrainedLib] extracts from a row of counters. *)
Definition pattern_of (row : list Z) : list Z :=
  map (fun m => if m >? 0 then 1 else 0) row.

(** A library file announcing two vectors of three bits and holding only
    the first. *)
Definition short_library : list Z := [2; 0; 0; 0; 3; 0; 0; 0; 1; 0; 1].

(** The patterns of the locations accessed more than five times, in
    location order. *)
Fixpoint frequent_patterns (counts : list Z) (mem : list (list Z))
    : list (list Z) :=
  match counts, mem with
  | c :: counts', row :: mem' =>
      (if c >? 5 then [pattern_of row] else []) ++ frequent_patterns counts' mem'
  | _, _ => []
  end.

(** A store with one frequently accessed location. *)
Definition trained_store : SparseDistributedMemory spec_float :=
  mkSDM default_stats [[1; 0; 0]; [0; 1; 1]] [[4; -2; 0]; [-6; 6; 6]] [3; 6]
        (mkConfig 3 2 1 (f_lit 3 100)).

(** ** Recall *)

(** [n] successive calls [write(v, strength)]. *)
Fixpoint write_times {F} `{FloatOps F} (n : nat)
    (s : SparseDistributedMemory F) (v : list Z) (strength : Z)
    : option (SparseDistributedMemory F) :=
  match n with
  | O => Some s
  | Datatypes.S n' => '(s, _) ← write s v strength; write_times n' s v strength
  end.

(** The counters of a location that only writes of [v] have reached,
    their strengths adding up to [c]. *)
Definition signed_pattern (c : Z) (v : list Z) : list Z :=
  map (fun x => if x =? 1 then c else - c) v.

(** Every location activated by [v] holds [signed_pattern c v], every
    other location holds zeros. *)
Definition holds_pattern {F} (s : SparseDistributedMemory F) (v : list Z)
    (c : Z) : Prop :=
  forall i a, addresses s !! i = Some a ->
    memory s !! i =
    Some (if activated (config s) v a then signed_pattern c v
          else replicate (length v) 0).

(** A store over exact arithmetic with zero counters, whose two
    addresses are within distance 1 of [[1; 0; 1]]. *)
Definition blank_exact_store : SparseDistributedMemory Q :=
  mkSDM default_stats [[1; 0; 0]; [1; 1; 1]] [[0; 0; 0]; [0; 0; 0]] [0; 0]
        (mkConfig 3 2 1 (f_lit 3 100)).

(** ** Sequence codec *)

(** The number of bytes equal to 1 in segment [i] of [vector], and the
    value [decodeSequence] makes of it. *)
Definition segment_ones {F} `{FloatOps F} (cfg : SDMConfig F) (vector : list Z)
    (i : nat) : Z :=
  count_ones
    (take (Z.to_nat (bits_per_element cfg))
       (drop (Z.to_nat (to_uint16 (Z.of_nat i * bits_per_element cfg))) vector)).

Definition segment_value {F} `{FloatOps F} (cfg : SDMConfig F) (vector : list Z)
    (i : nat) : F :=
  f_sub (f_mul (f_div (f_of_int (segment_ones cfg vector i))
                      (f_of_int (bits_per_element cfg)))
               (f_of_int 2))
        (f_of_int 1).

(** The number of bits [encodeSequence] sets for the element [x], in
    exact arithmetic. *)
Definition exact_num_bits (cfg : SDMConfig Q) (x : Q) : Z :=
  Qfloor ((x + 1) / 2 * inject_Z (bits_per_element cfg)).

(** A configuration with two bits per element. *)
Definition dim64_exact_config : SDMConfig Q := mkConfig 64 50 3 (f_lit 3 100).

(** ** The main program ([main.cpp]) *)

Section MainProgram.
Context {F : Type} `{FloatOps F}.

(** [SDMBenchmark::SDMBenchmark]. *)
Definition new_benchmark (w : World F) : World F :=
  set_sd (ensure_sdm_dir (w_sd w)) w.

(** [printMemoryUsage]: what it prints is computed in [int], where a
    total above [INT_MAX] overflows; the free heap is read once. *)
Definition printMemoryUsage (s : SparseDistributedMemory F) (w : World F)
    : option (World F) :=
  let N := num_locations (config s) in
  let D := vector_dim (config s) in
  if N * D * 3 + N * 2 >? 2147483647 then None
  else let '(_, w) := getFreeHeap w in Some w.

(** [initializeSDM]: the store the program works with, if any, and the
    environment afterwards. *)
Definition initializeSDM (sdInitialized : bool) (w : World F)
    : option (option (SparseDistributedMemory F) * World F) :=
  if negb sdInitialized then Some (None, w)
  else
    let w := new_benchmark w in
    let '(optimal_config, w) := findOptimalConfig w in
    let sdm := mkSDM default_stats [] [] [] optimal_config in
    '(sdm, ok, w) ← initialize sdm w;
    if negb ok then w ← destroy sdm w; Some (None, w)
    else w ← printMemoryUsage sdm w; Some (Some sdm, w).

(** The command [ENCODE <text>]: the store, the number of activated
    locations it prints, and the environment afterwards. *)
Definition encode_command (s : SparseDistributedMemory F) (text : list Z)
    (w : World F) : option (SparseDistributedMemory F * Z * World F) :=
  encoded ← encodeText (config s) text;
  '(s, activated) ← write s encoded 5;
  '(_, w) ← saveToSD s w;
  Some (s, activated, w).

(** The command [DECODE <text>]: the store, and the string and the
    confidence it prints. *)
Definition decode_command (s : SparseDistributedMemory F) (text : list Z)
    : option (SparseDistributedMemory F * string * F) :=
  encoded ← encodeText (config s) text;
  '(s, (decoded, confidence)) ← read s encoded;
  let result := decodeText decoded in
  Some (s, result, confidence).
End MainProgram.
(** ** Loop rule *)

Lemma for_range_inv {S : Type} (P : nat -> S -> Prop)
    (body : nat -> S -> option S) (lo n : nat) (s : S) :
  P lo s ->
  (forall i st, (lo <= i < lo + n)%nat -> P i st ->
     exists st', body i st = Some st' /\ P (Datatypes.S i) st') ->
  exists st', for_range body lo n s = Some st' /\ P (lo + n)%nat st'.
Proof.
  revert lo s. induction n as [|n IH]; intros lo s H0 Hstep; simpl.
  - exists s. split; [reflexivity|]. by rewrite Nat.add_0_r.
  - destruct (Hstep lo s) as (s1 & Hb & H1); [lia|assumption|].
    rewrite Hb. simpl.
    destruct (IH (Datatypes.S lo) s1) as (s2 & Hf & H2); [assumption| |].
    + intros i st Hi. apply Hstep. lia.
    + exists s2. split; [assumption|].
      by replace (lo + Datatypes.S n)%nat with (Datatypes.S lo + n)%nat by lia.
Qed.

(** ** Machine-integer facts *)

Lemma to_uint16_id (x : Z) : is_uint16 x -> to_uint16 x = x.
Proof. unfold is_uint16, to_uint16, UINT16_MAX. intros. apply Z.mod_small. lia. Qed.

Lemma to_int16_id (x : Z) : is_int16 x -> to_int16 x = x.
Proof.
  unfold is_int16, to_int16, INT16_MIN, INT16_MAX. intros.
  rewrite Z.mod_small; lia.
Qed.

Lemma clamp_int16_range (v : Z) : is_int16 (clamp_int16 v).
Proof. unfold is_int16, clamp_int16, INT16_MIN, INT16_MAX. lia. Qed.

Lemma write_counter_spec (x m strength : Z) :
  is_int16 m -> 0 <= strength <= 255 ->
  write_counter x m strength = counter_after x m strength.
Proof.
  unfold write_counter, counter_after, clamp_int16, is_int16, INT16_MIN, INT16_MAX.
  intros Hm Hs. destruct (x =? 1).
  - destruct (Z.gtb_spec (m + strength) 32767); rewrite to_int16_id;
      unfold is_int16, INT16_MIN, INT16_MAX; lia.
  - destruct (Z.ltb_spec (m - strength) (-32768)); rewrite to_int16_id;
      unfold is_int16, INT16_MIN, INT16_MAX; lia.
Qed.

Lemma hamming_bounds (v1 v2 : list Z) :
  0 <= hamming v1 v2 <= Z.of_nat (length v1).
Proof.
  revert v2. induction v1 as [|x v1 IH]; intros [|y v2]; simpl; try lia.
  specialize (IH v2). destruct (x =? y); lia.
Qed.

Lemma hamming_sym (v1 v2 : list Z) : hamming v1 v2 = hamming v2 v1.
Proof.
  revert v2. induction v1 as [|x v1 IH]; intros [|y v2]; simpl; try reflexivity.
  rewrite (Z.eqb_sym y x), IH. reflexivity.
Qed.

Lemma hammingDistance_from_spec (v1 v2 : list Z) (d : Z) :
  0 <= d -> d + Z.of_nat (length v1) <= UINT16_MAX ->
  hammingDistance_from d v1 v2 = d + hamming v1 v2.
Proof.
  revert v2 d. induction v1 as [|x v1 IH]; intros [|y v2] d Hd Hlen; simpl;
    try lia.
  simpl in Hlen. destruct (x =? y).
  - rewrite IH; lia.
  - rewrite to_uint16_id by (unfold is_uint16; lia). rewrite IH; lia.
Qed.

Lemma hammingDistance_spec (v1 v2 : list Z) :
  Z.of_nat (length v1) <= UINT16_MAX ->
  hammingDistance v1 v2 = hamming v1 v2.
Proof.
  intros. unfold hammingDistance. rewrite hammingDistance_from_spec; lia.
Qed.

(** ** [write] *)

Section WriteProofs.
Context {F : Type} `{FloatOps F}.

(** The loop over [j]: row [i] is rewritten counter by counter, the other
    rows stay. *)
Lemma write_bits_loop (input : list Z) (strength : Z) (i : nat)
    (mem : list (list Z)) (row : list Z) (D : nat) :
  mem !! i = Some row -> length input = D -> length row = D ->
  exists mem' row',
    for_range (write_bit input strength i) 0 D mem = Some mem' /\
    length mem' = length mem /\
    (forall k, k <> i -> mem' !! k = mem !! k) /\
    mem' !! i = Some row' /\ length row' = D /\
    (forall j x m, input !! j = Some x -> row !! j = Some m ->
       row' !! j = Some (write_counter x m strength)).
Proof.
  intros Hrow Hin Hlen.
  destruct (for_range_inv
    (fun j m' => length m' = length mem /\
       (forall k, k <> i -> m' !! k = mem !! k) /\
       exists r, m' !! i = Some r /\ length r = D /\
         (forall k x m, (k < j)%nat -> input !! k = Some x ->
            row !! k = Some m -> r !! k = Some (write_counter x m strength)) /\
         (forall k, (j <= k)%nat -> r !! k = row !! k))
    (write_bit input strength i) 0 D mem) as (mem' & Hloop & Hl & Ho & r & Hr & Hrl & Hdone & _).
  - split; [reflexivity|]. split; [reflexivity|].
    exists row. repeat split; try assumption. intros; lia.
  - intros j m' Hj (Hl & Ho & r & Hr & Hrl & Hdone & Hrest).
    destruct (lookup_lt_is_Some_2 input j) as [x Hx]; [lia|].
    destruct (lookup_lt_is_Some_2 r j) as [m Hm]; [lia|].
    unfold write_bit. rewrite Hx, Hr. simpl. rewrite Hm. simpl.
    eexists. split; [reflexivity|].
    assert (Hi : (i < length m')%nat) by (eapply lookup_lt_Some; eassumption).
    split; [by rewrite length_insert|].
    split; [intros k Hk; rewrite list_lookup_insert_ne by congruence; by apply Ho|].
    exists (<[j := write_counter x m strength]> r).
    split; [by apply list_lookup_insert_eq|].
    split; [by rewrite length_insert|].
    split.
    + intros k x' m0 Hk Hx' Hm0.
      destruct (decide (k = j)) as [->|Hne].
      * rewrite list_lookup_insert_eq by lia.
        rewrite Hrest in Hm by lia. congruence.
      * rewrite list_lookup_insert_ne by congruence.
        apply Hdone; [lia|assumption|assumption].
    + intros k Hk. rewrite list_lookup_insert_ne by lia. apply Hrest. lia.
  - exists mem', r. repeat split; try assumption.
    intros j x m Hx Hm. apply Hdone; try assumption.
    apply lookup_lt_Some in Hx. lia.
Qed.

Lemma count_activated_snoc (cfg : SDMConfig F) (x : list Z)
    (addrs : list (list Z)) (i : nat) (a : list Z) :
  addrs !! i = Some a ->
  count_activated cfg x (take (Datatypes.S i) addrs) =
  count_activated cfg x (take i addrs) + (if activated cfg x a then 1 else 0).
Proof.
  intros Ha. unfold count_activated.
  rewrite (take_S_r _ _ _ Ha), List.filter_app, length_app. simpl.
  destruct (activated cfg x a); simpl; lia.
Qed.

Lemma count_activated_bound (cfg : SDMConfig F) (x : list Z)
    (addrs : list (list Z)) :
  0 <= count_activated cfg x addrs <= Z.of_nat (length addrs).
Proof.
  unfold count_activated. pose proof (List.filter_length_le (activated cfg x) addrs).
  lia.
Qed.

(** The loop over the locations. *)
Lemma write_locations_loop (cfg : SDMConfig F) (addrs : list (list Z))
    (input : list Z) (strength : Z) (mem : list (list Z)) (counts : list Z)
    (N : nat) :
  length addrs = N -> length mem = N -> length counts = N ->
  Z.of_nat N <= UINT16_MAX ->
  Z.of_nat (length input) = vector_dim cfg ->
  vector_dim cfg <= UINT16_MAX ->
  Forall (fun row => length row = Z.to_nat (vector_dim cfg)) mem ->
  exists st,
    for_range (write_location cfg addrs input strength) 0 N
      (mkWriteState mem counts 0) = Some st /\
    ws_activated st = count_activated cfg input addrs /\
    length (ws_memory st) = N /\ length (ws_access_counts st) = N /\
    forall k a c row, addrs !! k = Some a -> counts !! k = Some c ->
      mem !! k = Some row ->
      written_at cfg input strength (ws_access_counts st) (ws_memory st)
        k a c row.
Proof.
  intros Ha Hm Hc HN Hin HD Hdim.
  destruct (for_range_inv
    (fun i st =>
       length (ws_memory st) = N /\ length (ws_access_counts st) = N /\
       ws_activated st = count_activated cfg input (take i addrs) /\
       (forall k, (i <= k)%nat ->
          ws_memory st !! k = mem !! k /\ ws_access_counts st !! k = counts !! k) /\
       (forall k a c row, (k < i)%nat -> addrs !! k = Some a ->
          counts !! k = Some c -> mem !! k = Some row ->
          written_at cfg input strength (ws_access_counts st) (ws_memory st)
            k a c row))
    (write_location cfg addrs input strength) 0 N (mkWriteState mem counts 0))
    as (st & Hloop & Hlm & Hlc & Hact & _ & Hpost).
  - simpl. repeat split; try assumption; try reflexivity. intros; lia.
  - intros i st Hi (Hlm & Hlc & Hact & Hrest & Hpost).
    destruct (lookup_lt_is_Some_2 addrs i) as [a Hai]; [lia|].
    destruct (lookup_lt_is_Some_2 counts i) as [c Hci]; [lia|].
    destruct (lookup_lt_is_Some_2 mem i) as [row Hri]; [lia|].
    destruct (Hrest i) as [Hmi Hcti]; [lia|].
    unfold write_location. rewrite Hai. simpl.
    rewrite hammingDistance_spec by lia.
    rewrite hamming_sym. fold (activated cfg input a).
    pose proof (count_activated_snoc cfg input addrs i a Hai) as Hsnoc.
    destruct (activated cfg input a) eqn:Eact.
    + rewrite Hcti, Hci. simpl.
      assert (Hrow : length row = Z.to_nat (vector_dim cfg)).
      { rewrite Forall_forall in Hdim. apply Hdim.
        eapply list_elem_of_lookup_2. eassumption. }
      destruct (write_bits_loop input strength i (ws_memory st) row
                  (Z.to_nat (vector_dim cfg))) as (mem' & row' & Hl & Hlen' & Ho & Hr' & Hrl' & Hupd);
        [congruence|lia|assumption|].
      rewrite Hl. simpl. eexists. split; [reflexivity|]. simpl.
      split; [congruence|]. split; [by rewrite length_insert|].
      split.
      { rewrite Hact, Hsnoc.
        pose proof (count_activated_bound cfg input (take i addrs)) as Hb.
        rewrite length_take in Hb.
        apply to_uint16_id. unfold is_uint16. lia. }
      split.
      { intros k Hk. rewrite Ho by lia. rewrite list_lookup_insert_ne by lia.
        apply Hrest. lia. }
      intros k a' c' row0 Hk Ha' Hc' Hr0.
      destruct (decide (k = i)) as [->|Hne].
      * assert (a' = a) by congruence. assert (c' = c) by congruence.
        assert (row0 = row) by congruence. subst.
        unfold written_at. rewrite Eact.
        split; [apply list_lookup_insert_eq; lia|].
        exists row'. split; [assumption|]. split; [congruence|]. assumption.
      * specialize (Hpost k a' c' row0 ltac:(lia) Ha' Hc' Hr0).
        unfold written_at in *.
        rewrite Ho by assumption. rewrite list_lookup_insert_ne by congruence.
        assumption.
    + exists st. split; [reflexivity|].
      split; [assumption|]. split; [assumption|].
      split; [rewrite Hsnoc; lia|].
      split; [intros k Hk; apply Hrest; lia|].
      intros k a' c' row0 Hk Ha' Hc' Hr0.
      destruct (decide (k = i)) as [->|Hne].
      * assert (a' = a) by congruence. subst.
        unfold written_at. rewrite Eact. rewrite Hmi, Hcti. split; congruence.
      * apply Hpost; try assumption. lia.
  - exists st. split; [assumption|].
    split.
    { rewrite Hact. simpl. rewrite firstn_all2 by lia. reflexivity. }
    split; [assumption|]. split; [assumption|].
    intros k a c row Hak Hck Hrk. apply Hpost; try assumption.
    apply lookup_lt_Some in Hak. lia.
Qed.
End WriteProofs.

(** C1 (as amended).  For a well-formed store, an input vector of length
    exactly [vector_dim] and a strength in [1, 255] (a [uint8_t]), [write]
    returns the number of locations whose address lies within Hamming
    distance [access_radius] of the input, records it as
    [last_activated_locations], and increments [total_writes] modulo 2^32.
    At each activated location the access count is incremented modulo 2^16
    and counter [j] becomes the old counter plus [strength] when input bit
    [j] is 1 and minus [strength] otherwise, clamped to
    [INT16_MIN, INT16_MAX]; at every other location the access count and
    the counters are unchanged.  Addresses, configuration and the other
    statistics are unchanged. *)
Theorem write_postcondition {F : Type} `{FloatOps F}
    (s : SparseDistributedMemory F) (input : list Z) (strength : Z) :
  store_wf s ->
  Z.of_nat (length input) = vector_dim (config s) ->
  1 <= strength <= 255 ->
  exists s' n,
    write s input strength = Some (s', n) /\
    n = count_activated (config s) input (addresses s) /\
    last_activated_locations (stats s') = n /\
    total_writes (stats s') = to_uint32 (total_writes (stats s) + 1) /\
    total_reads (stats s') = total_reads (stats s) /\
    last_confidence (stats s') = last_confidence (stats s) /\
    avg_match_ratio (stats s') = avg_match_ratio (stats s) /\
    addresses s' = addresses s /\ config s' = config s /\
    forall i a c row,
      addresses s !! i = Some a -> access_counts s !! i = Some c ->
      memory s !! i = Some row ->
      if activated (config s) input a then
        access_counts s' !! i = Some (to_uint16 (c + 1)) /\
        exists row', memory s' !! i = Some row' /\ length row' = length row /\
          forall j x m, input !! j = Some x -> row !! j = Some m ->
            row' !! j = Some (counter_after x m strength)
      else access_counts s' !! i = Some c /\ memory s' !! i = Some row.
Proof.
  intros Hwf Hlen Hs. pose proof (wf_memory_int16 s Hwf) as Hint.
  destruct Hwf. unfold is_uint16 in *.
  destruct (write_locations_loop (config s) (addresses s) input strength
              (memory s) (access_counts s) (Z.to_nat (num_locations (config s))))
    as (st & Hloop & Hact & Hlm & Hlc & Hpost); try assumption; try lia.
  unfold write. rewrite Hlen, Z.eqb_refl. simpl. rewrite Hloop. simpl.
  eexists _, _. split; [reflexivity|]. simpl.
  repeat (split; [first [assumption | reflexivity]|]).
  intros i a c row Ha Hc Hr.
  specialize (Hpost i a c row Ha Hc Hr). unfold written_at in Hpost.
  destruct (activated (config s) input a); [|assumption].
  destruct Hpost as (Hc' & row' & Hr' & Hl' & Hupd).
  split; [assumption|]. exists row'. split; [assumption|]. split; [assumption|].
  intros j x m Hx Hm. rewrite (Hupd j x m Hx Hm). f_equal.
  apply write_counter_spec; [|lia].
  rewrite Forall_forall in Hint.
  eapply Forall_forall; [apply Hint|]; eapply list_elem_of_lookup_2; eassumption.
Qed.

(** [write] keeps the store well formed: shapes stay, counters stay inside
    [int16_t] and access counts inside [uint16_t]. *)
Lemma write_preserves_wf {F : Type} `{FloatOps F}
    (s s' : SparseDistributedMemory F) (input : list Z) (strength n : Z) :
  store_wf s ->
  0 <= strength <= 255 ->
  write s input strength = Some (s', n) ->
  store_wf s'.
Proof.
  intros Hwf Hs. unfold write.
  destruct (Z.eqb_spec (Z.of_nat (length input)) (vector_dim (config s)))
    as [Hlen|Hne]; cbn [negb]; [|intros [= <- _]; exact Hwf].
  pose proof (wf_vector_dim s Hwf) as HD. pose proof (wf_num_locations s Hwf) as HN.
  unfold is_uint16 in HD, HN.
  destruct (write_locations_loop (config s) (addresses s) input strength
              (memory s) (access_counts s) (Z.to_nat (num_locations (config s))))
    as (st & Hloop & Hact & Hlm & Hlc & Hpost);
    [apply (wf_addresses s Hwf)|apply (wf_memory s Hwf)
    |apply (wf_access_counts s Hwf)|lia|exact Hlen|lia
    |apply (wf_memory_dim s Hwf)|].
  rewrite Hloop. cbn [mbind option_bind]. intros [= <- _].
  assert (Hsrc : forall i, (i < Z.to_nat (num_locations (config s)))%nat ->
            exists a c row, addresses s !! i = Some a /\
              access_counts s !! i = Some c /\ memory s !! i = Some row /\
              is_uint16 c /\ length row = Z.to_nat (vector_dim (config s)) /\
              Forall is_int16 row).
  { intros i Hi.
    destruct (lookup_lt_is_Some_2 (addresses s) i) as [a Ha];
      [rewrite (wf_addresses s Hwf); exact Hi|].
    destruct (lookup_lt_is_Some_2 (access_counts s) i) as [c Hc];
      [rewrite (wf_access_counts s Hwf); exact Hi|].
    destruct (lookup_lt_is_Some_2 (memory s) i) as [row Hr];
      [rewrite (wf_memory s Hwf); exact Hi|].
    exists a, c, row. repeat (split; [assumption|]).
    split; [exact (proj1 (Forall_lookup _ _) (wf_access_counts_uint16 s Hwf) i c Hc)|].
    split; [exact (proj1 (Forall_lookup _ _) (wf_memory_dim s Hwf) i row Hr)|].
    exact (proj1 (Forall_lookup _ _) (wf_memory_int16 s Hwf) i row Hr). }
  constructor; cbn [config addresses memory access_counts];
    try solve [apply Hwf | assumption].
  - apply Forall_lookup. intros i row' Hr'.
    pose proof (lookup_lt_Some _ _ _ Hr') as Hi. rewrite Hlm in Hi.
    destruct (Hsrc i Hi) as (a & c & row & Ha & Hc & Hr & _ & Hrl & _).
    specialize (Hpost i a c row Ha Hc Hr). unfold written_at in Hpost.
    destruct (activated (config s) input a).
    + destruct Hpost as (_ & row2 & Hr2 & Hl2 & _). congruence.
    + destruct Hpost as (_ & Hr2). congruence.
  - apply Forall_lookup. intros i row' Hr'.
    pose proof (lookup_lt_Some _ _ _ Hr') as Hi. rewrite Hlm in Hi.
    destruct (Hsrc i Hi) as (a & c & row & Ha & Hc & Hr & _ & Hrl & Hint).
    specialize (Hpost i a c row Ha Hc Hr). unfold written_at in Hpost.
    destruct (activated (config s) input a).
    + destruct Hpost as (_ & row2 & Hr2 & Hl2 & Hupd).
      assert (row2 = row') by congruence. subst row2.
      apply Forall_lookup. intros j v Hv.
      pose proof (lookup_lt_Some _ _ _ Hv) as Hj.
      destruct (lookup_lt_is_Some_2 input j) as [x Hx]; [lia|].
      destruct (lookup_lt_is_Some_2 row j) as [m Hm]; [lia|].
      rewrite (Hupd j x m Hx Hm) in Hv. inversion Hv; subst v.
      rewrite write_counter_spec;
        [|exact (proj1 (Forall_lookup _ _) Hint j m Hm)|exact Hs].
      unfold counter_after. destruct (x =? 1); apply clamp_int16_range.
    + destruct Hpost as (_ & Hr2). assert (row' = row) by congruence.
      subst row'. exact Hint.
  - apply Forall_lookup. intros i c' Hc'.
    pose proof (lookup_lt_Some _ _ _ Hc') as Hi. rewrite Hlc in Hi.
    destruct (Hsrc i Hi) as (a & c & row & Ha & Hc & Hr & Hcu & _).
    specialize (Hpost i a c row Ha Hc Hr). unfold written_at in Hpost.
    destruct (activated (config s) input a).
    + destruct Hpost as (Hc2 & _). assert (c' = to_uint16 (c + 1)) by congruence.
      subst c'. unfold is_uint16, to_uint16, UINT16_MAX.
      pose proof (Z.mod_pos_bound (c + 1) 65536 ltac:(lia)). lia.
    + destruct Hpost as (Hc2 & _). assert (c' = c) by congruence.
      subst c'. exact Hcu.
Qed.

Ltac solve_store_wf :=
  constructor; simpl;
  repeat first [ reflexivity
               | progress (unfold is_uint16, is_int16, UINT16_MAX, INT16_MIN, INT16_MAX)
               | apply Forall_nil_2
               | apply Forall_cons_2
               | lia ].

Lemma demo_store_wf : store_wf demo_store.
Proof. solve_store_wf. Defined.

Lemma write_postcondition_witness :
  store_wf demo_store /\
  Z.of_nat (length [1; 1; 0]) = vector_dim (config demo_store) /\
  1 <= 2 <= 255 /\
  exists s' n, write demo_store [1; 1; 0] 2 = Some (s', n) /\
    n = count_activated (config demo_store) [1; 1; 0] (addresses demo_store) /\
    last_activated_locations (stats s') = n.
Proof.
  split; [exact demo_store_wf|]. split; [reflexivity|]. split; [lia|].
  destruct (write_postcondition demo_store [1; 1; 0] 2 demo_store_wf eq_refl
              ltac:(lia)) as (s' & n & Hw & Hn & Hl & _).
  exists s', n. auto.
Defined.

(** C1 (as stated) fails where an access count is 65535: the [uint16_t]
    increment of [write] leaves 0 there, not 65536. *)
Lemma write_access_count_wraps :
  store_wf saturated_count_store /\
  Z.of_nat (length [1]) = vector_dim (config saturated_count_store) /\
  activated (config saturated_count_store) [1] [0] = true /\
  addresses saturated_count_store !! 0%nat = Some [0] /\
  access_counts saturated_count_store !! 0%nat = Some 65535 /\
  exists s', write saturated_count_store [1] 1 = Some (s', 1) /\
    access_counts s' !! 0%nat = Some 0 /\
    access_counts s' !! 0%nat <> Some (65535 + 1).
Proof.
  split; [solve_store_wf|]. repeat (split; [reflexivity|]).
  eexists. split; [vm_compute; reflexivity|]. simpl. split; [reflexivity|discriminate].
Qed.

(** ** [read] *)

Section ReadProofs.
Context {F : Type} `{FloatOps F}.

Lemma activations_from_app (cfg : SDMConfig F) (q : list Z) (start : nat)
    (l1 l2 : list (list Z)) :
  activations_from cfg q start (l1 ++ l2) =
  activations_from cfg q start l1 ++
  activations_from cfg q (start + length l1) l2.
Proof.
  revert start. induction l1 as [|a l1 IH]; intros start; simpl.
  - by rewrite Nat.add_0_r.
  - rewrite IH, <- app_assoc. do 3 f_equal. lia.
Qed.

(** [activations] lists exactly the locations within the radius. *)
Lemma activations_from_spec (cfg : SDMConfig F) (q : list Z) (start : nat)
    (addrs : list (list Z)) (i : nat) (d : Z) :
  (i, d) ∈ activations_from cfg q start addrs <->
  exists k a, i = (start + k)%nat /\ addrs !! k = Some a /\
              d = hamming a q /\ activated cfg q a = true.
Proof.
  revert start. induction addrs as [|a addrs IH]; intros start; simpl.
  - split; [intros Hin; inversion Hin|intros (k & a & _ & Hk & _); discriminate].
  - rewrite elem_of_app, IH. unfold activated at 2. split.
    + intros [Hin|(k & a' & -> & Hk & Hd & Hact)].
      * destruct (hamming a q <=? access_radius cfg) eqn:E;
          [|inversion Hin].
        apply list_elem_of_singleton in Hin. inversion Hin; subst.
        exists 0%nat, a. rewrite Nat.add_0_r. auto.
      * exists (Datatypes.S k), a'. repeat split; try assumption. lia.
    + intros (k & a' & -> & Hk & Hd & Hact). destruct k as [|k]; simpl in Hk.
      * left. inversion Hk; subst. unfold activated in Hact. rewrite Hact.
        rewrite Nat.add_0_r. apply list_elem_of_singleton. reflexivity.
      * right. exists k, a'. repeat split; try assumption. lia.
Qed.

Lemma activations_spec (cfg : SDMConfig F) (q : list Z)
    (addrs : list (list Z)) (i : nat) (d : Z) :
  (i, d) ∈ activations cfg q addrs <->
  exists a, addrs !! i = Some a /\ d = hamming a q /\ activated cfg q a = true.
Proof.
  unfold activations. rewrite activations_from_spec. split.
  - intros (k & a & -> & ?). exists a. assumption.
  - intros (a & ?). exists i, a. auto.
Qed.

Lemma activations_length (cfg : SDMConfig F) (q : list Z) (start : nat)
    (addrs : list (list Z)) :
  Z.of_nat (length (activations_from cfg q start addrs)) =
  count_activated cfg q addrs.
Proof.
  unfold count_activated. revert start.
  induction addrs as [|a addrs IH]; intros start; simpl; [reflexivity|].
  rewrite length_app, Nat2Z.inj_add, IH. unfold activated at 2.
  destruct (hamming a q <=? access_radius cfg); simpl; lia.
Qed.

(** The collecting loop. *)
Lemma read_collect_loop (cfg : SDMConfig F) (addrs : list (list Z))
    (q : list Z) :
  Z.of_nat (length q) <= UINT16_MAX ->
  for_range (read_collect cfg addrs q) 0 (length addrs) ([], []) =
  Some (map (fun p => Z.of_nat p.1) (activations cfg q addrs),
        map (fun p => p.2) (activations cfg q addrs)).
Proof.
  intros Hq.
  destruct (for_range_inv
    (fun i st => st =
       (map (fun p => Z.of_nat p.1) (activations cfg q (take i addrs)),
        map (fun p : nat * Z => p.2) (activations cfg q (take i addrs))))
    (read_collect cfg addrs q) 0 (length addrs) ([], []))
    as (st & Hloop & Hst).
  - reflexivity.
  - intros i st Hi ->.
    destruct (lookup_lt_is_Some_2 addrs i) as [a Ha]; [lia|].
    unfold read_collect. rewrite Ha. simpl.
    rewrite hammingDistance_spec by lia. rewrite hamming_sym.
    rewrite (take_S_r _ _ _ Ha). unfold activations.
    rewrite activations_from_app. simpl.
    rewrite length_take, Nat.min_l by lia.
    destruct (hamming a q <=? access_radius cfg).
    + eexists. split; [reflexivity|]. rewrite !map_app. reflexivity.
    + eexists. split; [reflexivity|]. simpl. rewrite !app_nil_r. reflexivity.
  - rewrite Hloop, Hst. simpl. rewrite firstn_all. reflexivity.
Qed.

Lemma f_sum_snoc (l : list F) (x : F) : f_sum (l ++ [x]) = f_add (f_sum l) x.
Proof. unfold f_sum. by rewrite foldl_app. Qed.

(** The loop over [j] that adds one location's weighted counters. *)
Lemma read_accumulate_loop (mem : list (list Z)) (w : F) (loc : nat)
    (row : list Z) (total : list F) (D : nat) :
  mem !! loc = Some row -> length row = D -> length total = D ->
  exists total',
    for_range (read_accumulate mem w loc) 0 D total = Some total' /\
    length total' = D /\
    forall j t, total !! j = Some t ->
      total' !! j = Some (f_add t (f_mul w (f_of_int (counter mem loc j)))).
Proof.
  intros Hrow Hlen Htot.
  destruct (for_range_inv
    (fun j t' => length t' = D /\
       (forall k t, (k < j)%nat -> total !! k = Some t ->
          t' !! k = Some (f_add t (f_mul w (f_of_int (counter mem loc k))))) /\
       (forall k, (j <= k)%nat -> t' !! k = total !! k))
    (read_accumulate mem w loc) 0 D total) as (t' & Hloop & Hl & Hdone & _).
  - split; [assumption|]. split; [intros; lia|reflexivity].
  - intros j t' Hj (Hl & Hdone & Hrest).
    destruct (lookup_lt_is_Some_2 row j) as [m Hm]; [lia|].
    destruct (lookup_lt_is_Some_2 t' j) as [t Ht]; [lia|].
    unfold read_accumulate. rewrite Hrow. simpl. rewrite Hm. simpl.
    rewrite Ht. simpl. eexists. split; [reflexivity|].
    split; [by rewrite length_insert|]. split.
    + intros k t0 Hk Ht0. destruct (decide (k = j)) as [->|Hne].
      * rewrite list_lookup_insert_eq by lia.
        rewrite Hrest in Ht by lia.
        unfold counter. rewrite Hrow. simpl. rewrite Hm. simpl. congruence.
      * rewrite list_lookup_insert_ne by congruence.
        apply Hdone; [lia|assumption].
    + intros k Hk. rewrite list_lookup_insert_ne by lia. apply Hrest. lia.
  - exists t'. split; [assumption|]. split; [assumption|].
    intros j t Ht. apply Hdone; [|assumption].
    apply lookup_lt_Some in Ht. lia.
Qed.

(** The loop over the activated locations: [total_weight] is the sum
    of the weights and [total[j]] the weighted sum of column [j]. *)
Lemma read_weigh_loop (cfg : SDMConfig F) (mem : list (list Z))
    (acts : list (nat * Z)) :
  0 <= vector_dim cfg ->
  Forall (fun p => exists row, mem !! p.1 = Some row /\
                     length row = Z.to_nat (vector_dim cfg)) acts ->
  exists total,
    for_range (read_weigh cfg mem (map (fun p => Z.of_nat p.1) acts)
                                  (map (fun p => p.2) acts))
      0 (length acts)
      (replicate (Z.to_nat (vector_dim cfg)) (f_of_int 0), f_of_int 0) =
    Some (total, total_weight acts) /\
    length total = Z.to_nat (vector_dim cfg) /\
    forall j, (j < Z.to_nat (vector_dim cfg))%nat ->
      total !! j =
      Some (f_sum (map (fun p => f_mul (weight p.2)
                                       (f_of_int (counter mem p.1 j))) acts)).
Proof.
  intros HD Hacts. set (D := Z.to_nat (vector_dim cfg)).
  destruct (for_range_inv
    (fun i (st : list F * F) =>
       st.2 = total_weight (take i acts) /\ length st.1 = D /\
       forall j, (j < D)%nat ->
         st.1 !! j =
         Some (f_sum (map (fun p => f_mul (weight p.2)
                                          (f_of_int (counter mem p.1 j)))
                          (take i acts))))
    (read_weigh cfg mem (map (fun p => Z.of_nat p.1) acts)
                        (map (fun p => p.2) acts))
    0 (length acts) (replicate D (f_of_int 0), f_of_int 0))
    as ([total tw] & Hloop & Htw & Hl & Htot).
  - simpl. split; [reflexivity|]. split; [apply length_replicate|].
    intros j Hj. apply lookup_replicate_2. assumption.
  - intros i [total tw] Hi (Htw & Hl & Htot). simpl in *.
    destruct (lookup_lt_is_Some_2 acts i) as [[loc d] Hp]; [lia|].
    rewrite Forall_forall in Hacts.
    destruct (Hacts (loc, d)) as (row & Hrow & Hrl);
      [eapply list_elem_of_lookup_2; eassumption|]. simpl in *.
    unfold read_weigh. rewrite !list_lookup_fmap, Hp. simpl.
    rewrite Nat2Z.id.
    destruct (read_accumulate_loop mem (weight d) loc row total D)
      as (total' & Hacc & Hl' & Hupd); try assumption.
    fold D. unfold weight in Hacc. rewrite Hacc. simpl.
    eexists. split; [reflexivity|]. simpl.
    rewrite (take_S_r _ _ _ Hp). split.
    + unfold total_weight. rewrite map_app. cbn [map]. rewrite f_sum_snoc.
      rewrite Htw. reflexivity.
    + split; [assumption|]. intros j Hj.
      rewrite map_app. cbn [map]. rewrite f_sum_snoc.
      apply Hupd. apply Htot. assumption.
  - exists total. simpl in *. rewrite firstn_all in *.
    rewrite Hloop, Htw. auto.
Qed.

(** The normalise-and-threshold loop. *)
Lemma read_threshold_loop (total : list F) (tw : F) (D : nat) :
  length total = D ->
  for_range (read_threshold total tw) 0 D (replicate D 0, f_of_int 0) =
  Some (map (fun t => if f_ltb (f_of_int 0) (f_div t tw) then 1 else 0) total,
        f_maximum (map (fun t => f_abs (f_div t tw)) total)).
Proof.
  intros Hlen.
  destruct (for_range_inv
    (fun i (st : list Z * F) =>
       length st.1 = D /\
       (forall k t, (k < i)%nat -> total !! k = Some t ->
          st.1 !! k = Some (if f_ltb (f_of_int 0) (f_div t tw) then 1 else 0)) /\
       st.2 = f_maximum (map (fun t => f_abs (f_div t tw)) (take i total)))
    (read_threshold total tw) 0 D (replicate D 0, f_of_int 0))
    as ([out mc] & Hloop & Hl & Hout & Hmc).
  - simpl. split; [apply length_replicate|]. split; [intros; lia|reflexivity].
  - intros i [out mc] Hi (Hl & Hout & Hmc). simpl in *.
    destruct (lookup_lt_is_Some_2 total i) as [t Ht]; [lia|].
    destruct (lookup_lt_is_Some_2 out i) as [o Ho]; [lia|].
    unfold read_threshold. simpl. rewrite Ht. simpl. rewrite Ho. simpl.
    eexists. split; [reflexivity|]. simpl.
    split; [by rewrite length_insert|]. split.
    + intros k t0 Hk Ht0. destruct (decide (k = i)) as [->|Hne].
      * rewrite list_lookup_insert_eq by lia.
        assert (t0 = t) by congruence. subst. reflexivity.
      * rewrite list_lookup_insert_ne by congruence. apply Hout; [lia|assumption].
    + rewrite (take_S_r _ _ _ Ht), map_app. unfold f_maximum.
      rewrite foldl_app. simpl. unfold f_maximum in Hmc. rewrite Hmc. reflexivity.
  - simpl in *. rewrite Hloop. f_equal. f_equal.
    + apply list_eq. intros k. rewrite list_lookup_fmap.
      destruct (total !! k) as [t|] eqn:Ht; simpl.
      * apply Hout; [|assumption]. apply lookup_lt_Some in Ht. lia.
      * apply lookup_ge_None. apply lookup_ge_None in Ht. lia.
    + rewrite Hmc, <- Hlen, firstn_all. reflexivity.
Qed.
End ReadProofs.

Section ReadTheorems.
Context {F : Type} `{FloatOps F}.

Lemma activations_nil_iff (cfg : SDMConfig F) (q : list Z)
    (addrs : list (list Z)) :
  activations cfg q addrs = [] <->
  forall a, a ∈ addrs -> activated cfg q a = false.
Proof.
  split.
  - intros Hnil a Ha. apply list_elem_of_lookup_1 in Ha as [i Hi].
    destruct (activated cfg q a) eqn:E; [|reflexivity].
    assert (Hin : (i, hamming a q) ∈ activations cfg q addrs).
    { apply activations_spec. exists a. auto. }
    rewrite Hnil in Hin. inversion Hin.
  - intros Hall. destruct (activations cfg q addrs) as [|[i d] l] eqn:E;
      [reflexivity|].
    assert (Hin : (i, d) ∈ activations cfg q addrs)
      by (rewrite E; apply list_elem_of_here).
    apply activations_spec in Hin as (a & Ha & _ & Hact).
    rewrite Hall in Hact; [discriminate|].
    eapply list_elem_of_lookup_2. eassumption.
Qed.

Lemma store_wf_activations (s : SparseDistributedMemory F) (q : list Z) :
  store_wf s ->
  Forall (fun p => exists row, memory s !! p.1 = Some row /\
                     length row = Z.to_nat (vector_dim (config s)))
         (activations (config s) q (addresses s)).
Proof.
  intros Hwf. apply Forall_forall. intros [i d] Hin. simpl.
  apply activations_spec in Hin as (a & Ha & _).
  apply lookup_lt_Some in Ha.
  rewrite (wf_addresses s Hwf), <- (wf_memory s Hwf) in Ha.
  destruct (lookup_lt_is_Some_2 (memory s) i Ha) as [row Hrow].
  exists row. split; [assumption|].
  pose proof (wf_memory_dim s Hwf) as Hdim. rewrite Forall_forall in Hdim.
  apply Hdim. eapply list_elem_of_lookup_2. eassumption.
Qed.

(** The run of [read] on a query of the right length, in terms of the
    activated locations. *)
Lemma read_run (s : SparseDistributedMemory F) (q : list Z) :
  store_wf s ->
  Z.of_nat (length q) = vector_dim (config s) ->
  let D := Z.to_nat (vector_dim (config s)) in
  let acts := activations (config s) q (addresses s) in
  read s q =
  if decide (acts = []) then Some (s, (replicate D 0, f_of_int 0))
  else
    Some (mkSDM (mkStats (total_writes (stats s))
                         (to_uint32 (total_reads (stats s) + 1))
                         (read_confidence (memory s) acts D)
                         (last_activated_locations (stats s))
                         (avg_match_ratio (stats s)))
                (addresses s) (memory s) (access_counts s) (config s),
          (read_bits (memory s) acts D, read_confidence (memory s) acts D)).
Proof.
  intros Hwf Hlen D acts.
  pose proof (wf_vector_dim s Hwf) as HD. unfold is_uint16 in HD.
  unfold read. rewrite Hlen, Z.eqb_refl. simpl.
  rewrite <- (wf_addresses s Hwf).
  rewrite read_collect_loop by lia. simpl. fold acts.
  destruct (decide (acts = [])) as [Hnil|Hne].
  - rewrite Hnil. simpl. reflexivity.
  - destruct (decide (map (fun p : nat * Z => Z.of_nat p.1) acts = []))
      as [Hmap|_].
    { destruct acts; [congruence|discriminate]. }
    rewrite length_map.
    destruct (read_weigh_loop (config s) (memory s) acts) as (total & Hw & Hl & Htot);
      [lia|apply store_wf_activations; assumption|].
    rewrite Hw. simpl. rewrite read_threshold_loop by assumption. simpl.
    assert (Htotal : total =
      map (fun j => f_sum (map (fun p => f_mul (weight p.2)
                                 (f_of_int (counter (memory s) p.1 j))) acts))
          (seq 0 D)).
    { apply list_eq. intros j. destruct (decide (j < D)%nat) as [Hj|Hj].
      - rewrite Htot by assumption.
        rewrite list_lookup_fmap, lookup_seq_lt by assumption. reflexivity.
      - rewrite !(proj2 (lookup_ge_None _ _)); [reflexivity| |].
        + rewrite length_map, length_seq. lia.
        + fold D in Hl. lia. }
    unfold read_bits, read_confidence, weighted_mean.
    rewrite Htotal, !map_map. reflexivity.
Qed.
End ReadTheorems.

(** C2.  For a well-formed store and a query of length exactly
    [vector_dim]: if no address lies within Hamming distance
    [access_radius] of the query, [read] returns the all-zero vector of
    length [D] with confidence 0; otherwise, with the activated locations
    [i] at distances [d_i], weights [w_i = 1/(1+d_i)], [W] their sum and
    [mu[j] = (sum_i w_i * memory[i][j]) / W], the returned vector has
    length [D] and bit [j] equal to 1 if [mu[j] > 0] and 0 otherwise, and
    the returned confidence is the maximum over [j] of [|mu[j]|].  The
    sums are taken in location order in the arithmetic of [float]. *)
Theorem read_postcondition {F : Type} `{FloatOps F}
    (s : SparseDistributedMemory F) (q : list Z) :
  store_wf s ->
  Z.of_nat (length q) = vector_dim (config s) ->
  let D := Z.to_nat (vector_dim (config s)) in
  let acts := activations (config s) q (addresses s) in
  ((forall a, a ∈ addresses s -> activated (config s) q a = false) ->
   exists s', read s q = Some (s', (replicate D 0, f_of_int 0))) /\
  ((exists a, a ∈ addresses s /\ activated (config s) q a = true) ->
   exists s' out conf,
     read s q = Some (s', (out, conf)) /\
     length out = D /\
     (forall j, (j < D)%nat ->
        out !! j = Some (if f_ltb (f_of_int 0) (weighted_mean (memory s) acts j)
                         then 1 else 0)) /\
     conf = f_maximum (map (fun j => f_abs (weighted_mean (memory s) acts j))
                           (seq 0 D))).
Proof.
  intros Hwf Hlen D acts. pose proof (read_run s q Hwf Hlen) as Hrun.
  simpl in Hrun. fold D acts in Hrun. split.
  - intros Hnone. apply activations_nil_iff in Hnone. fold acts in Hnone.
    rewrite Hrun. destruct (decide (acts = [])); [|contradiction].
    eexists. reflexivity.
  - intros (a & Ha & Hact).
    rewrite Hrun. destruct (decide (acts = [])) as [Hnil|_].
    + pose proof (proj1 (activations_nil_iff _ _ _) Hnil a Ha) as Hoff.
      rewrite Hoff in Hact. discriminate.
    + eexists _, _, _. split; [reflexivity|].
      split; [unfold read_bits; by rewrite length_map, length_seq|].
      split; [|reflexivity].
      intros j Hj. unfold read_bits.
      rewrite list_lookup_fmap, lookup_seq_lt by assumption. reflexivity.
Qed.

Lemma read_postcondition_witness :
  store_wf demo_store /\
  Z.of_nat (length [1; 1; 0]) = vector_dim (config demo_store) /\
  (exists a, a ∈ addresses demo_store /\
             activated (config demo_store) [1; 1; 0] a = true) /\
  exists s' out conf, read demo_store [1; 1; 0] = Some (s', (out, conf)) /\
    length out = 3%nat.
Proof.
  split; [exact demo_store_wf|]. split; [reflexivity|].
  assert (Hex : exists a, a ∈ addresses demo_store /\
                  activated (config demo_store) [1; 1; 0] a = true).
  { exists [1; 0; 0]. split; [apply list_elem_of_here|reflexivity]. }
  split; [exact Hex|].
  destruct (read_postcondition demo_store [1; 1; 0] demo_store_wf eq_refl)
    as [_ Hsome].
  destruct (Hsome Hex) as (s' & out & conf & Hr & Hl & _).
  exists s', out, conf. auto.
Defined.

(** In exact arithmetic [f_maximum] is the maximum: of a list of
    non-negative values it is an upper bound, and it is zero or one of
    them. *)
Lemma exact_maximum_spec (l : list Q) :
  (forall x, x ∈ l -> (x <= f_maximum l)%Q) /\
  (f_maximum l = 0%Q \/ f_maximum l ∈ l).
Proof.
  unfold f_maximum. change (f_of_int 0) with 0%Q.
  assert (Hgen : forall (l : list Q) (a : Q),
            (a <= foldl f_max a l)%Q /\
            (forall x, x ∈ l -> (x <= foldl f_max a l)%Q) /\
            (foldl f_max a l = a \/ foldl f_max a l ∈ l)).
  { clear l. induction l as [|y l IH]; intros a; simpl.
    - split; [apply Qle_refl|]. split; [intros x Hx; inversion Hx|left; reflexivity].
    - destruct (IH (f_max a y)) as (Hle & Hall & Hin).
      assert (Hmax : (a <= f_max a y)%Q /\ (y <= f_max a y)%Q).
      { unfold f_max. simpl. unfold ExactQ.ltb.
        destruct (Qle_bool y a) eqn:E; simpl.
        - apply Qle_bool_iff in E. split; [apply Qle_refl|exact E].
        - split; [|apply Qle_refl].
          destruct (Qlt_le_dec a y) as [Hlt|Hge]; [apply Qlt_le_weak; exact Hlt|].
          apply Qle_bool_iff in Hge. congruence. }
      split; [eapply Qle_trans; [apply Hmax|exact Hle]|]. split.
      + intros x Hx. apply elem_of_cons in Hx as [->|Hx].
        * eapply Qle_trans; [apply Hmax|exact Hle].
        * apply Hall. exact Hx.
      + destruct Hin as [Heq|Hin]; [|right; apply elem_of_cons; right; exact Hin].
        rewrite Heq. unfold f_max. destruct (f_ltb a y).
        * right. apply list_elem_of_here.
        * left. reflexivity. }
  destruct (Hgen l 0%Q) as (_ & Hall & Hin). split; assumption.
Qed.

(** C4, the part that holds: a read that activates at least one location
    increments [total_reads] (modulo 2^32) and stores the confidence it
    returns in [last_confidence]. *)
Lemma read_updates_stats_when_activated {F : Type} `{FloatOps F}
    (s : SparseDistributedMemory F) (q : list Z) :
  store_wf s ->
  Z.of_nat (length q) = vector_dim (config s) ->
  (exists a, a ∈ addresses s /\ activated (config s) q a = true) ->
  exists s' out conf,
    read s q = Some (s', (out, conf)) /\
    total_reads (stats s') = to_uint32 (total_reads (stats s) + 1) /\
    last_confidence (stats s') = conf.
Proof.
  intros Hwf Hlen (a & Ha & Hact). rewrite (read_run s q Hwf Hlen).
  destruct (decide _) as [Hnil|_].
  - pose proof (proj1 (activations_nil_iff _ _ _) Hnil a Ha) as Hoff.
    rewrite Hoff in Hact. discriminate.
  - eexists _, _, _. split; [reflexivity|]. split; reflexivity.
Qed.

(** C4, where the code departs from it: an accepted read that activates
    no location returns before the statistics are touched.  On
    [quiet_store] the query [[0;1;1]] returns confidence 0, yet
    [total_reads] stays 4 and [last_confidence] stays 2.5. *)
Theorem read_without_activation_skips_stats :
  store_wf quiet_store /\
  Z.of_nat (length [0; 1; 1]) = vector_dim (config quiet_store) /\
  read quiet_store [0; 1; 1] = Some (quiet_store, ([0; 0; 0], f_of_int 0)) /\
  total_reads (stats quiet_store) = 4 /\
  last_confidence (stats quiet_store) = f_lit 5 2 /\
  f_lit 5 2 <> (f_of_int 0 : spec_float).
Proof.
  split; [solve_store_wf|]. split; [reflexivity|].
  split; [vm_compute; reflexivity|]. split; [reflexivity|].
  split; [reflexivity|]. vm_compute. discriminate.
Qed.

(** C5.  An input whose length differs from [vector_dim] is rejected:
    [write] returns 0 and [read] returns the all-zero vector of length
    [D] with confidence 0, and in both cases the store (counter matrix,
    access counts, addresses, statistics, configuration) is the one it was. *)
Theorem shape_mismatch_rejected {F : Type} `{FloatOps F}
    (s : SparseDistributedMemory F) (v : list Z) (strength : Z) :
  Z.of_nat (length v) <> vector_dim (config s) ->
  write s v strength = Some (s, 0) /\
  read s v =
    Some (s, (replicate (Z.to_nat (vector_dim (config s))) 0, f_of_int 0)).
Proof.
  intros Hne. apply Z.eqb_neq in Hne. unfold write, read.
  rewrite Hne. simpl. split; reflexivity.
Qed.

Lemma shape_mismatch_rejected_witness :
  Z.of_nat (length [1; 0]) <> vector_dim (config demo_store) /\
  write demo_store [1; 0] 5 = Some (demo_store, 0) /\
  read demo_store [1; 0] = Some (demo_store, ([0; 0; 0], f_of_int 0)).
Proof.
  assert (Hne : Z.of_nat (length [1; 0]) <> vector_dim (config demo_store))
    by (simpl; lia).
  split; [exact Hne|]. exact (shape_mismatch_rejected demo_store [1; 0] 5 Hne).
Defined.

(** ** [loadMemoryFromSD] *)

Lemma file_read_uint16_at (data : list Z) (n : nat) (old : Z) :
  file_read_uint16 (mkFile data (n `min` length data)) old =
  (mkFile data ((n + 2) `min` length data), stored_uint16 data n old).
Proof.
  unfold file_read_uint16, file_read, stored_uint16. simpl.
  assert (Hdrop : drop (n `min` length data) data = drop n data).
  { destruct (Nat.le_gt_cases n (length data)) as [Hle|Hgt].
    - by rewrite Nat.min_l.
    - rewrite Nat.min_r by lia. rewrite !drop_ge by lia. reflexivity. }
  rewrite Hdrop. f_equal. f_equal.
  rewrite length_take, length_drop. lia.
Qed.

Lemma file_read_int16_at (data : list Z) (n : nat) (old : Z) :
  file_read_int16 (mkFile data (n `min` length data)) old =
  (mkFile data ((n + 2) `min` length data), stored_int16 data n old).
Proof.
  unfold file_read_int16. rewrite file_read_uint16_at. reflexivity.
Qed.

(** Past the end of the file nothing is delivered and the object keeps
    its value. *)
Lemma stored_uint16_past_end (data : list Z) (p : nat) (old : Z) :
  (length data <= p)%nat -> is_uint16 old -> stored_uint16 data p old = old.
Proof.
  intros Hp Hold. unfold stored_uint16. rewrite drop_ge by assumption.
  unfold overwrite, bytes_of_uint16, is_uint16, UINT16_MAX in *. simpl.
  rewrite (Z.mod_small (old / 256)).
  - pose proof (Z.div_mod old 256 ltac:(lia)). lia.
  - split; [apply Z.div_pos; lia|apply Z.div_lt_upper_bound; lia].
Qed.

Lemma stored_int16_past_end (data : list Z) (p : nat) (old : Z) :
  (length data <= p)%nat -> is_int16 old -> stored_int16 data p old = old.
Proof.
  intros Hp Hold. unfold stored_int16.
  rewrite stored_uint16_past_end; [|assumption|].
  - unfold to_int16, to_uint16, is_int16, INT16_MIN, INT16_MAX in *.
    Z.div_mod_to_equations. lia.
  - unfold is_uint16, to_uint16, UINT16_MAX.
    pose proof (Z.mod_pos_bound old 65536 ltac:(lia)). lia.
Qed.

(** Inside the file the object receives the two bytes, low byte first. *)
Lemma stored_uint16_in_file (data : list Z) (p : nat) (old lo hi : Z) :
  data !! p = Some lo -> data !! Datatypes.S p = Some hi ->
  stored_uint16 data p old = lo + 256 * hi.
Proof.
  intros Hlo Hhi. unfold stored_uint16.
  rewrite (drop_S _ _ _ Hlo). simpl. rewrite (drop_S _ _ _ Hhi). reflexivity.
Qed.

Lemma load_access_count_step (data : list Z) (n i : nat) (cs : list Z) (c : Z) :
  cs !! i = Some c ->
  load_access_count i (mkFile data (n `min` length data), cs) =
  Some (mkFile data ((n + 2) `min` length data),
        <[i := stored_uint16 data n c]> cs).
Proof.
  intros Hc. unfold load_access_count. cbn [fst snd]. rewrite Hc.
  cbn [mbind option_bind]. rewrite file_read_uint16_at. reflexivity.
Qed.

Lemma load_counter_step (data : list Z) (n i j : nat) (mem : list (list Z))
    (row : list Z) (m : Z) :
  mem !! i = Some row -> row !! j = Some m ->
  load_counter i j (mkFile data (n `min` length data), mem) =
  Some (mkFile data ((n + 2) `min` length data),
        <[i := <[j := stored_int16 data n m]> row]> mem).
Proof.
  intros Hr Hm. unfold load_counter. cbn [fst snd]. rewrite Hr.
  cbn [mbind option_bind]. rewrite Hm. cbn [mbind option_bind].
  rewrite file_read_int16_at. reflexivity.
Qed.

Lemma load_access_counts_loop (data : list Z) (counts : list Z) (N : nat) :
  length counts = N ->
  exists counts',
    for_range load_access_count 0 N (mkFile data (4 `min` length data), counts) =
      Some (mkFile data ((4 + 2 * N) `min` length data), counts') /\
    length counts' = N /\
    forall i c, counts !! i = Some c ->
      counts' !! i = Some (stored_uint16 data (count_offset i) c).
Proof.
  intros Hlen.
  destruct (for_range_inv
    (fun i (st : File * list Z) =>
       st.1 = mkFile data ((4 + 2 * i) `min` length data) /\
       length st.2 = N /\
       (forall k c, (k < i)%nat -> counts !! k = Some c ->
          st.2 !! k = Some (stored_uint16 data (count_offset k) c)) /\
       (forall k, (i <= k)%nat -> st.2 !! k = counts !! k))
    load_access_count 0 N (mkFile data (4 `min` length data), counts))
    as ([f counts'] & Hloop & Hf & Hl & Hdone & _).
  - simpl. repeat split; try assumption; try reflexivity. intros; lia.
  - intros i [f cs] Hi (Hf & Hl & Hdone & Hrest). cbn [fst snd] in *. subst f.
    destruct (lookup_lt_is_Some_2 cs i) as [c Hc]; [lia|].
    rewrite (load_access_count_step _ _ _ _ _ Hc).
    eexists. split; [reflexivity|]. cbn [fst snd].
    split; [f_equal; lia|]. split; [by rewrite length_insert|]. split.
    + intros k c0 Hk Hc0. destruct (decide (k = i)) as [->|Hne].
      * rewrite list_lookup_insert_eq by lia. rewrite Hrest in Hc by lia.
        unfold count_offset. congruence.
      * rewrite list_lookup_insert_ne by congruence. apply Hdone; [lia|assumption].
    + intros k Hk. rewrite list_lookup_insert_ne by lia. apply Hrest. lia.
  - cbn [fst snd] in *. subst f. exists counts'. split; [assumption|].
    split; [assumption|]. intros i c Hc. apply Hdone; [|assumption].
    apply lookup_lt_Some in Hc. lia.
Qed.

Lemma load_counters_loop (data : list Z) (mem : list (list Z)) (row : list Z)
    (base i D : nat) :
  mem !! i = Some row -> length row = D ->
  exists mem' row',
    for_range (load_counter i) 0 D (mkFile data (base `min` length data), mem) =
      Some (mkFile data ((base + 2 * D) `min` length data), mem') /\
    length mem' = length mem /\
    (forall k, k <> i -> mem' !! k = mem !! k) /\
    mem' !! i = Some row' /\ length row' = D /\
    forall j m, row !! j = Some m ->
      row' !! j = Some (stored_int16 data (base + 2 * j) m).
Proof.
  intros Hrow Hlen.
  destruct (for_range_inv
    (fun j (st : File * list (list Z)) =>
       st.1 = mkFile data ((base + 2 * j) `min` length data) /\
       length st.2 = length mem /\
       (forall k, k <> i -> st.2 !! k = mem !! k) /\
       exists r, st.2 !! i = Some r /\ length r = D /\
         (forall k m, (k < j)%nat -> row !! k = Some m ->
            r !! k = Some (stored_int16 data (base + 2 * k) m)) /\
         (forall k, (j <= k)%nat -> r !! k = row !! k))
    (load_counter i) 0 D (mkFile data (base `min` length data), mem))
    as ([f mem'] & Hloop & Hf & Hl & Ho & r & Hr & Hrl & Hdone & _).
  - simpl. split; [f_equal; f_equal; lia|]. split; [reflexivity|].
    split; [reflexivity|]. exists row. repeat split; try assumption. intros; lia.
  - intros j [f m'] Hj (Hf & Hl & Ho & r & Hr & Hrl & Hdone & Hrest).
    cbn [fst snd] in *. subst f.
    destruct (lookup_lt_is_Some_2 r j) as [m Hm]; [lia|].
    rewrite (load_counter_step _ _ _ _ _ _ _ Hr Hm).
    eexists. split; [reflexivity|]. cbn [fst snd].
    assert (Hi : (i < length m')%nat) by (eapply lookup_lt_Some; eassumption).
    split; [f_equal; lia|]. split; [by rewrite length_insert|].
    split; [intros k Hk; rewrite list_lookup_insert_ne by congruence; by apply Ho|].
    eexists. split; [by apply list_lookup_insert_eq|].
    split; [by rewrite length_insert|]. split.
    + intros k m0 Hk Hm0. destruct (decide (k = j)) as [->|Hne].
      * rewrite list_lookup_insert_eq by lia. rewrite Hrest in Hm by lia. congruence.
      * rewrite list_lookup_insert_ne by congruence. apply Hdone; [lia|assumption].
    + intros k Hk. rewrite list_lookup_insert_ne by lia. apply Hrest. lia.
  - cbn [fst snd] in *. subst f. exists mem', r. split; [assumption|].
    repeat split; try assumption.
    intros j m Hm. apply Hdone; [|assumption]. apply lookup_lt_Some in Hm. lia.
Qed.

Lemma load_rows_loop (data : list Z) (mem : list (list Z)) (base N D : nat) :
  length mem = N -> Forall (fun row => length row = D) mem ->
  exists mem',
    for_range (load_row D) 0 N (mkFile data (base `min` length data), mem) =
      Some (mkFile data ((base + 2 * (N * D)) `min` length data), mem') /\
    length mem' = N /\
    forall i row, mem !! i = Some row ->
      exists row', mem' !! i = Some row' /\ length row' = D /\
        forall j m, row !! j = Some m ->
          row' !! j = Some (stored_int16 data (base + 2 * (i * D + j)) m).
Proof.
  intros Hlen Hdim. rewrite Forall_forall in Hdim.
  destruct (for_range_inv
    (fun i (st : File * list (list Z)) =>
       st.1 = mkFile data ((base + 2 * (i * D)) `min` length data) /\
       length st.2 = N /\
       (forall k row, (k < i)%nat -> mem !! k = Some row ->
          exists row', st.2 !! k = Some row' /\ length row' = D /\
            forall j m, row !! j = Some m ->
              row' !! j = Some (stored_int16 data (base + 2 * (k * D + j)) m)) /\
       (forall k, (i <= k)%nat -> st.2 !! k = mem !! k))
    (load_row D) 0 N (mkFile data (base `min` length data), mem))
    as ([f mem'] & Hloop & Hf & Hl & Hdone & _).
  - simpl. split; [f_equal; f_equal; lia|]. split; [assumption|].
    split; [intros; lia|reflexivity].
  - intros i [f m'] Hi (Hf & Hl & Hdone & Hrest). cbn [fst snd] in *. subst f.
    destruct (lookup_lt_is_Some_2 mem i) as [row Hrow]; [lia|].
    assert (Hrl : length row = D)
      by (apply Hdim; eapply list_elem_of_lookup_2; eassumption).
    assert (Hrow' : m' !! i = Some row) by (rewrite Hrest by lia; assumption).
    destruct (load_counters_loop data m' row (base + 2 * (i * D)) i D Hrow' Hrl)
      as (m'' & row' & Hc & Hl' & Ho & Hr' & Hrl' & Hupd).
    unfold load_row. cbn [fst snd]. rewrite Hc.
    eexists. split; [reflexivity|]. cbn [fst snd].
    split; [f_equal; lia|]. split; [congruence|]. split.
    + intros k row0 Hk Hrow0. destruct (decide (k = i)) as [->|Hne].
      * assert (row0 = row) by congruence. subst. exists row'.
        split; [assumption|]. split; [assumption|].
        intros j m Hm. rewrite (Hupd j m Hm). do 2 f_equal. lia.
      * rewrite Ho by assumption. apply Hdone; [lia|assumption].
    + intros k Hk. rewrite Ho by lia. apply Hrest. lia.
  - cbn [fst snd] in *. subst f. exists mem'. split; [assumption|]. split; [assumption|].
    intros i row Hrow. apply Hdone; [|assumption]. apply lookup_lt_Some in Hrow. lia.
Qed.

(** Whatever the card holds, the load returns, and it leaves addresses
    and configuration alone. *)
Lemma loadMemoryFromSD_keeps_addresses {F : Type} `{FloatOps F}
    (sd : SDCard F) (garbage : Z * Z) (s : SparseDistributedMemory F) :
  store_wf s ->
  exists s' ok,
    loadMemoryFromSD sd garbage s = Some (s', ok) /\
    addresses s' = addresses s /\ config s' = config s.
Proof.
  intros Hwf. unfold loadMemoryFromSD.
  destruct (sd_memory_file sd) as [data|];
    [|eexists _, _; split; [reflexivity|split; reflexivity]].
  destruct (negb (sd_read_ok sd));
    [eexists _, _; split; [reflexivity|split; reflexivity]|].
  change (mkFile data 0) with (mkFile data (0 `min` length data)).
  rewrite file_read_uint16_at. rewrite file_read_uint16_at.
  cbn [fst snd Nat.add].
  destruct (negb _ || negb _);
    [eexists _, _; split; [reflexivity|split; reflexivity]|].
  destruct (load_access_counts_loop data (access_counts s)
              (Z.to_nat (num_locations (config s)))
              (wf_access_counts s Hwf)) as (counts' & Hc & _).
  rewrite Hc. cbn [mbind option_bind].
  destruct (load_rows_loop data (memory s)
              (4 + 2 * Z.to_nat (num_locations (config s)))
              (Z.to_nat (num_locations (config s)))
              (Z.to_nat (vector_dim (config s)))
              (wf_memory s Hwf) (wf_memory_dim s Hwf)) as (mem' & Hm & _).
  rewrite Hm. cbn [mbind option_bind].
  eexists _, _. split; [reflexivity|]. split; reflexivity.
Qed.

(** C3 (as amended).  [loadMemoryFromSD] fails and leaves the store as it
    was when the state file is absent, cannot be opened, or carries a
    header other than the configuration's [(num_locations, vector_dim)].
    Otherwise it reports success: statistics, addresses and configuration
    are kept, and every access count and counter is overwritten, in file
    order, by the 16-bit little-endian value at its offset; an entry that
    lies past the end of the file keeps the value it had. *)
Theorem loadMemoryFromSD_outcome {F : Type} `{FloatOps F}
    (sd : SDCard F) (garbage : Z * Z) (s : SparseDistributedMemory F) :
  store_wf s ->
  if header_accepted sd garbage (config s) then
    exists s' data,
      sd_memory_file sd = Some data /\
      loadMemoryFromSD sd garbage s = Some (s', true) /\
      stats s' = stats s /\ addresses s' = addresses s /\ config s' = config s /\
      length (access_counts s') = length (access_counts s) /\
      length (memory s') = length (memory s) /\
      (forall i c, access_counts s !! i = Some c ->
         access_counts s' !! i = Some (stored_uint16 data (count_offset i) c) /\
         ((length data <= count_offset i)%nat -> access_counts s' !! i = Some c)) /\
      (forall i j row m, memory s !! i = Some row -> row !! j = Some m ->
         exists row', memory s' !! i = Some row' /\ length row' = length row /\
           row' !! j =
             Some (stored_int16 data (counter_offset (config s) i j) m) /\
           ((length data <= counter_offset (config s) i j)%nat ->
            row' !! j = Some m))
  else loadMemoryFromSD sd garbage s = Some (s, false).
Proof.
  intros Hwf. unfold header_accepted, loadMemoryFromSD.
  destruct (sd_memory_file sd) as [data|]; [|reflexivity].
  destruct (sd_read_ok sd); [|reflexivity]. cbn [negb andb].
  change (mkFile data 0) with (mkFile data (0 `min` length data)).
  rewrite file_read_uint16_at. rewrite file_read_uint16_at.
  cbn [fst snd Nat.add].
  destruct (stored_uint16 data 0 garbage.1 =? num_locations (config s));
    [|reflexivity].
  destruct (stored_uint16 data 2 garbage.2 =? vector_dim (config s));
    [|reflexivity].
  cbn [negb orb andb].
  set (N := Z.to_nat (num_locations (config s))).
  set (D := Z.to_nat (vector_dim (config s))).
  destruct (load_access_counts_loop data (access_counts s) N
              (wf_access_counts s Hwf)) as (counts' & Hc & Hcl & Hcs).
  rewrite Hc. cbn [mbind option_bind].
  destruct (load_rows_loop data (memory s) (4 + 2 * N) N D
              (wf_memory s Hwf) (wf_memory_dim s Hwf)) as (mem' & Hm & Hml & Hms).
  rewrite Hm. cbn [mbind option_bind].
  exists (mkSDM (stats s) (addresses s) mem' counts' (config s)), data.
  cbn [stats addresses config access_counts memory].
  split; [reflexivity|]. split; [reflexivity|].
  split; [reflexivity|]. split; [reflexivity|]. split; [reflexivity|].
  split; [rewrite (wf_access_counts s Hwf); assumption|].
  split; [rewrite (wf_memory s Hwf); assumption|]. split.
  - intros i c Hi. split; [by apply Hcs|]. intros Hend.
    rewrite (Hcs i c Hi). f_equal. apply stored_uint16_past_end; [assumption|].
    pose proof (wf_access_counts_uint16 s Hwf) as Hu. rewrite Forall_forall in Hu.
    apply Hu. eapply list_elem_of_lookup_2. eassumption.
  - intros i j row m Hrow Hmj.
    destruct (Hms i row Hrow) as (row' & Hr' & Hl' & Hupd).
    assert (Hrl : length row = D).
    { pose proof (wf_memory_dim s Hwf) as Hd. rewrite Forall_forall in Hd.
      apply Hd. eapply list_elem_of_lookup_2. eassumption. }
    exists row'. split; [assumption|]. split; [congruence|].
    unfold counter_offset. fold N D. split; [by apply Hupd|].
    intros Hend. rewrite (Hupd j m Hmj). f_equal.
    apply stored_int16_past_end; [assumption|].
    pose proof (wf_memory_int16 s Hwf) as Hint. rewrite Forall_forall in Hint.
    eapply Forall_forall; [apply Hint|]; eapply list_elem_of_lookup_2; eassumption.
Qed.

Lemma loadMemoryFromSD_outcome_witness :
  store_wf demo_store /\
  header_accepted truncated_card (0, 0) (config demo_store) = true /\
  exists s', loadMemoryFromSD truncated_card (0, 0) demo_store = Some (s', true) /\
    addresses s' = addresses demo_store.
Proof.
  split; [exact demo_store_wf|]. split; [reflexivity|].
  pose proof (loadMemoryFromSD_outcome truncated_card (0, 0) demo_store
                demo_store_wf) as Hout.
  change (header_accepted truncated_card (0, 0) (config demo_store)) with true
    in Hout.
  destruct Hout as (s' & data & _ & Hload & _ & Ha & _).
  exists s'. auto.
Defined.

(** C3 (as stated) fails on a truncated file whose header matches: the
    file below holds the header of [demo_store] and one access count, 6
    bytes of the 20 a complete file has.  The load reports success, and
    the store is partly overwritten: access count 0 is the file's, access
    count 1 and all counters are the old ones. *)
Lemma loadMemoryFromSD_truncated_file :
  store_wf demo_store /\
  sd_memory_file truncated_card = Some [2; 0; 3; 0; 1; 0] /\
  payload_length (config demo_store) = 20%nat /\
  access_counts demo_store = [7; 9] /\
  loadMemoryFromSD truncated_card (0, 0) demo_store =
    Some (mkSDM (stats demo_store) (addresses demo_store) (memory demo_store)
                [1; 9] (config demo_store), true).
Proof.
  split; [exact demo_store_wf|]. repeat split; vm_compute; reflexivity.
Qed.

(** ** Encoder *)

(** A run of [encoded[i] = 1] over [lo .. lo + n - 1]. *)
Lemma set_bits_loop (lo n : nat) (enc : list Z) :
  (lo + n <= length enc)%nat ->
  exists enc',
    for_range set_bit lo n enc = Some enc' /\
    length enc' = length enc /\
    forall k, enc' !! k =
      if decide (lo <= k < lo + n)%nat then Some 1 else enc !! k.
Proof.
  intros Hlen.
  destruct (for_range_inv
    (fun i e => length e = length enc /\
       forall k, e !! k = if decide (lo <= k < i)%nat then Some 1 else enc !! k)
    set_bit lo n enc) as (enc' & Hloop & Hl & Hk).
  - split; [reflexivity|]. intros k. destruct (decide _); [lia|reflexivity].
  - intros i e Hi (Hl & Hk).
    destruct (lookup_lt_is_Some_2 e i) as [b Hb]; [lia|].
    unfold set_bit. rewrite Hb. simpl. eexists. split; [reflexivity|].
    split; [by rewrite length_insert|]. intros k.
    destruct (decide (k = i)) as [->|Hne].
    + rewrite list_lookup_insert_eq by lia. destruct (decide _); [reflexivity|lia].
    + rewrite list_lookup_insert_ne by congruence. rewrite Hk.
      repeat destruct (decide _); try reflexivity; lia.
  - exists enc'. auto.
Qed.

Lemma thermometer_vector (n D : nat) :
  (n <= D)%nat ->
  for_range set_bit 0 n (replicate D 0) =
  Some (replicate n 1 ++ replicate (D - n) 0).
Proof.
  intros Hn.
  destruct (set_bits_loop 0 n (replicate D 0)) as (enc' & Hloop & Hl & Hk).
  { rewrite length_replicate. lia. }
  rewrite Hloop. f_equal. apply list_eq. intros k. rewrite Hk.
  rewrite length_replicate in Hl.
  destruct (decide (0 <= k < 0 + n)%nat) as [Hin|Hout].
  - rewrite lookup_app_l by (rewrite length_replicate; lia).
    symmetry. apply lookup_replicate_2. lia.
  - rewrite lookup_app_r by (rewrite length_replicate; lia).
    rewrite length_replicate.
    destruct (decide (k < D)%nat).
    + rewrite !lookup_replicate_2 by lia. reflexivity.
    + rewrite !(proj2 (lookup_ge_None _ _)); [reflexivity| |];
        rewrite length_replicate; lia.
Qed.

Lemma highest_bit_from_zeros (i h : Z) (m : nat) :
  highest_bit_from i h (replicate m 0) = h.
Proof. revert i. induction m as [|m IH]; intros i; simpl; [reflexivity|apply IH]. Qed.

Lemma highest_bit_from_ones (i h : Z) (n : nat) (l : list Z) :
  highest_bit_from i h (replicate n 1 ++ l) =
  highest_bit_from (i + Z.of_nat n) (if decide (n = 0)%nat then h
                                     else i + Z.of_nat n - 1) l.
Proof.
  revert i h. induction n as [|n IH]; intros i h.
  - simpl. by rewrite Z.add_0_r.
  - cbn [replicate app highest_bit_from]. rewrite Z.eqb_refl, IH.
    destruct (decide (n = 0)%nat) as [->|Hn]; destruct (decide _); try lia.
    + f_equal; lia.
    + f_equal; lia.
Qed.

Lemma highest_bit_thermometer (n m : nat) :
  (0 < n)%nat ->
  highest_bit_from 0 0 (replicate n 1 ++ replicate m 0) = Z.of_nat n - 1.
Proof.
  intros Hn. rewrite highest_bit_from_ones, highest_bit_from_zeros.
  destruct (decide _); lia.
Qed.

Section EncoderProofs.
Context {F : Type} `{FloatOps F}.

(** The code: [encodeFloat] sets bits 0 through [position] (as far as the
    vector reaches) and [decodeFloat] maps the highest set index [h] to
    [min_val + (h / (D-1)) * (max_val - min_val)], in the arithmetic of
    [float]. *)
Lemma thermometer_structure (cfg : SDMConfig F) (x min_val max_val : F)
    (position : Z) :
  1 <= vector_dim cfg ->
  f_to_uint16
    (f_mul (constrain (f_div (f_sub x min_val) (f_sub max_val min_val))
                      (f_of_int 0) (f_of_int 1))
           (f_of_int (vector_dim cfg - 1))) = Some position ->
  let h := Z.min position (vector_dim cfg - 1) in
  encodeFloat cfg x min_val max_val =
    Some (replicate (Z.to_nat (h + 1)) 1
          ++ replicate (Z.to_nat (vector_dim cfg - 1 - h)) 0) /\
  decodeFloat cfg (replicate (Z.to_nat (h + 1)) 1
                   ++ replicate (Z.to_nat (vector_dim cfg - 1 - h)) 0)
              min_val max_val =
    f_add min_val (f_mul (f_div (f_of_int h) (f_of_int (vector_dim cfg - 1)))
                         (f_sub max_val min_val)).
Proof.
  intros HD Hpos h.
  assert (Hp : 0 <= position).
  { unfold f_to_uint16 in Hpos. destruct (f_to_int _) as [z|]; [|discriminate].
    simpl in Hpos. destruct (0 <=? z) eqn:E; simpl in Hpos; [|discriminate].
    destruct (z <=? UINT16_MAX); [|discriminate].
    apply Z.leb_le in E. congruence. }
  split.
  - unfold encodeFloat. rewrite Hpos. cbn [mbind option_bind].
    rewrite thermometer_vector by lia.
    do 2 f_equal; f_equal; lia.
  - unfold decodeFloat. rewrite highest_bit_thermometer by lia.
    do 4 f_equal. lia.
Qed.
End EncoderProofs.

(** *** The thermometer code in exact arithmetic *)

Lemma normalised_range (x a b : Q) :
  (a < b)%Q -> (a <= x <= b)%Q -> (0 <= (x - a) / (b - a) <= 1)%Q.
Proof.
  intros Hab [Hax Hxb]. assert (Hr : (0 < b - a)%Q) by lra. split.
  - apply Qle_shift_div_l; [assumption|]. lra.
  - apply Qle_shift_div_r; [assumption|]. lra.
Qed.

Lemma roundtrip_bound (x a b : Q) (k p : Z) :
  (a < b)%Q -> 0 < k ->
  (inject_Z p <= (x - a) / (b - a) * inject_Z k)%Q ->
  ((x - a) / (b - a) * inject_Z k < inject_Z p + 1)%Q ->
  (Qabs (a + inject_Z p / inject_Z k * (b - a) - x) <= (b - a) / inject_Z k)%Q.
Proof.
  intros Hab Hk Hlo Hhi.
  assert (Hr : (0 < b - a)%Q) by lra.
  assert (HkQ : (0 < inject_Z k)%Q)
    by (change 0%Q with (inject_Z 0); rewrite <- Zlt_Qlt; exact Hk).
  set (t := ((b - a) / inject_Z k)%Q).
  assert (Ht : (0 < t)%Q) by (apply Qlt_shift_div_l; [assumption|lra]).
  set (n := ((x - a) / (b - a))%Q) in *.
  apply Qabs_Qle_condition.
  assert (E : (a + inject_Z p / inject_Z k * (b - a) - x ==
               (inject_Z p - n * inject_Z k) * t)%Q).
  { unfold n, t. field. split; lra. }
  rewrite E. split.
  - apply Qle_trans with ((-(1)) * t)%Q; [lra|].
    apply Qmult_le_compat_r; lra.
  - apply Qle_trans with (1 * t)%Q; [|lra].
    apply Qmult_le_compat_r; lra.
Qed.

Lemma exact_constrain_id (n : Q) :
  (0 <= n <= 1)%Q -> constrain n (f_of_int 0) (f_of_int 1) = n.
Proof.
  intros [H0 H1]. unfold constrain. simpl. unfold ExactQ.ltb.
  change (inject_Z 0) with 0%Q. change (inject_Z 1) with 1%Q.
  rewrite (proj2 (Qle_bool_iff 0 n) H0). simpl.
  rewrite (proj2 (Qle_bool_iff n 1) H1). reflexivity.
Qed.

Lemma exact_to_int_floor (q : Q) :
  (0 <= q)%Q -> ExactQ.to_int q = Some (Qfloor q).
Proof.
  intros Hq. unfold ExactQ.to_int, Qfloor. destruct q as [n d]. simpl.
  unfold Qle in Hq. simpl in Hq. rewrite Z.quot_div_nonneg by lia. reflexivity.
Qed.




(** *** Facts of binary32 arithmetic *)

Module Binary32Facts.
Import Binary32.

Lemma shr_1_nonneg (mrs : shr_record) : 0 <= shr_m mrs -> 0 <= shr_m (shr_1 mrs).
Proof.
  destruct mrs as [m r s]. simpl. intros Hm.
  destruct m as [|p|p]; [simpl; lia| |lia].
  destruct p; simpl; lia.
Qed.

Lemma iter_shr_1_nonneg (p : positive) (mrs : shr_record) :
  0 <= shr_m mrs -> 0 <= shr_m (SpecFloat.iter_pos shr_1 p mrs).
Proof.
  revert mrs. induction p as [p IH|p IH|]; intros mrs Hm; simpl.
  - apply IH, IH, shr_1_nonneg, Hm.
  - apply IH, IH, Hm.
  - apply shr_1_nonneg, Hm.
Qed.

Lemma shr_fexp_nonneg (m e : Z) (l : location) :
  0 <= m -> 0 <= shr_m (fst (shr_fexp prec emax m e l)).
Proof.
  intros Hm. unfold shr_fexp, shr.
  assert (H0 : 0 <= shr_m (shr_record_of_loc m l))
    by (destruct l as [|[| |]]; simpl; exact Hm).
  destruct (fexp prec emax (Zdigits2 m + e) - e) as [|p|p]; simpl;
    try exact H0.
  apply iter_shr_1_nonneg, H0.
Qed.

Lemma round_nearest_even_nonneg (m : Z) (l : location) :
  0 <= m -> 0 <= round_nearest_even m l.
Proof.
  intros Hm. destruct l as [|[| |]]; simpl; try lia.
  destruct (Z.even m); lia.
Qed.

(** Rounding a non-negative mantissa never yields a NaN. *)
Lemma binary_round_aux_not_nan (sx : bool) (mx ex : Z) (lx : location) :
  0 <= mx -> is_nan (binary_round_aux prec emax sx mx ex lx) = false.
Proof.
  intros Hm. unfold binary_round_aux.
  pose proof (shr_fexp_nonneg mx ex lx Hm) as H1.
  destruct (shr_fexp prec emax mx ex lx) as [mrs' e']. simpl in H1.
  pose proof (shr_fexp_nonneg
                (round_nearest_even (shr_m mrs') (loc_of_shr_record mrs')) e'
                loc_Exact (round_nearest_even_nonneg _ _ H1)) as H2.
  destruct (shr_fexp prec emax _ e' loc_Exact) as [mrs'' e'']. simpl in H2.
  destruct (shr_m mrs'') as [|p|p]; [reflexivity| |lia].
  destruct (e'' <=? emax - prec); reflexivity.
Qed.

Lemma binary_round_not_nan (sx : bool) (mx : positive) (ex : Z) :
  is_nan (binary_round prec emax sx mx ex) = false.
Proof.
  unfold binary_round. destruct (shl_align _ _ _) as [mz ez].
  apply binary_round_aux_not_nan. lia.
Qed.

Lemma binary_normalize_not_nan (m e : Z) (szero : bool) :
  is_nan (binary_normalize prec emax m e szero) = false.
Proof.
  destruct m; simpl; [reflexivity|apply binary_round_not_nan..].
Qed.

(** Adding a finite number to a number that is not a NaN. *)
Lemma add_finite_not_nan (x y : spec_float) :
  is_nan x = false -> finite y = true -> is_nan (SFadd prec emax x y) = false.
Proof.
  intros Hx Hy. destruct x as [sx|sx| |sx mx ex]; try discriminate;
    destruct y as [sy|sy| |sy my ey]; try discriminate; simpl;
    try reflexivity.
  - destruct sx, sy; reflexivity.
  - apply binary_normalize_not_nan.
Qed.

(** Dividing a number that is not a NaN by a finite non-zero number. *)
Lemma div_finite_not_nan (x : spec_float) (sy : bool) (my : positive) (ey : Z) :
  is_nan x = false ->
  is_nan (SFdiv prec emax x (S754_finite sy my ey)) = false.
Proof.
  intros Hx. destruct x as [sx|sx| |sx mx ex]; try discriminate; simpl;
    try reflexivity.
  unfold SFdiv_core_binary.
  set (m' := match _ with Z0 => Zpos mx | Zpos _ => _ | Zneg _ => 0 end).
  assert (Hm' : 0 <= m').
  { unfold m'. destruct (_ - _ - _) as [|p|p]; try lia.
    apply Z.shiftl_nonneg. lia. }
  pose proof (Z_div_mod m' (Zpos my) ltac:(lia)) as Hdm.
  destruct (Z.div_eucl m' (Zpos my)) as [q r].
  apply binary_round_aux_not_nan.
  destruct Hdm as [Heq Hr]. nia.
Qed.

(** [constrain x 0 1] is finite unless [x] is a NaN. *)
Lemma constrain_unit_finite (x : spec_float) :
  is_nan x = false -> finite (constrain x (f_of_int 0) (f_of_int 1)) = true.
Proof.
  intros Hx. unfold constrain.
  destruct x as [sx|sx| |sx mx ex]; try discriminate;
    [|destruct sx; reflexivity|];
    repeat match goal with
           | |- context [if ?b then _ else _] => destruct b
           end; reflexivity.
Qed.

(** A finite number times zero is a zero, which truncates to 0. *)
Lemma mul_zero_to_uint16 (x : spec_float) :
  finite x = true -> f_to_uint16 (f_mul x (f_of_int 0)) = Some 0.
Proof. intros Hx. destruct x as [sx|sx| |sx mx ex]; try discriminate; reflexivity. Qed.

(** Whatever the number, its product with zero truncates to 0 when the
    cast is defined at all. *)
Lemma mul_zero_to_uint16_inv (x : spec_float) (z : Z) :
  f_to_uint16 (f_mul x (f_of_int 0)) = Some z -> z = 0.
Proof.
  destruct x as [sx|sx| |sx mx ex]; simpl; intros Hz; try discriminate;
    inversion Hz; reflexivity.
Qed.
End Binary32Facts.

(** *** The sequence codec below 32 dimensions *)

(** A loop whose body, when it returns at all, returns its state. *)
Lemma for_range_fixed {S : Type} (body : nat -> S -> option S) (lo n : nat)
    (s s' : S) :
  (forall i st st', body i st = Some st' -> st' = st) ->
  for_range body lo n s = Some s' -> s' = s.
Proof.
  intros Hbody. revert lo s. induction n as [|n IH]; intros lo s; simpl.
  - congruence.
  - destruct (body lo s) as [s1|] eqn:E; simpl; [|discriminate].
    intros Hrest. apply Hbody in E. subst s1. eapply IH. eassumption.
Qed.

Lemma for_range_const {S : Type} (body : nat -> S -> option S) (lo n : nat)
    (s : S) :
  (forall i, (lo <= i < lo + n)%nat -> body i s = Some s) ->
  for_range body lo n s = Some s.
Proof.
  revert lo. induction n as [|n IH]; intros lo Hbody; simpl; [reflexivity|].
  rewrite Hbody by lia. simpl. apply IH. intros i Hi. apply Hbody. lia.
Qed.

Lemma bits_per_element_small {F : Type} (cfg : SDMConfig F) :
  0 <= vector_dim cfg < 32 -> bits_per_element cfg = 0.
Proof.
  intros HD. unfold bits_per_element, sequence_length.
  rewrite Z.div_small by lia. reflexivity.
Qed.

Lemma bits_per_element_large {F : Type} (cfg : SDMConfig F) :
  32 <= vector_dim cfg <= UINT16_MAX -> 1 <= bits_per_element cfg.
Proof.
  unfold UINT16_MAX. intros HD. unfold bits_per_element, sequence_length.
  assert (1 <= vector_dim cfg / 32) by (apply Z.div_le_lower_bound; lia).
  assert (vector_dim cfg / 32 <= 65535 / 32) by (apply Z.div_le_mono; lia).
  change (65535 / 32) with 2047 in *.
  rewrite to_uint16_id; [lia|]. unfold is_uint16, UINT16_MAX. lia.
Qed.

Section SequenceBinary32.
Import Binary32 Binary32Facts.

Variable cfg : SDMConfig spec_float.
Hypothesis small_dim : 0 <= vector_dim cfg < 32.

Lemma encode_element_small_inv (sequence : list spec_float) (i : nat)
    (enc enc' : list Z) :
  encode_element cfg sequence i enc = Some enc' -> enc' = enc.
Proof.
  unfold encode_element. rewrite (bits_per_element_small cfg small_dim).
  destruct (sequence !! i) as [x|]; [|discriminate]. cbn [mbind option_bind].
  destruct (f_to_uint16 _) as [z|] eqn:E; [|discriminate].
  apply mul_zero_to_uint16_inv in E. subst z. cbn [mbind option_bind].
  rewrite Z.mul_0_r. change (to_uint16 0) with 0.
  rewrite Z.min_l by lia. simpl. congruence.
Qed.

Lemma encode_element_small (sequence : list spec_float) (i : nat)
    (enc : list Z) (x : spec_float) :
  sequence !! i = Some x -> is_nan x = false ->
  encode_element cfg sequence i enc = Some enc.
Proof.
  intros Hx Hnan. unfold encode_element.
  rewrite (bits_per_element_small cfg small_dim), Hx. cbn [mbind option_bind].
  rewrite mul_zero_to_uint16.
  - cbn [mbind option_bind]. rewrite Z.mul_0_r. change (to_uint16 0) with 0.
    rewrite Z.min_l by lia. reflexivity.
  - apply constrain_unit_finite.
    change (f_of_int 2) with (S754_finite false 8388608 (-22)).
    apply div_finite_not_nan. apply add_finite_not_nan; [assumption|reflexivity].
Qed.

Lemma encodeSequence_small_inv (sequence : list spec_float) (v : list Z) :
  encodeSequence cfg sequence = Some v ->
  v = replicate (Z.to_nat (vector_dim cfg)) 0.
Proof.
  unfold encodeSequence. destruct sequence as [|x rest]; [congruence|].
  apply for_range_fixed. intros i st st'. apply encode_element_small_inv.
Qed.

Lemma encodeSequence_small (sequence : list spec_float) :
  Forall (fun x => is_nan x = false) sequence ->
  encodeSequence cfg sequence = Some (replicate (Z.to_nat (vector_dim cfg)) 0).
Proof.
  intros Hnan. unfold encodeSequence.
  destruct sequence as [|x rest] eqn:E; [reflexivity|]. rewrite <- E in *.
  apply for_range_const. intros i Hi.
  destruct (lookup_lt_is_Some_2 sequence i) as [y Hy]; [lia|].
  apply (encode_element_small sequence i _ y Hy).
  rewrite Forall_forall in Hnan. apply Hnan.
  eapply list_elem_of_lookup_2. eassumption.
Qed.

Lemma decode_element_small (vector : list Z) (i : nat)
    (sequence : list spec_float) :
  decode_element cfg vector i sequence =
  Some (sequence ++
        [f_sub (f_mul (f_div (f_of_int 0) (f_of_int (bits_per_element cfg)))
                      (f_of_int 2)) (f_of_int 1)]).
Proof.
  unfold decode_element. rewrite (bits_per_element_small cfg small_dim).
  rewrite Z.mul_0_r. change (to_uint16 0) with 0.
  destruct (Z.min_spec 0 (Z.of_nat (length vector) - 0)) as [[_ ->]|[Hle ->]].
  - reflexivity.
  - replace (Z.to_nat (Z.of_nat (length vector) - 0)) with 0%nat by lia.
    reflexivity.
Qed.

Lemma decodeSequence_small (vector : list Z) :
  decodeSequence cfg vector =
  Some (replicate 32
          (f_sub (f_mul (f_div (f_of_int 0) (f_of_int (bits_per_element cfg)))
                        (f_of_int 2)) (f_of_int 1))).
Proof.
  unfold decodeSequence. change (Z.to_nat sequence_length) with 32%nat.
  set (nan := f_sub _ _).
  destruct (for_range_inv (fun i st => st = replicate i nan)
              (decode_element cfg vector) 0 32 []) as (st & Hloop & ->).
  - reflexivity.
  - intros i st _ ->. rewrite decode_element_small. fold nan.
    eexists. split; [reflexivity|]. by rewrite replicate_S_end.
  - exact Hloop.
Qed.
End SequenceBinary32.

(** C9.  [bits_per_element] is the integer quotient [vector_dim / 32].
    For every configuration with [vector_dim < 32] it is 0: then
    [encodeSequence] sets no bit, whatever the input (it returns the
    all-zero vector for every input without a NaN, and never returns any
    other vector), and [decodeSequence] emits 32 elements, each computed
    as [(0 / 0) * 2 - 1] with a zero divisor, which is a NaN.  The fallback
    configuration of [findOptimalConfig] has [vector_dim = 16] and is such
    a configuration.  From [vector_dim >= 32] on, the divisor is at least
    1. *)
Theorem sequence_codec_below_32 (cfg : SDMConfig spec_float) :
  0 <= vector_dim cfg < 32 ->
  bits_per_element cfg = 0 /\
  (forall sequence,
     Forall (fun x => Binary32.is_nan x = false) sequence ->
     encodeSequence cfg sequence = Some (replicate (Z.to_nat (vector_dim cfg)) 0)) /\
  (forall sequence v,
     encodeSequence cfg sequence = Some v ->
     v = replicate (Z.to_nat (vector_dim cfg)) 0) /\
  (forall vector,
     decodeSequence cfg vector =
     Some (replicate 32
             (f_sub (f_mul (f_div (f_of_int 0) (f_of_int (bits_per_element cfg)))
                           (f_of_int 2)) (f_of_int 1)))) /\
  f_of_int (bits_per_element cfg) = S754_zero false /\
  f_div (f_of_int 0) (f_of_int (bits_per_element cfg)) = S754_nan /\
  f_sub (f_mul (f_div (f_of_int 0) (f_of_int (bits_per_element cfg)))
               (f_of_int 2)) (f_of_int 1) = S754_nan /\
  vector_dim (safe_default_config (F := spec_float)) = 16 /\
  (forall cfg' : SDMConfig spec_float,
     32 <= vector_dim cfg' <= UINT16_MAX -> 1 <= bits_per_element cfg').
Proof.
  intros HD. pose proof (bits_per_element_small cfg HD) as Hbpe.
  split; [exact Hbpe|].
  split; [intros sequence; apply encodeSequence_small; exact HD|].
  split; [intros sequence v; apply encodeSequence_small_inv; exact HD|].
  split; [intros vector; apply decodeSequence_small; exact HD|].
  rewrite Hbpe. split; [reflexivity|]. split; [reflexivity|].
  split; [reflexivity|]. split; [reflexivity|].
  intros cfg'. apply bits_per_element_large.
Qed.

Lemma sequence_codec_below_32_witness :
  0 <= vector_dim (safe_default_config (F := spec_float)) < 32 /\
  bits_per_element (safe_default_config (F := spec_float)) = 0 /\
  decodeSequence safe_default_config [1; 0; 1; 1; 0; 0; 0; 0; 0; 0; 0; 0; 0; 0; 0; 1] =
    Some (replicate 32 S754_nan).
Proof.
  assert (HD : 0 <= vector_dim (safe_default_config (F := spec_float)) < 32)
    by (simpl; lia).
  split; [exact HD|].
  destruct (sequence_codec_below_32 safe_default_config HD)
    as (Hbpe & _ & _ & Hdec & _ & _ & Hnan & _).
  split; [exact Hbpe|]. rewrite Hdec, Hnan. reflexivity.
Defined.

(** ** [findOptimalConfig] *)

Section OptimalConfig.
Context {F : Type} `{FloatOps F}.

Lemma config_document_holds (c : SDMConfig F) (timestamp : Z) :
  document_holds (json_set (config_document c timestamp) "version"
                           (JString "1.0")) c.
Proof. repeat split. Qed.

Lemma saveOptimalConfig_outcome (c : SDMConfig F) (w : World F) :
  exists w', saveOptimalConfig c w = (sd_write_ok (w_sd w), w') /\
    if sd_write_ok (w_sd w) then
      exists doc, sd_optimal_config_file (w_sd w') = Some (Some doc) /\
                  document_holds doc c
    else w_sd w' = w_sd w.
Proof.
  unfold saveOptimalConfig. simpl. destruct (sd_write_ok (w_sd w)); simpl.
  - eexists. split; [reflexivity|]. simpl. eexists. split; [reflexivity|].
    apply config_document_holds.
  - eexists. split; reflexivity.
Qed.

(** Reading back a document that holds a configuration yields it. *)
Lemma document_holds_read (doc : JsonDocument F) (c : SDMConfig F) :
  document_holds doc c -> config_wf c ->
  mkConfig (json_uint16 doc "vector_dim") (json_uint16 doc "num_locations")
           (json_uint16 doc "access_radius") (json_float doc "sparsity") = c.
Proof.
  intros (Hd & Hn & Hr & Hs) (Hwd & Hwn & Hwr).
  unfold json_uint16, json_uint16_or, json_float, json_float_or.
  rewrite Hd, Hn, Hr, Hs. unfold is_uint16 in *.
  destruct c as [d n r s]. simpl in *.
  repeat match goal with
         | |- context [?a <=? ?b] =>
             destruct (Z.leb_spec a b); [|lia]
         end.
  reflexivity.
Qed.
End OptimalConfig.

(** C8 (as amended).  When the optimal-configuration file is present,
    opens and parses, [findOptimalConfig] returns the values the document
    holds and writes nothing.  When the file is absent, cannot be opened or
    does not parse, it returns exactly [vector_dim = 16],
    [num_locations = 50], [access_radius = 3], [sparsity = 0.03f], and
    tries to write that configuration back: if the file can be opened for
    writing it then holds these four values, otherwise the card is left as
    it was. *)
Theorem findOptimalConfig_outcome {F : Type} `{FloatOps F} (w : World F) :
  (forall doc,
     sd_optimal_config_file (w_sd w) = Some (Some doc) ->
     sd_read_ok (w_sd w) = true ->
     findOptimalConfig w =
       (mkConfig (json_uint16 doc "vector_dim") (json_uint16 doc "num_locations")
                 (json_uint16 doc "access_radius") (json_float doc "sparsity"),
        w)) /\
  (sd_optimal_config_file (w_sd w) = None \/
   sd_optimal_config_file (w_sd w) = Some None \/
   sd_read_ok (w_sd w) = false ->
   exists w',
     findOptimalConfig w = (mkConfig 16 50 3 (f_lit 3 100), w') /\
     (sd_write_ok (w_sd w) = true ->
      exists doc, sd_optimal_config_file (w_sd w') = Some (Some doc) /\
                  document_holds doc (mkConfig 16 50 3 (f_lit 3 100))) /\
     (sd_write_ok (w_sd w) = false -> w_sd w' = w_sd w)).
Proof.
  split.
  - intros doc Hfile Hread. unfold findOptimalConfig. rewrite Hfile, Hread.
    reflexivity.
  - intros Hmiss.
    destruct (saveOptimalConfig_outcome safe_default_config w) as (w' & Hsave & Hw').
    exists w'. split.
    + unfold findOptimalConfig. rewrite Hsave.
      destruct Hmiss as [->|[->| ->]]; try reflexivity.
      * destruct (sd_read_ok (w_sd w)); reflexivity.
      * destruct (sd_optimal_config_file (w_sd w)); reflexivity.
    + split; intros Hok; rewrite Hok in Hw'; exact Hw'.
Qed.

Lemma findOptimalConfig_outcome_witness :
  sd_optimal_config_file (w_sd blank_world) = None /\
  sd_write_ok (w_sd blank_world) = true /\
  exists w', findOptimalConfig blank_world = (mkConfig 16 50 3 (f_lit 3 100), w') /\
    exists doc, sd_optimal_config_file (w_sd w') = Some (Some doc) /\
                document_holds doc (mkConfig 16 50 3 (f_lit 3 100)).
Proof.
  split; [reflexivity|]. split; [reflexivity|].
  destruct (proj2 (findOptimalConfig_outcome blank_world) (or_introl eq_refl))
    as (w' & Hfind & Hwritten & _).
  exists w'. split; [exact Hfind|]. exact (Hwritten eq_refl).
Defined.

(** C8 (as stated) fails when the card cannot be opened for writing:
    [findOptimalConfig] returns the fallback values, and the
    optimal-configuration file is still absent afterwards. *)
Lemma findOptimalConfig_write_refused :
  sd_optimal_config_file (w_sd write_protected_world) = None /\
  fst (findOptimalConfig write_protected_world) = mkConfig 16 50 3 (f_lit 3 100) /\
  sd_optimal_config_file (w_sd (snd (findOptimalConfig write_protected_world)))
    = None.
Proof. repeat split. Qed.

(** What [saveOptimalConfig] persists, [findOptimalConfig] returns. *)
Lemma findOptimalConfig_after_save {F : Type} `{FloatOps F}
    (c : SDMConfig F) (w : World F) :
  config_wf c -> sd_write_ok (w_sd w) = true -> sd_read_ok (w_sd w) = true ->
  fst (findOptimalConfig (snd (saveOptimalConfig c w))) = c.
Proof.
  intros Hwf Hw Hr. unfold saveOptimalConfig. simpl. rewrite Hw. simpl.
  unfold findOptimalConfig. simpl. rewrite Hr.
  cbn [fst]. apply document_holds_read; [|assumption].
  apply config_document_holds.
Qed.

(** ** Address generation *)

Lemma count_ones_insert (v : list Z) (n : nat) :
  v !! n = Some 0 -> count_ones (<[n := 1]> v) = count_ones v + 1.
Proof.
  intros Hn. unfold count_ones.
  enough (length (List.filter (Z.eqb 1) (<[n := 1]> v)) =
          Datatypes.S (length (List.filter (Z.eqb 1) v))) as -> by lia.
  revert n Hn. induction v as [|x v IH]; intros [|n] Hn; try discriminate.
  - inversion Hn; subst. reflexivity.
  - specialize (IH n Hn).
    change (<[Datatypes.S n := 1]> (x :: v)) with (x :: <[n := 1]> v).
    cbn [List.filter]. destruct (1 =? x); cbn [length]; rewrite IH; reflexivity.
Qed.

Lemma count_ones_zeros (n : nat) : count_ones (replicate n 0) = 0.
Proof. unfold count_ones. induction n as [|n IH]; simpl; [reflexivity|exact IH]. Qed.

Lemma shuffled_lookup (indices : list Z) (D i : nat) (idx : Z) :
  Permutation indices (map Z.of_nat (seq 0 D)) ->
  indices !! i = Some idx ->
  0 <= idx < Z.of_nat D /\ idx ∉ take i indices.
Proof.
  intros Hperm Hi. split.
  - assert (Hin : idx ∈ map Z.of_nat (seq 0 D)).
    { rewrite <- Hperm. eapply list_elem_of_lookup_2. eassumption. }
    apply list_elem_of_fmap in Hin as (j & -> & Hj).
    apply elem_of_seq in Hj. lia.
  - assert (Hnd : NoDup indices).
    { rewrite Hperm. apply NoDup_fmap_2; [apply Nat2Z.inj'|apply NoDup_seq]. }
    intros Hin. apply list_elem_of_lookup_1 in Hin as [j Hj].
    pose proof (lookup_lt_Some _ _ _ Hj) as Hlt. rewrite length_take in Hlt.
    rewrite lookup_take_lt in Hj by lia.
    pose proof (NoDup_lookup _ _ _ _ Hnd Hi Hj). lia.
Qed.

Section AddressProofs.
Context {F : Type} `{FloatOps F}.

(** [generateSparseVector] sets exactly the bits at the first
    [num_ones] shuffled indices. *)
Lemma generateSparseVector_spec (cfg : SDMConfig F) (indices vector : list Z)
    (s : F) (k : Z) :
  let D := Z.to_nat (vector_dim cfg) in
  Permutation indices (map Z.of_nat (seq 0 D)) ->
  length vector = D ->
  num_ones cfg s = Some k -> k <= vector_dim cfg ->
  exists v,
    generateSparseVector cfg indices vector s = Some v /\
    length v = D /\ count_ones v = k /\
    forall j, (j < D)%nat ->
      v !! j = Some (if decide (Z.of_nat j ∈ take (Z.to_nat k) indices)
                     then 1 else 0).
Proof.
  intros D Hperm Hlen Hk HkD.
  assert (Hk0 : 0 <= k).
  { unfold num_ones, f_to_uint16 in Hk.
    destruct (f_to_int _) as [z|]; [|discriminate]. simpl in Hk.
    destruct (0 <=? z) eqn:E; simpl in Hk; [|discriminate].
    destruct (z <=? UINT16_MAX); [|discriminate].
    apply Z.leb_le in E. congruence. }
  assert (Hil : length indices = D).
  { rewrite (Permutation_length Hperm), length_map, length_seq. reflexivity. }
  unfold generateSparseVector. rewrite Hk. cbn [mbind option_bind].
  rewrite Hlen, Hil, Z.min_l by (unfold D; lia).
  destruct (for_range_inv
    (fun i v => length v = D /\ count_ones v = Z.of_nat i /\
       forall j, (j < D)%nat ->
         v !! j = Some (if decide (Z.of_nat j ∈ take i indices) then 1 else 0))
    (set_indexed_bit indices) 0 (Z.to_nat k) (replicate D 0))
    as (v & Hloop & Hl & Hc & Hbits).
  - split; [apply length_replicate|]. split; [apply count_ones_zeros|].
    intros j Hj. rewrite take_0. destruct (decide _) as [Hin|_];
      [inversion Hin|]. apply lookup_replicate_2. assumption.
  - intros i v Hi (Hl & Hc & Hbits).
    destruct (lookup_lt_is_Some_2 indices i) as [idx Hidx]; [unfold D in *; lia|].
    destruct (shuffled_lookup indices D i idx Hperm Hidx) as [Hrange Hfresh].
    assert (Hv : v !! Z.to_nat idx = Some 0).
    { rewrite Hbits by lia. rewrite Z2Nat.id by lia.
      destruct (decide _); [contradiction|reflexivity]. }
    unfold set_indexed_bit. rewrite Hidx. cbn [mbind option_bind].
    rewrite Hv. cbn [mbind option_bind]. eexists. split; [reflexivity|].
    split; [by rewrite length_insert|].
    split; [rewrite count_ones_insert by assumption; lia|].
    intros j Hj. rewrite (take_S_r _ _ _ Hidx).
    destruct (decide (j = Z.to_nat idx)) as [->|Hne].
    + rewrite list_lookup_insert_eq by lia. rewrite Z2Nat.id by lia.
      destruct (decide _) as [_|Hn]; [reflexivity|].
      exfalso. apply Hn. apply elem_of_app. right. apply list_elem_of_singleton.
      reflexivity.
    + rewrite list_lookup_insert_ne by congruence. rewrite Hbits by assumption.
      destruct (decide (Z.of_nat j ∈ take i indices)) as [Hin|Hnin];
        destruct (decide _) as [Hin'|Hnin']; try reflexivity.
      * exfalso. apply Hnin'. apply elem_of_app. left. assumption.
      * exfalso. apply elem_of_app in Hin' as [Hin'|Hin']; [contradiction|].
        apply list_elem_of_singleton in Hin'. lia.
  - exists v. split; [exact Hloop|]. split; [assumption|].
    split; [lia|]. assumption.
Qed.
End AddressProofs.

Section InitializeProofs.
Context {F : Type} `{FloatOps F}.

Lemma initialize_locations_loop (cfg : SDMConfig F) (w : World F) (k : Z) :
  let N := Z.to_nat (num_locations cfg) in
  let D := Z.to_nat (vector_dim cfg) in
  shuffles_permute w ->
  num_ones cfg (sparsity cfg) = Some k -> k <= vector_dim cfg ->
  exists st,
    for_range (initialize_location cfg) 0 N
      (mkInitState w (replicate N []) (replicate N [])) = Some st /\
    w_sd (is_world st) = w_sd w /\ w_garbage (is_world st) = w_garbage w /\
    length (is_addresses st) = N /\
    Forall (sparse_address D k) (is_addresses st) /\
    is_memory st = replicate N (replicate D 0).
Proof.
  intros N D Hperm Hk HkD.
  destruct (for_range_inv
    (fun i st =>
       w_sd (is_world st) = w_sd w /\ w_garbage (is_world st) = w_garbage w /\
       w_shuffles (is_world st) = w_shuffles w /\
       length (is_addresses st) = N /\ length (is_memory st) = N /\
       (forall j a, (j < i)%nat -> is_addresses st !! j = Some a ->
          sparse_address D k a) /\
       (forall j, (j < i)%nat -> is_memory st !! j = Some (replicate D 0)))
    (initialize_location cfg) 0 N
    (mkInitState w (replicate N []) (replicate N [])))
    as (st & Hloop & Hsd & Hg & _ & Hla & Hlm & Haddr & Hmem).
  - simpl. rewrite !length_replicate. repeat split; try reflexivity; intros; lia.
  - intros i [wi addrs mem] Hi (Hsd & Hg & Hsh & Hla & Hlm & Haddr & Hmem).
    simpl in *.
    destruct (lookup_lt_is_Some_2 addrs i) as [a0 Ha0]; [lia|].
    destruct (lookup_lt_is_Some_2 mem i) as [m0 Hm0]; [lia|].
    unfold initialize_location. cbn [is_addresses is_memory is_world].
    rewrite Ha0, Hm0. cbn [mbind option_bind].
    unfold shuffled_indices. cbn [w_shuffles w_shuffle_calls].
    rewrite list_lookup_insert_eq by lia. cbn [mbind option_bind].
    destruct (generateSparseVector_spec cfg
                (w_shuffles wi (w_shuffle_calls wi) (Z.to_nat (vector_dim cfg)))
                (replicate (Z.to_nat (vector_dim cfg)) 0) (sparsity cfg) k)
      as (v & Hgen & Hvl & Hvc & Hbits); try assumption.
    { rewrite Hsh. apply Hperm. }
    { apply length_replicate. }
    rewrite Hgen. cbn [mbind option_bind]. eexists. split; [reflexivity|].
    cbn [is_addresses is_memory is_world w_sd w_garbage w_shuffles].
    rewrite !length_insert.
    repeat (split; [assumption|]). split.
    + intros j a Hj Ha. destruct (decide (j = i)) as [->|Hne].
      * rewrite list_lookup_insert_eq in Ha by (rewrite length_insert; lia).
        assert (a = v) by congruence. subst a.
        split; [exact Hvl|]. split; [exact Hvc|].
        apply Forall_forall. intros b Hb.
        apply list_elem_of_lookup_1 in Hb as [jb Hjb].
        pose proof (lookup_lt_Some _ _ _ Hjb) as Hlt.
        rewrite Hbits in Hjb by lia.
        destruct (decide _); inversion Hjb; auto.
      * rewrite !list_lookup_insert_ne in Ha by congruence.
        apply (Haddr j a); [lia|assumption].
    + intros j Hj. destruct (decide (j = i)) as [->|Hne].
      * apply list_lookup_insert_eq. lia.
      * rewrite list_lookup_insert_ne by congruence. apply Hmem. lia.
  - exists st. split; [exact Hloop|]. repeat (split; [assumption|]). split.
    + apply Forall_forall. intros a Ha.
      apply list_elem_of_lookup_1 in Ha as [j Hj].
      apply (Haddr j a); [|assumption]. apply lookup_lt_Some in Hj. lia.
    + apply list_eq. intros j. destruct (decide (j < N)%nat) as [Hj|Hj].
      * rewrite Hmem by lia. symmetry. apply lookup_replicate_2. assumption.
      * rewrite !(proj2 (lookup_ge_None _ _)); [reflexivity| |].
        -- rewrite length_replicate. lia.
        -- lia.
Qed.

(** [write] and [read] never touch the addresses. *)
Lemma write_keeps_addresses (s s' : SparseDistributedMemory F) (v : list Z)
    (strength r : Z) :
  write s v strength = Some (s', r) -> addresses s' = addresses s.
Proof.
  unfold write. destruct (negb _); [intros [= <- _]; reflexivity|].
  destruct (for_range _ _ _ _) as [st|]; [|discriminate].
  simpl. intros [= <- _]. reflexivity.
Qed.

Lemma read_keeps_addresses (s s' : SparseDistributedMemory F) (q : list Z)
    (r : list Z * F) :
  read s q = Some (s', r) -> addresses s' = addresses s.
Proof.
  unfold read. destruct (negb _); [intros [= <- _]; reflexivity|].
  destruct (for_range _ _ _ _) as [[acts dists]|]; [|discriminate].
  cbn [mbind option_bind]. destruct (decide _); [intros [= <- _]; reflexivity|].
  destruct (for_range _ _ _ _) as [[total tw]|]; [|discriminate].
  cbn [mbind option_bind].
  destruct (for_range _ _ _ _) as [[out mc]|]; [|discriminate].
  cbn [mbind option_bind]. intros [= <- _]. reflexivity.
Qed.
End InitializeProofs.

(** With exact arithmetic, [num_ones] is [floor(D * s)], and it does not
    exceed [D] when [0 < s <= 1]. *)
Lemma num_ones_exact (cfg : SDMConfig Q) (s : Q) :
  is_uint16 (vector_dim cfg) -> (0 < s <= 1)%Q ->
  num_ones cfg s = Some (Qfloor (inject_Z (vector_dim cfg) * s)) /\
  0 <= Qfloor (inject_Z (vector_dim cfg) * s) <= vector_dim cfg.
Proof.
  unfold is_uint16, UINT16_MAX. intros HD [Hs0 Hs1].
  assert (HDQ : (0 <= inject_Z (vector_dim cfg))%Q)
    by (change 0%Q with (inject_Z 0); rewrite <- Zle_Qle; lia).
  assert (Hq0 : (0 <= inject_Z (vector_dim cfg) * s)%Q)
    by (apply Qmult_le_0_compat; lra).
  assert (Hq1 : (inject_Z (vector_dim cfg) * s <= inject_Z (vector_dim cfg))%Q).
  { apply Qle_trans with (inject_Z (vector_dim cfg) * 1)%Q; [|lra].
    rewrite !(Qmult_comm (inject_Z (vector_dim cfg))).
    apply Qmult_le_compat_r; lra. }
  assert (Hfl : 0 <= Qfloor (inject_Z (vector_dim cfg) * s) <= vector_dim cfg).
  { split.
    - change 0 with (Qfloor 0). apply Qfloor_resp_le. assumption.
    - apply Z.le_trans with (Qfloor (inject_Z (vector_dim cfg)));
        [apply Qfloor_resp_le; assumption|rewrite Qfloor_Z; lia]. }
  split; [|exact Hfl].
  unfold num_ones, f_to_uint16. change (f_to_int ?q) with (ExactQ.to_int q).
  change (f_mul (f_of_int (vector_dim cfg)) s)
    with (inject_Z (vector_dim cfg) * s)%Q.
  rewrite exact_to_int_floor by assumption. cbn [mbind option_bind].
  unfold UINT16_MAX.
  destruct (Z.leb_spec 0 (Qfloor (inject_Z (vector_dim cfg) * s))); [|lia].
  destruct (Z.leb_spec (Qfloor (inject_Z (vector_dim cfg) * s)) 65535); [|lia].
  reflexivity.
Qed.


Lemma blank_world_shuffles : shuffles_permute blank_world.
Proof.
  intros k n. simpl. symmetry. apply Permutation_rev.
Defined.


(** ** The sweeps and the reinforcement column *)

Section Noninterference.
Context {F : Type} `{FloatOps F}.

Lemma for_each_agree {A : Type}
    (b1 b2 : A -> sweep_state -> option sweep_state) (l : list A)
    (st1 st2 : sweep_state) :
  (forall x s1 s2, sweeps_agree (Some s1) (Some s2) ->
                   sweeps_agree (b1 x s1) (b2 x s2)) ->
  sweeps_agree (Some st1) (Some st2) ->
  sweeps_agree (for_each b1 l st1) (for_each b2 l st2).
Proof.
  intros Hb. revert st1 st2. induction l as [|x l IH]; intros st1 st2 Hst.
  - exact Hst.
  - cbn [for_each]. specialize (Hb x st1 st2 Hst).
    destruct (b1 x st1) as [s1|], (b2 x st2) as [s2|];
      cbn [mbind option_bind]; try contradiction; [|exact I].
    apply IH. exact Hb.
Qed.

(** A grid point of the quick sweep: the reinforcement value reaches the
    row and nothing else. *)
Lemma quick_point_agree (dim locations : Z) (factor : F) (r1 r2 : Z)
    (st1 st2 : sweep_state) :
  sweeps_agree (Some st1) (Some st2) ->
  sweeps_agree (quick_point dim locations factor r1 st1)
               (quick_point dim locations factor r2 st2).
Proof.
  destruct st1 as [w1 csv1 bp1 bc1], st2 as [w2 csv2 bp2 bc2].
  intros (Hw & Hcsv & Hbp & Hbc). cbn [sw_world sw_csv sw_best_performance
                                       sw_best_config] in *. subst w2 bp2 bc2.
  unfold quick_point. cbn [sw_world sw_csv].
  destruct (make_test_config dim locations factor) as [tc|];
    cbn [mbind option_bind]; [|exact I].
  destruct (millis w1) as [t0 w0].
  destruct (testConfiguration tc 5 w0) as [[p w3]|];
    cbn [mbind option_bind]; [|exact I].
  destruct (millis w3) as [t1 w4].
  unfold track_best. cbn [sw_best_performance sw_best_config].
  destruct (f_ltb bp1 p); cbn [sweeps_agree sw_world sw_csv sw_best_performance
                                sw_best_config];
    rewrite !map_app, Hcsv; repeat split.
Qed.

Lemma quick_reinforce_loop_agree (dim locations : Z) (factor : F)
    (levels1 levels2 : list Z) (st1 st2 : sweep_state) :
  length levels1 = length levels2 ->
  sweeps_agree (Some st1) (Some st2) ->
  sweeps_agree (quick_reinforce_loop dim locations factor levels1 st1)
               (quick_reinforce_loop dim locations factor levels2 st2).
Proof.
  revert levels2 st1 st2.
  induction levels1 as [|r1 l1 IH]; intros [|r2 l2] st1 st2 Hlen Hst;
    try discriminate.
  - exact Hst.
  - cbn [quick_reinforce_loop].
    pose proof (quick_point_agree dim locations factor r1 r2 st1 st2 Hst) as Hp.
    destruct (quick_point dim locations factor r1 st1) as [[w1 csv1 bp1 bc1]|],
             (quick_point dim locations factor r2 st2) as [[w2 csv2 bp2 bc2]|];
      cbn [mbind option_bind]; try contradiction; [|exact I].
    destruct Hp as (Hw & Hcsv & Hbp & Hbc).
    cbn [sw_world sw_csv sw_best_performance sw_best_config] in *.
    subst w2 bp2 bc2. destruct (getFreeHeap w1) as [heap w3].
    destruct (heap <? 50000).
    + repeat split. exact Hcsv.
    + apply IH; [simpl in Hlen; lia|]. repeat split. exact Hcsv.
Qed.

Lemma comprehensive_point_agree (dim locations required : Z) (factor : F)
    (r1 r2 : Z) (st1 st2 : sweep_state) :
  sweeps_agree (Some st1) (Some st2) ->
  sweeps_agree (comprehensive_point dim locations required factor r1 st1)
               (comprehensive_point dim locations required factor r2 st2).
Proof.
  destruct st1 as [w1 csv1 bp1 bc1], st2 as [w2 csv2 bp2 bc2].
  intros (Hw & Hcsv & Hbp & Hbc). cbn [sw_world sw_csv sw_best_performance
                                       sw_best_config] in *. subst w2 bp2 bc2.
  unfold comprehensive_point. cbn [sw_world sw_csv].
  destruct (make_test_config dim locations factor) as [tc|];
    cbn [mbind option_bind]; [|exact I].
  destruct (millis w1) as [t0 w0].
  destruct (testConfiguration tc 3 w0) as [[p w3]|];
    cbn [mbind option_bind]; [|exact I].
  destruct (millis w3) as [t1 w4]. destruct (getFreeHeap w4) as [heap w5].
  unfold track_best. cbn [sw_best_performance sw_best_config].
  destruct (f_ltb bp1 p); cbn [sweeps_agree sw_world sw_csv sw_best_performance
                                sw_best_config];
    rewrite !map_app, Hcsv; repeat split.
Qed.

Lemma comprehensive_points_agree (dim locations required : Z) (factor : F)
    (levels1 levels2 : list Z) (st1 st2 : sweep_state) :
  length levels1 = length levels2 ->
  sweeps_agree (Some st1) (Some st2) ->
  sweeps_agree
    (for_each (comprehensive_point dim locations required factor) levels1 st1)
    (for_each (comprehensive_point dim locations required factor) levels2 st2).
Proof.
  revert levels2 st1 st2.
  induction levels1 as [|r1 l1 IH]; intros [|r2 l2] st1 st2 Hlen Hst;
    try discriminate.
  - exact Hst.
  - cbn [for_each].
    pose proof (comprehensive_point_agree dim locations required factor
                  r1 r2 st1 st2 Hst) as Hp.
    destruct (comprehensive_point dim locations required factor r1 st1) as [s1|],
             (comprehensive_point dim locations required factor r2 st2) as [s2|];
      cbn [mbind option_bind]; try contradiction; [|exact I].
    apply IH; [simpl in Hlen; lia|exact Hp].
Qed.

Lemma comprehensive_locations_agree (params : BenchmarkParams)
    (levels1 levels2 : list Z) (dim locations : Z) (st1 st2 : sweep_state) :
  length levels1 = length levels2 ->
  sweeps_agree (Some st1) (Some st2) ->
  sweeps_agree
    (comprehensive_locations (with_reinforce_cycles params levels1)
                             dim locations st1)
    (comprehensive_locations (with_reinforce_cycles params levels2)
                             dim locations st2).
Proof.
  intros Hlen. destruct st1 as [w1 csv1 bp1 bc1], st2 as [w2 csv2 bp2 bc2].
  intros (Hw & Hcsv & Hbp & Hbc). cbn [sw_world sw_csv sw_best_performance
                                       sw_best_config] in *. subst w2 bp2 bc2.
  unfold comprehensive_locations.
  cbn [sw_world sw_csv sw_best_performance sw_best_config
       with_reinforce_cycles radius_factors reinforce_cycles].
  destruct (getFreeHeap w1) as [heap w3].
  destruct (_ >? _).
  - repeat split. exact Hcsv.
  - apply for_each_agree; [|repeat split; exact Hcsv].
    intros factor s1 s2. apply comprehensive_points_agree. exact Hlen.
Qed.

(** Committing the log and saving the winner keeps the agreement. *)
Lemma quick_close_agree (st1 st2 : sweep_state) :
  sweeps_agree (Some st1) (Some st2) ->
  erase_logs
    (snd (saveOptimalConfig (sw_best_config st1)
            (set_sd (set_benchmark_results (Some (sw_csv st1))
                       (w_sd (sw_world st1))) (sw_world st1)))) =
  erase_logs
    (snd (saveOptimalConfig (sw_best_config st2)
            (set_sd (set_benchmark_results (Some (sw_csv st2))
                       (w_sd (sw_world st2))) (sw_world st2)))).
Proof.
  destruct st1 as [w1 csv1 bp1 bc1], st2 as [w2 csv2 bp2 bc2].
  intros (Hw & Hcsv & Hbp & Hbc). cbn [sw_world sw_csv sw_best_performance
                                       sw_best_config] in *. subst w2 bp2 bc2.
  unfold saveOptimalConfig, erase_logs. simpl.
  destruct (sd_write_ok (w_sd w1)); simpl; rewrite Hcsv; reflexivity.
Qed.

Lemma comprehensive_close_agree (st1 st2 : sweep_state) :
  sweeps_agree (Some st1) (Some st2) ->
  erase_logs
    (snd (saveOptimalConfig (sw_best_config st1)
            (set_sd (set_comprehensive_benchmark (Some (sw_csv st1))
                       (w_sd (sw_world st1))) (sw_world st1)))) =
  erase_logs
    (snd (saveOptimalConfig (sw_best_config st2)
            (set_sd (set_comprehensive_benchmark (Some (sw_csv st2))
                       (w_sd (sw_world st2))) (sw_world st2)))).
Proof.
  destruct st1 as [w1 csv1 bp1 bc1], st2 as [w2 csv2 bp2 bc2].
  intros (Hw & Hcsv & Hbp & Hbc). cbn [sw_world sw_csv sw_best_performance
                                       sw_best_config] in *. subst w2 bp2 bc2.
  unfold saveOptimalConfig, erase_logs. simpl.
  destruct (sd_write_ok (w_sd w1)); simpl; rewrite Hcsv; reflexivity.
Qed.
End Noninterference.



(** A grid point run twice from the same world, with reinforcement 5 and
    with reinforcement 30 (dimension 32, four locations, radius factor
    0.2): both runs log the match ratio 1.0. *)
Lemma quick_point_same_score :
  logged_scores (quick_point 32 4 (f_lit 2 10) 5 blank_sweep) =
    Some [(5, f_of_int 1)] /\
  logged_scores (quick_point 32 4 (f_lit 2 10) 30 blank_sweep) =
    Some [(30, f_of_int 1)].
Proof. split; vm_compute; reflexivity. Qed.

(** * Further properties of the kernel *)

(** ** Hamming distance *)

Lemma hamming_refl (v : list Z) : hamming v v = 0.
Proof. induction v as [|x v IH]; simpl; [reflexivity|]. rewrite Z.eqb_refl. lia. Qed.

Lemma hamming_zero_eq (v1 v2 : list Z) :
  length v1 = length v2 -> hamming v1 v2 = 0 -> v1 = v2.
Proof.
  revert v2. induction v1 as [|x v1 IH]; intros [|y v2] Hlen Hz;
    try discriminate; [reflexivity|].
  simpl in Hz, Hlen. pose proof (hamming_bounds v1 v2) as Hb.
  destruct (Z.eqb_spec x y) as [->|Hne]; [|lia].
  f_equal. apply IH; [simpl in Hlen; lia|lia].
Qed.

Lemma hamming_triangle (v1 v2 v3 : list Z) :
  length v1 = length v2 -> length v2 = length v3 ->
  hamming v1 v3 <= hamming v1 v2 + hamming v2 v3.
Proof.
  revert v2 v3. induction v1 as [|x v1 IH]; intros [|y v2] [|z v3] H12 H23;
    simpl in *; try lia.
  specialize (IH v2 v3 ltac:(lia) ltac:(lia)).
  destruct (Z.eqb_spec x z), (Z.eqb_spec x y), (Z.eqb_spec y z); lia.
Qed.

(** X1.  On vectors of one length, at most 65535, [hammingDistance] is a
    metric: it is symmetric, lies between 0 and the length, is 0 exactly
    on equal vectors, and obeys the triangle inequality. *)
Theorem hammingDistance_metric (v1 v2 v3 : list Z) :
  length v1 = length v2 -> length v2 = length v3 ->
  Z.of_nat (length v1) <= UINT16_MAX ->
  hammingDistance v1 v2 = hammingDistance v2 v1 /\
  0 <= hammingDistance v1 v2 <= Z.of_nat (length v1) /\
  (hammingDistance v1 v2 = 0 <-> v1 = v2) /\
  hammingDistance v1 v3 <= hammingDistance v1 v2 + hammingDistance v2 v3.
Proof.
  intros H12 H23 Hlen.
  rewrite !hammingDistance_spec by lia.
  split; [apply hamming_sym|]. split; [apply hamming_bounds|]. split.
  - split; [apply hamming_zero_eq; exact H12|intros ->; apply hamming_refl].
  - apply hamming_triangle; assumption.
Qed.

Lemma hammingDistance_metric_witness :
  length [1; 0; 1] = length [0; 0; 1] /\ length [0; 0; 1] = length [0; 1; 1] /\
  Z.of_nat (length [1; 0; 1]) <= UINT16_MAX /\
  hammingDistance [1; 0; 1] [0; 1; 1] <=
    hammingDistance [1; 0; 1] [0; 0; 1] + hammingDistance [0; 0; 1] [0; 1; 1].
Proof.
  assert (Hlen : Z.of_nat (length [1; 0; 1]) <= UINT16_MAX)
    by (unfold UINT16_MAX; simpl; lia).
  split; [reflexivity|]. split; [reflexivity|]. split; [exact Hlen|].
  exact (proj2 (proj2 (proj2 (hammingDistance_metric [1; 0; 1] [0; 0; 1] [0; 1; 1]
                                eq_refl eq_refl Hlen)))).
Defined.

(** ** Which locations a write reaches *)

Section WriteFacts.
Context {F : Type} `{FloatOps F}.

(** An accepted [write] on a well-formed store goes through and returns
    the number of activated locations. *)
Lemma write_run (s : SparseDistributedMemory F) (input : list Z) (strength : Z) :
  store_wf s ->
  Z.of_nat (length input) = vector_dim (config s) ->
  exists s',
    write s input strength =
      Some (s', count_activated (config s) input (addresses s)) /\
    addresses s' = addresses s /\ config s' = config s /\
    total_writes (stats s') = to_uint32 (total_writes (stats s) + 1) /\
    total_reads (stats s') = total_reads (stats s).
Proof.
  intros Hwf Hlen.
  pose proof (wf_vector_dim s Hwf) as HD. pose proof (wf_num_locations s Hwf) as HN.
  unfold is_uint16 in HD, HN.
  destruct (write_locations_loop (config s) (addresses s) input strength
              (memory s) (access_counts s) (Z.to_nat (num_locations (config s))))
    as (st & Hloop & Hact & _);
    [apply (wf_addresses s Hwf)|apply (wf_memory s Hwf)
    |apply (wf_access_counts s Hwf)|lia|exact Hlen|lia
    |apply (wf_memory_dim s Hwf)|].
  unfold write. rewrite Hlen, Z.eqb_refl. cbn [negb]. rewrite Hloop.
  cbn [mbind option_bind]. rewrite Hact.
  eexists. split; [reflexivity|]. cbn. repeat split.
Qed.

Lemma count_activated_ext (cfg : SDMConfig F) (x : list Z)
    (addrs : list (list Z)) (g : list Z -> bool) :
  Forall (fun a => activated cfg x a = g a) addrs ->
  count_activated cfg x addrs = Z.of_nat (length (List.filter g addrs)).
Proof.
  unfold count_activated. induction 1 as [|a addrs Ha _ IH]; [reflexivity|].
  cbn [List.filter]. rewrite Ha. destruct (g a); cbn [length]; lia.
Qed.

Lemma filter_all {A : Type} (l : list A) : List.filter (fun _ => true) l = l.
Proof. induction l as [|a l IH]; [reflexivity|]. cbn. rewrite IH. reflexivity. Qed.

End WriteFacts.

(** X2.  The two ends of the access radius.  With [access_radius = 0] an
    accepted [write] reaches exactly the locations whose address equals
    the input vector, and returns their number; with
    [access_radius >= vector_dim] it reaches every location and returns
    [num_locations]. *)
Theorem write_radius_extremes {F : Type} `{FloatOps F}
    (s : SparseDistributedMemory F) (input : list Z) (strength : Z) :
  store_wf s ->
  Z.of_nat (length input) = vector_dim (config s) ->
  (access_radius (config s) = 0 ->
   exists s', write s input strength =
     Some (s', Z.of_nat (length (List.filter
                 (fun a => bool_decide (a = input)) (addresses s))))) /\
  (vector_dim (config s) <= access_radius (config s) ->
   exists s', write s input strength = Some (s', num_locations (config s))).
Proof.
  intros Hwf Hlen.
  destruct (write_run s input strength Hwf Hlen) as (s' & Hw & _).
  pose proof (wf_address_dim s Hwf) as Hdim.
  pose proof (wf_vector_dim s Hwf) as HD. unfold is_uint16 in HD.
  split; intros HR; exists s'; rewrite Hw; do 2 f_equal.
  - apply count_activated_ext. eapply Forall_impl; [exact Hdim|].
    intros a Ha. cbn beta in Ha. unfold activated. rewrite HR.
    pose proof (hamming_bounds a input) as Hb.
    destruct (bool_decide_reflect (a = input)) as [->|Hne].
    + rewrite hamming_refl. reflexivity.
    + apply Z.leb_gt. destruct (Z.eq_dec (hamming a input) 0) as [Hz|]; [|lia].
      exfalso. apply Hne. apply hamming_zero_eq; [lia|exact Hz].
  - rewrite (count_activated_ext _ _ _ (fun _ => true)).
    + rewrite filter_all, (wf_addresses s Hwf). pose proof (wf_num_locations s Hwf) as HN.
      unfold is_uint16 in HN. lia.
    + eapply Forall_impl; [exact Hdim|]. intros a Ha. cbn beta in Ha.
      unfold activated. apply Z.leb_le. pose proof (hamming_bounds a input). lia.
Qed.

Lemma write_radius_extremes_witness :
  exists s', write (F := spec_float)
               (mkSDM default_stats [[1; 0; 0]; [0; 1; 1]]
                      [[0; 0; 0]; [32767; -32768; 5]] [7; 9]
                      (mkConfig 3 2 3 (f_lit 3 100)))
               [1; 1; 1] 5 = Some (s', 2).
Proof.
  refine (proj2 (write_radius_extremes
            (mkSDM default_stats [[1; 0; 0]; [0; 1; 1]]
                   [[0; 0; 0]; [32767; -32768; 5]] [7; 9]
                   (mkConfig 3 2 3 (f_lit 3 100))) [1; 1; 1] 5 _ _) _).
  - solve_store_wf.
  - reflexivity.
  - cbn. lia.
Defined.

(** X3.  A write never changes which locations a vector reaches: after
    any accepted write of [u], writing [v] returns the count it would have
    returned before, and the store is still well formed. *)
Theorem write_keeps_activation {F : Type} `{FloatOps F}
    (s s1 : SparseDistributedMemory F) (u v : list Z) (ku kv n : Z) :
  store_wf s ->
  0 <= ku <= 255 ->
  Z.of_nat (length v) = vector_dim (config s) ->
  write s u ku = Some (s1, n) ->
  store_wf s1 /\
  exists s2 s2' m,
    write s v kv = Some (s2, m) /\ write s1 v kv = Some (s2', m).
Proof.
  intros Hwf Hku Hv Hw.
  pose proof (write_preserves_wf s s1 u ku n Hwf Hku Hw) as Hwf1.
  split; [exact Hwf1|].
  assert (Hcfg : config s1 = config s /\ addresses s1 = addresses s).
  { split; [|eapply write_keeps_addresses; exact Hw].
    revert Hw. unfold write. destruct (negb _); [intros [= <- _]; reflexivity|].
    destruct (for_range _ _ _ _) as [st|]; [|discriminate].
    cbn [mbind option_bind]. intros [= <- _]. reflexivity. }
  destruct Hcfg as [Hcfg Haddr].
  destruct (write_run s v kv Hwf Hv) as (s2 & Hw2 & _).
  destruct (write_run s1 v kv Hwf1 ltac:(rewrite Hcfg; exact Hv)) as (s2' & Hw2' & _).
  exists s2, s2', (count_activated (config s) v (addresses s)).
  split; [exact Hw2|]. rewrite Hw2', Hcfg, Haddr. reflexivity.
Qed.

Lemma write_keeps_activation_witness :
  exists s1, write demo_store [1; 0; 1] 200 = Some (s1, 1) /\ store_wf s1.
Proof.
  eexists. split; [vm_compute; reflexivity|].
  refine (proj1 (write_keeps_activation demo_store _ [1; 0; 1] [0; 1; 1] 200 1 1
                   demo_store_wf _ _ _)).
  - lia.
  - reflexivity.
  - vm_compute. reflexivity.
Defined.

(** ** Reads leave the memory alone *)

Section ReadFacts.
Context {F : Type} `{FloatOps F}.

Lemma read_frame (s s' : SparseDistributedMemory F) (q : list Z) :
  config s = config s' -> addresses s = addresses s' -> memory s = memory s' ->
  snd <$> read s q = snd <$> read s' q.
Proof.
  destruct s as [st a m c cfg], s' as [st' a' m' c' cfg']. cbn.
  intros -> -> ->. unfold read. cbn.
  destruct (negb _); [reflexivity|].
  destruct (for_range _ _ _ _) as [[acts dists]|]; [|reflexivity].
  cbn. destruct (decide _); [reflexivity|].
  destruct (for_range _ _ _ _) as [[total tw]|]; [|reflexivity].
  cbn. destruct (for_range _ _ _ _) as [[out mc]|]; reflexivity.
Qed.

Lemma read_keeps_store (s s' : SparseDistributedMemory F) (q : list Z)
    (r : list Z * F) :
  read s q = Some (s', r) ->
  config s' = config s /\ addresses s' = addresses s /\
  memory s' = memory s /\ access_counts s' = access_counts s /\
  total_writes (stats s') = total_writes (stats s) /\
  last_activated_locations (stats s') = last_activated_locations (stats s).
Proof.
  unfold read. destruct (negb _); [intros [= <- _]; repeat split|].
  destruct (for_range _ _ _ _) as [[acts dists]|]; [|discriminate].
  cbn [mbind option_bind]. destruct (decide _); [intros [= <- _]; repeat split|].
  destruct (for_range _ _ _ _) as [[total tw]|]; [|discriminate].
  cbn [mbind option_bind].
  destruct (for_range _ _ _ _) as [[out mc]|]; [|discriminate].
  cbn [mbind option_bind]. intros [= <- _]. repeat split.
Qed.

End ReadFacts.

(** X4.  [read] changes nothing but its own statistics: counters, access
    counts, addresses, configuration and the write statistics are as
    before, so every later read returns what it would have returned
    without it; in particular reading the same query twice gives the same
    vector and confidence. *)
Theorem read_only_touches_stats {F : Type} `{FloatOps F}
    (s s1 : SparseDistributedMemory F) (q : list Z) (r : list Z * F) :
  read s q = Some (s1, r) ->
  memory s1 = memory s /\ access_counts s1 = access_counts s /\
  addresses s1 = addresses s /\ config s1 = config s /\
  total_writes (stats s1) = total_writes (stats s) /\
  last_activated_locations (stats s1) = last_activated_locations (stats s) /\
  (forall q', snd <$> read s1 q' = snd <$> read s q') /\
  (exists s2, read s1 q = Some (s2, r)).
Proof.
  intros Hr. destruct (read_keeps_store s s1 q r Hr) as (Hc & Ha & Hm & Hac & Hw & Hl).
  repeat (split; [assumption|]).
  assert (Hfr : forall q', snd <$> read s1 q' = snd <$> read s q')
    by (intros q'; apply read_frame; assumption).
  split; [exact Hfr|].
  specialize (Hfr q). rewrite Hr in Hfr. cbn in Hfr.
  destruct (read s1 q) as [[s2 r2]|]; [|discriminate].
  cbn in Hfr. exists s2. congruence.
Qed.

Lemma read_only_touches_stats_witness :
  exists s1 r, read demo_store [0; 1; 1] = Some (s1, r) /\
               exists s2, read s1 [0; 1; 1] = Some (s2, r).
Proof.
  eexists _, _. split; [vm_compute; reflexivity|].
  refine (proj2 (proj2 (proj2 (proj2 (proj2 (proj2 (proj2
            (read_only_touches_stats demo_store _ [0; 1; 1] _ _)))))))).
  vm_compute. reflexivity.
Defined.

(** ** Saving and loading the state file *)

Lemma to_int16_to_uint16 (m : Z) : is_int16 m -> to_int16 (to_uint16 m) = m.
Proof.
  unfold is_int16, to_int16, to_uint16, INT16_MIN, INT16_MAX. intros Hm.
  rewrite Zplus_mod_idemp_l. rewrite Z.mod_small by lia. lia.
Qed.

Lemma uint16_bytes_join (c : Z) :
  is_uint16 c -> c mod 256 + 256 * ((c / 256) mod 256) = c.
Proof.
  unfold is_uint16, UINT16_MAX. intros Hc.
  rewrite (Z.mod_small (c / 256)).
  - pose proof (Z.div_mod c 256 ltac:(lia)). lia.
  - split; [apply Z.div_pos; lia|apply Z.div_lt_upper_bound; lia].
Qed.

Lemma to_uint16_range (x : Z) : is_uint16 (to_uint16 x).
Proof.
  unfold is_uint16, to_uint16, UINT16_MAX.
  pose proof (Z.mod_pos_bound x 65536 ltac:(lia)). lia.
Qed.

(** Where the two bytes of element [i] sit in a run of 16-bit objects. *)
Lemma lookup_uint16_run {A : Type} (f : A -> Z) (l : list A) (i : nat) (x : A) :
  l !! i = Some x ->
  flat_map (fun y => bytes_of_uint16 (f y)) l !! (2 * i)%nat = Some (f x mod 256) /\
  flat_map (fun y => bytes_of_uint16 (f y)) l !! Datatypes.S (2 * i)
    = Some ((f x / 256) mod 256).
Proof.
  revert i. induction l as [|y l IH]; intros [|i] Hi; try discriminate.
  - injection Hi as ->. split; reflexivity.
  - replace (2 * Datatypes.S i)%nat with (Datatypes.S (Datatypes.S (2 * i))) by lia.
    exact (IH i Hi).
Qed.

Lemma length_uint16_run {A : Type} (f : A -> Z) (l : list A) :
  length (flat_map (fun y => bytes_of_uint16 (f y)) l) = (2 * length l)%nat.
Proof.
  induction l as [|y l IH]; [reflexivity|].
  cbn [flat_map]. rewrite length_app, IH. cbn [bytes_of_uint16 length]. lia.
Qed.

Lemma lookup_uint16s (l : list Z) (i : nat) (x : Z) :
  l !! i = Some x ->
  flat_map bytes_of_uint16 l !! (2 * i)%nat = Some (x mod 256) /\
  flat_map bytes_of_uint16 l !! Datatypes.S (2 * i) = Some ((x / 256) mod 256).
Proof. exact (lookup_uint16_run (fun c => c) l i x). Qed.

Lemma length_uint16s (l : list Z) :
  length (flat_map bytes_of_uint16 l) = (2 * length l)%nat.
Proof. exact (length_uint16_run (fun c => c) l). Qed.

Lemma length_counter_rows (mem : list (list Z)) (D : nat) :
  Forall (fun row => length row = D) mem ->
  length (flat_map counter_bytes mem) = (2 * (length mem * D))%nat.
Proof.
  induction 1 as [|row mem Hrow _ IH]; [reflexivity|].
  cbn [flat_map length]. rewrite length_app, IH. unfold counter_bytes.
  rewrite length_uint16_run, Hrow. lia.
Qed.

Lemma lookup_counter_rows (mem : list (list Z)) (D i j : nat) (row : list Z) (m : Z) :
  Forall (fun row => length row = D) mem ->
  mem !! i = Some row -> row !! j = Some m ->
  flat_map counter_bytes mem !! (2 * (i * D + j))%nat = Some (to_uint16 m mod 256) /\
  flat_map counter_bytes mem !! Datatypes.S (2 * (i * D + j))
    = Some ((to_uint16 m / 256) mod 256).
Proof.
  intros Hdim. revert i. induction Hdim as [|r mem Hr _ IH]; intros [|i] Hi Hj;
    try discriminate.
  - injection Hi as ->. cbn [flat_map Nat.mul Nat.add].
    destruct (lookup_uint16_run to_uint16 row j m Hj) as [Hlo Hhi].
    pose proof (lookup_lt_Some _ _ _ Hj) as Hlt.
    assert (Hlen : length (counter_bytes row) = (2 * D)%nat)
      by (unfold counter_bytes; rewrite length_uint16_run; lia).
    split; (rewrite lookup_app_l; [assumption|lia]).
  - cbn [flat_map].
    assert (Hlen : length (counter_bytes r) = (2 * D)%nat)
      by (unfold counter_bytes; rewrite length_uint16_run; lia).
    destruct (IH i Hi Hj) as [Hlo Hhi].
    split; (rewrite lookup_app_r; [|lia]); rewrite Hlen.
    + replace (2 * (Datatypes.S i * D + j) - 2 * D)%nat with (2 * (i * D + j))%nat
        by lia. exact Hlo.
    + replace (Datatypes.S (2 * (Datatypes.S i * D + j)) - 2 * D)%nat
        with (Datatypes.S (2 * (i * D + j))) by lia. exact Hhi.
Qed.

Lemma save_access_counts_loop (counts file : list Z) :
  for_range (save_access_count counts) 0 (length counts) file =
  Some (file ++ flat_map bytes_of_uint16 counts).
Proof.
  destruct (for_range_inv
              (fun i st => st = file ++ flat_map bytes_of_uint16 (take i counts))
              (save_access_count counts) 0 (length counts) file)
    as (st & Hrun & Hst).
  - cbn. by rewrite app_nil_r.
  - intros i st Hi ->.
    destruct (lookup_lt_is_Some_2 counts i ltac:(lia)) as [c Hc].
    unfold save_access_count. rewrite Hc. cbn [mbind option_bind].
    eexists. split; [reflexivity|].
    rewrite (take_S_r _ _ _ Hc), flat_map_app, app_assoc. cbn [flat_map].
    by rewrite app_nil_r.
  - rewrite Hrun, Hst. cbn [Nat.add]. by rewrite firstn_all.
Qed.

Lemma save_counters_loop (mem : list (list Z)) (i : nat) (row file : list Z) :
  mem !! i = Some row ->
  for_range (save_counter mem i) 0 (length row) file =
  Some (file ++ counter_bytes row).
Proof.
  intros Hrow.
  destruct (for_range_inv
              (fun j st => st = file ++ counter_bytes (take j row))
              (save_counter mem i) 0 (length row) file)
    as (st & Hrun & Hst).
  - cbn. by rewrite app_nil_r.
  - intros j st Hj ->.
    destruct (lookup_lt_is_Some_2 row j ltac:(lia)) as [m Hm].
    unfold save_counter. rewrite Hrow. cbn [mbind option_bind].
    rewrite Hm. cbn [mbind option_bind].
    eexists. split; [reflexivity|]. unfold counter_bytes.
    rewrite (take_S_r _ _ _ Hm), flat_map_app, app_assoc. cbn [flat_map].
    by rewrite app_nil_r.
  - rewrite Hrun, Hst. cbn [Nat.add]. by rewrite firstn_all.
Qed.

Lemma save_rows_loop (mem : list (list Z)) (D : nat) (file : list Z) :
  Forall (fun row => length row = D) mem ->
  for_range (save_row mem D) 0 (length mem) file =
  Some (file ++ flat_map counter_bytes mem).
Proof.
  intros Hdim.
  destruct (for_range_inv
              (fun i st => st = file ++ flat_map counter_bytes (take i mem))
              (save_row mem D) 0 (length mem) file)
    as (st & Hrun & Hst).
  - cbn. by rewrite app_nil_r.
  - intros i st Hi ->.
    destruct (lookup_lt_is_Some_2 mem i ltac:(lia)) as [row Hrow].
    assert (Hlen : length row = D).
    { rewrite Forall_forall in Hdim. apply Hdim.
      eapply list_elem_of_lookup_2. eassumption. }
    unfold save_row. rewrite <- Hlen, (save_counters_loop mem i row _ Hrow).
    eexists. split; [reflexivity|].
    rewrite (take_S_r _ _ _ Hrow), flat_map_app, app_assoc. cbn [flat_map].
    by rewrite app_nil_r.
  - rewrite Hrun, Hst. cbn [Nat.add]. by rewrite firstn_all.
Qed.

Section PersistenceFacts.
Context {F : Type} `{FloatOps F}.

(** What [saveMemoryToSD] leaves on a card that opens for writing. *)
Lemma saveMemoryToSD_run (s : SparseDistributedMemory F) (w : World F) :
  store_wf s -> sd_write_ok (w_sd w) = true ->
  saveMemoryToSD s w =
  Some (true, set_sd (set_memory_file (Some (state_file_bytes s))
                                      (ensure_sdm_dir (w_sd w))) w).
Proof.
  intros Hwf Hok. unfold saveMemoryToSD. cbn [ensure_sdm_dir sd_write_ok].
  rewrite Hok. cbn [negb].
  rewrite <- (wf_access_counts s Hwf), save_access_counts_loop.
  cbn [mbind option_bind].
  rewrite (wf_access_counts s Hwf), <- (wf_memory s Hwf).
  rewrite (save_rows_loop _ _ _ (wf_memory_dim s Hwf)).
  cbn [mbind option_bind]. unfold state_file_bytes. by rewrite <- app_assoc.
Qed.

Lemma state_file_length (s : SparseDistributedMemory F) :
  store_wf s -> length (state_file_bytes s) = payload_length (config s).
Proof.
  intros Hwf. unfold state_file_bytes, payload_length.
  rewrite !length_app, length_uint16s.
  rewrite (length_counter_rows _ _ (wf_memory_dim s Hwf)).
  rewrite (wf_access_counts s Hwf), (wf_memory s Hwf). cbn [bytes_of_uint16 length].
  lia.
Qed.

(** The 16-bit objects a complete state file delivers. *)
Lemma state_file_header (s : SparseDistributedMemory F) (g1 g2 : Z) :
  store_wf s ->
  stored_uint16 (state_file_bytes s) 0 g1 = num_locations (config s) /\
  stored_uint16 (state_file_bytes s) 2 g2 = vector_dim (config s).
Proof.
  intros Hwf. unfold state_file_bytes. split.
  - rewrite (stored_uint16_in_file _ 0 g1 (num_locations (config s) mod 256)
               ((num_locations (config s) / 256) mod 256)); [|reflexivity..].
    apply uint16_bytes_join, (wf_num_locations s Hwf).
  - rewrite (stored_uint16_in_file _ 2 g2 (vector_dim (config s) mod 256)
               ((vector_dim (config s) / 256) mod 256)); [|reflexivity..].
    apply uint16_bytes_join, (wf_vector_dim s Hwf).
Qed.

Lemma state_file_count (s : SparseDistributedMemory F) (i : nat) (c old : Z) :
  store_wf s -> access_counts s !! i = Some c ->
  stored_uint16 (state_file_bytes s) (count_offset i) old = c.
Proof.
  intros Hwf Hc. unfold state_file_bytes, count_offset.
  destruct (lookup_uint16s (access_counts s) i c Hc) as [Hlo Hhi].
  pose proof (lookup_lt_Some _ _ _ Hc) as Hlt.
  pose proof (length_uint16s (access_counts s)) as Hlen.
  rewrite (stored_uint16_in_file _ _ old (c mod 256) ((c / 256) mod 256)).
  - apply uint16_bytes_join.
    pose proof (wf_access_counts_uint16 s Hwf) as Hu. rewrite Forall_forall in Hu.
    apply Hu. eapply list_elem_of_lookup_2. eassumption.
  - rewrite lookup_app_r by (cbn; lia).
    replace (4 + 2 * i - _)%nat with (2 * i)%nat by (cbn; lia).
    rewrite lookup_app_l by lia. exact Hlo.
  - rewrite lookup_app_r by (cbn; lia).
    replace (Datatypes.S (4 + 2 * i) - _)%nat with (Datatypes.S (2 * i))
      by (cbn; lia).
    rewrite lookup_app_l by lia. exact Hhi.
Qed.

Lemma state_file_counter (s : SparseDistributedMemory F) (i j : nat)
    (row : list Z) (m old : Z) :
  store_wf s -> memory s !! i = Some row -> row !! j = Some m ->
  stored_int16 (state_file_bytes s) (counter_offset (config s) i j) old = m.
Proof.
  intros Hwf Hrow Hm. unfold stored_int16, state_file_bytes, counter_offset.
  destruct (lookup_counter_rows _ _ i j row m (wf_memory_dim s Hwf) Hrow Hm)
    as [Hlo Hhi].
  pose proof (length_uint16s (access_counts s)) as Hlen.
  rewrite (wf_access_counts s Hwf) in Hlen.
  set (N := Z.to_nat (num_locations (config s))) in *.
  set (D := Z.to_nat (vector_dim (config s))) in *.
  rewrite (stored_uint16_in_file _ _ _ (to_uint16 m mod 256)
             ((to_uint16 m / 256) mod 256)).
  - rewrite uint16_bytes_join by apply to_uint16_range.
    apply to_int16_to_uint16.
    pose proof (wf_memory_int16 s Hwf) as Hint. rewrite Forall_forall in Hint.
    eapply Forall_forall; [apply Hint|]; eapply list_elem_of_lookup_2; eassumption.
  - rewrite lookup_app_r by (cbn; lia).
    rewrite lookup_app_r by (cbn; lia). rewrite Hlen.
    replace (4 + 2 * N + 2 * (i * D + j) - _ - _)%nat with (2 * (i * D + j))%nat
      by (cbn; lia).
    exact Hlo.
  - rewrite lookup_app_r by (cbn; lia).
    rewrite lookup_app_r by (cbn; lia). rewrite Hlen.
    replace (Datatypes.S (4 + 2 * N + 2 * (i * D + j)) - _ - _)%nat
      with (Datatypes.S (2 * (i * D + j))) by (cbn; lia).
    exact Hhi.
Qed.

(** [loadMemoryFromSD] on a file whose header matches. *)
Lemma loadMemoryFromSD_accepted (sd : SDCard F) (garbage : Z * Z)
    (s : SparseDistributedMemory F) (data : list Z) :
  store_wf s ->
  sd_memory_file sd = Some data -> sd_read_ok sd = true ->
  stored_uint16 data 0 garbage.1 = num_locations (config s) ->
  stored_uint16 data 2 garbage.2 = vector_dim (config s) ->
  exists counts' mem',
    loadMemoryFromSD sd garbage s =
      Some (mkSDM (stats s) (addresses s) mem' counts' (config s), true) /\
    length counts' = length (access_counts s) /\
    length mem' = length (memory s) /\
    (forall i c, access_counts s !! i = Some c ->
       counts' !! i = Some (stored_uint16 data (count_offset i) c)) /\
    (forall i row, memory s !! i = Some row ->
       exists row', mem' !! i = Some row' /\ length row' = length row /\
         forall j m, row !! j = Some m ->
           row' !! j = Some (stored_int16 data (counter_offset (config s) i j) m)).
Proof.
  intros Hwf Hfile Hok HN HD. unfold loadMemoryFromSD.
  rewrite Hfile, Hok. cbn [negb].
  change (mkFile data 0) with (mkFile data (0 `min` length data)).
  rewrite file_read_uint16_at. rewrite file_read_uint16_at.
  cbn [fst snd Nat.add]. rewrite HN, HD, !Z.eqb_refl. cbn [negb orb].
  set (N := Z.to_nat (num_locations (config s))).
  set (D := Z.to_nat (vector_dim (config s))).
  destruct (load_access_counts_loop data (access_counts s) N
              (wf_access_counts s Hwf)) as (counts' & Hc & Hcl & Hcs).
  rewrite Hc. cbn [mbind option_bind].
  destruct (load_rows_loop data (memory s) (4 + 2 * N) N D
              (wf_memory s Hwf) (wf_memory_dim s Hwf)) as (mem' & Hm & Hml & Hms).
  rewrite Hm. cbn [mbind option_bind].
  exists counts', mem'. split; [reflexivity|].
  split; [rewrite (wf_access_counts s Hwf); assumption|].
  split; [rewrite (wf_memory s Hwf); assumption|]. split; [exact Hcs|].
  intros i row Hrow. destruct (Hms i row Hrow) as (row' & Hr' & Hl' & Hupd).
  assert (Hrl : length row = D).
  { pose proof (wf_memory_dim s Hwf) as Hd. rewrite Forall_forall in Hd.
    apply Hd. eapply list_elem_of_lookup_2. eassumption. }
  exists row'. split; [assumption|]. split; [congruence|].
  intros j m Hmj. unfold counter_offset. fold N D. by apply Hupd.
Qed.

(** Loading a complete state file written from [s] into a store [s0] of
    the same configuration. *)
Lemma load_state_file (sd : SDCard F) (garbage : Z * Z)
    (s s0 : SparseDistributedMemory F) :
  store_wf s -> store_wf s0 -> config s0 = config s ->
  sd_memory_file sd = Some (state_file_bytes s) -> sd_read_ok sd = true ->
  loadMemoryFromSD sd garbage s0 =
  Some (mkSDM (stats s0) (addresses s0) (memory s) (access_counts s) (config s0),
        true).
Proof.
  intros Hwf Hwf0 Hcfg Hfile Hok.
  destruct (state_file_header s garbage.1 garbage.2 Hwf) as [HN HD].
  destruct (loadMemoryFromSD_accepted sd garbage s0 _ Hwf0 Hfile Hok
              ltac:(rewrite Hcfg; exact HN) ltac:(rewrite Hcfg; exact HD))
    as (counts' & mem' & Hload & Hcl & Hml & Hcs & Hms).
  rewrite Hload. do 3 f_equal.
  - apply list_eq_same_length with (length (memory s)); [reflexivity| |].
    { rewrite Hml, (wf_memory s0 Hwf0), (wf_memory s Hwf), Hcfg. reflexivity. }
    intros i row' row Hi Hr' Hr.
    destruct (lookup_lt_is_Some_2 (memory s0) i) as [row0 Hr0].
    { rewrite (wf_memory s0 Hwf0), Hcfg, <- (wf_memory s Hwf). exact Hi. }
    destruct (Hms i row0 Hr0) as (row'' & Hr'' & Hl'' & Hupd).
    assert (row'' = row') by congruence. subst row''.
    assert (Hl0 : length row0 = Z.to_nat (vector_dim (config s))).
    { pose proof (wf_memory_dim s0 Hwf0) as Hd. rewrite Forall_forall in Hd.
      rewrite <- Hcfg. apply Hd. eapply list_elem_of_lookup_2. eassumption. }
    assert (Hl : length row = Z.to_nat (vector_dim (config s))).
    { pose proof (wf_memory_dim s Hwf) as Hd. rewrite Forall_forall in Hd.
      apply Hd. eapply list_elem_of_lookup_2. eassumption. }
    apply list_eq_same_length with (length row); [reflexivity|congruence|].
    intros j x y Hj Hx Hy.
    destruct (lookup_lt_is_Some_2 row0 j ltac:(lia)) as [m0 Hm0].
    rewrite (Hupd j m0 Hm0) in Hx. rewrite Hcfg in Hx.
    rewrite (state_file_counter s i j row y m0 Hwf Hr Hy) in Hx. congruence.
  - apply list_eq_same_length with (length (access_counts s)); [reflexivity| |].
    { rewrite Hcl, (wf_access_counts s0 Hwf0), (wf_access_counts s Hwf), Hcfg.
      reflexivity. }
    intros i x y Hi Hx Hy.
    destruct (lookup_lt_is_Some_2 (access_counts s0) i) as [c0 Hc0].
    { rewrite (wf_access_counts s0 Hwf0), Hcfg, <- (wf_access_counts s Hwf).
      exact Hi. }
    rewrite (Hcs i c0 Hc0), (state_file_count s i y c0 Hwf Hy) in Hx. congruence.
Qed.

End PersistenceFacts.

(** X5.  The state file round-trips.  On a card that opens,
    [saveMemoryToSD] of a well-formed store writes a file of exactly
    [4 + 2N + 2ND] bytes, and [loadMemoryFromSD] of that file into any
    well-formed store of the same configuration succeeds and restores
    every counter and every access count, keeping the addresses and the
    statistics of the store it loads into. *)
Theorem state_file_roundtrip {F : Type} `{FloatOps F}
    (s s0 : SparseDistributedMemory F) (w : World F) (garbage : Z * Z) :
  store_wf s -> store_wf s0 -> config s0 = config s ->
  sd_write_ok (w_sd w) = true -> sd_read_ok (w_sd w) = true ->
  exists w' data s1,
    saveMemoryToSD s w = Some (true, w') /\
    sd_memory_file (w_sd w') = Some data /\
    length data = payload_length (config s) /\
    loadMemoryFromSD (w_sd w') garbage s0 = Some (s1, true) /\
    memory s1 = memory s /\ access_counts s1 = access_counts s /\
    addresses s1 = addresses s0 /\ stats s1 = stats s0 /\ config s1 = config s0.
Proof.
  intros Hwf Hwf0 Hcfg Hwr Hrd.
  eexists _, _, _. split; [apply saveMemoryToSD_run; assumption|].
  split; [reflexivity|]. split; [apply state_file_length; assumption|].
  split; [apply (load_state_file _ garbage s s0); try assumption; reflexivity|].
  repeat split.
Qed.

Lemma state_file_roundtrip_witness :
  exists w' s1,
    saveMemoryToSD demo_store blank_world = Some (true, w') /\
    loadMemoryFromSD (w_sd w') (0, 0)
      (mkSDM default_stats [[1; 0; 0]; [0; 1; 1]] [[0; 0; 0]; [0; 0; 0]] [0; 0]
             (config demo_store)) = Some (s1, true) /\
    memory s1 = memory demo_store /\ access_counts s1 = access_counts demo_store.
Proof.
  destruct (state_file_roundtrip demo_store
              (mkSDM default_stats [[1; 0; 0]; [0; 1; 1]] [[0; 0; 0]; [0; 0; 0]]
                     [0; 0] (config demo_store))
              blank_world (0, 0) demo_store_wf ltac:(solve_store_wf)
              eq_refl eq_refl eq_refl)
    as (w' & data & s1 & Hs & _ & _ & Hl & Hm & Hc & _).
  exists w', s1. repeat split; assumption.
Defined.

(** ** Saving everything, restarting, loading everything *)

Section RestartFacts.
Context {F : Type} `{FloatOps F}.

Lemma saved_document_holds (c : SDMConfig F) (timestamp : Z) :
  document_holds (config_document c timestamp) c.
Proof. repeat split. Qed.

(** [loadConfig] on a document that holds a configuration adopts it. *)
Lemma loadConfig_holds (sd : SDCard F) (s : SparseDistributedMemory F)
    (doc : JsonDocument F) (c : SDMConfig F) :
  sd_config_file sd = Some (Some doc) -> sd_read_ok sd = true ->
  document_holds doc c -> config_wf c ->
  loadConfig sd s =
  (mkSDM (stats s) (addresses s) (memory s) (access_counts s) c, true).
Proof.
  intros Hfile Hok (Hd & Hn & Hr & Hs) (Hwd & Hwn & Hwr).
  unfold loadConfig. rewrite Hfile, Hok. cbn [negb].
  cbn [vector_dim num_locations access_radius sparsity].
  unfold json_uint16_or, json_float_or. rewrite Hd, Hn, Hr, Hs.
  unfold is_uint16 in *. destruct c as [d n r sp]. cbn in *.
  repeat match goal with
         | |- context [?a <=? ?b] => destruct (Z.leb_spec a b); [|lia]
         end.
  reflexivity.
Qed.

(** Whatever the card holds, [loadMemoryFromSD] leaves the configuration,
    the addresses and the statistics alone. *)
Lemma loadMemoryFromSD_frame (sd : SDCard F) (garbage : Z * Z)
    (s s' : SparseDistributedMemory F) (ok : bool) :
  loadMemoryFromSD sd garbage s = Some (s', ok) ->
  config s' = config s /\ addresses s' = addresses s /\ stats s' = stats s.
Proof.
  unfold loadMemoryFromSD.
  destruct (sd_memory_file sd) as [data|]; [|intros [= <- _]; repeat split].
  destruct (negb _); [intros [= <- _]; repeat split|].
  destruct (file_read_uint16 _ _) as [f1 n1].
  destruct (file_read_uint16 _ _) as [f2 n2].
  destruct (_ || _); [intros [= <- _]; repeat split|].
  destruct (for_range _ _ _ _) as [[f3 counts]|]; [|discriminate].
  cbn [mbind option_bind].
  destruct (for_range _ _ _ _) as [[f4 mem]|]; [|discriminate].
  cbn [mbind option_bind]. intros [= <- _]. repeat split.
Qed.

Lemma initialize_config (s0 s1 : SparseDistributedMemory F) (w w1 : World F)
    (ok : bool) :
  initialize s0 w = Some (s1, ok, w1) ->
  config s1 = config (fst (loadConfig (w_sd w) s0)).
Proof.
  unfold initialize. destruct (loadConfig (w_sd w) s0) as [s okc].
  cbn [fst]. destruct (for_range _ _ _ _) as [st|]; [|discriminate].
  cbn [mbind option_bind].
  destruct (loadMemoryFromSD _ _ _) as [[s2 ok2]|] eqn:Hload; [|discriminate].
  cbn [mbind option_bind]. intros [= <- _ _].
  apply loadMemoryFromSD_frame in Hload. apply Hload.
Qed.

(** What [saveToSD] leaves on a card that opens for writing. *)
Lemma saveToSD_run (s : SparseDistributedMemory F) (w : World F) :
  store_wf s -> sd_write_ok (w_sd w) = true ->
  exists w' now,
    saveToSD s w = Some (true, w') /\
    sd_config_file (w_sd w') = Some (Some (config_document (config s) now)) /\
    sd_memory_file (w_sd w') = Some (state_file_bytes s) /\
    sd_read_ok (w_sd w') = sd_read_ok (w_sd w) /\
    w_shuffles w' = w_shuffles w.
Proof.
  intros Hwf Hok. unfold saveToSD, saveConfig, millis.
  cbn [w_sd]. rewrite Hok. cbn [negb andb].
  rewrite saveMemoryToSD_run by (try assumption; cbn; assumption).
  cbn [mbind option_bind]. unfold saveStatsToSD, millis.
  cbn [w_sd set_sd set_memory_file ensure_sdm_dir set_config_file sd_write_ok].
  rewrite Hok. cbn [negb andb].
  eexists _, _. split; [reflexivity|]. cbn. repeat split.
Qed.

End RestartFacts.

(** X6.  The configuration on the card wins over the constructor's.
    Once a well-formed store has been destroyed on a card that opens (the
    destructor calls [saveToSD]), [loadConfig] of any other store replaces
    that store's configuration by the destroyed store's, without touching
    its vectors, and [initialize] of any later store, whatever
    configuration it was constructed with, ends with the destroyed
    store's configuration. *)
Theorem saved_configuration_overrides {F : Type} `{FloatOps F}
    (s : SparseDistributedMemory F) (w : World F) :
  store_wf s ->
  sd_write_ok (w_sd w) = true -> sd_read_ok (w_sd w) = true ->
  exists w',
    destroy s w = Some w' /\
    forall s0 : SparseDistributedMemory F,
      loadConfig (w_sd w') s0 =
        (mkSDM (stats s0) (addresses s0) (memory s0) (access_counts s0)
               (config s), true) /\
      forall s1 ok w1, initialize s0 w' = Some (s1, ok, w1) -> config s1 = config s.
Proof.
  intros Hwf Hwr Hrd.
  destruct (saveToSD_run s w Hwf Hwr) as (w' & now & Hsave & Hcfg & _ & Hrd' & _).
  exists w'. unfold destroy. rewrite Hsave. split; [reflexivity|]. intros s0.
  assert (Hload : loadConfig (w_sd w') s0 =
                  (mkSDM (stats s0) (addresses s0) (memory s0) (access_counts s0)
                         (config s), true)).
  { apply (loadConfig_holds _ _ _ _ Hcfg); [congruence|apply saved_document_holds|].
    split; [apply (wf_vector_dim s Hwf)|].
    split; [apply (wf_num_locations s Hwf)|apply (wf_access_radius s Hwf)]. }
  split; [exact Hload|]. intros s1 ok w1 Hinit.
  apply initialize_config in Hinit. rewrite Hload in Hinit. exact Hinit.
Qed.

Lemma saved_configuration_overrides_witness :
  exists w',
    destroy demo_store blank_world = Some w' /\
    config (fst (loadConfig (w_sd w')
                   (mkSDM default_stats [] [] [] default_config)))
    = config demo_store.
Proof.
  destruct (saved_configuration_overrides demo_store blank_world demo_store_wf
              eq_refl eq_refl) as (w' & Hd & Hall).
  exists w'. split; [exact Hd|].
  rewrite (proj1 (Hall (mkSDM default_stats [] [] [] default_config))).
  reflexivity.
Defined.

(** X7.  [saveToSD] then [loadFromSD].  On a card that opens, saving a
    well-formed store succeeds, and loading into a well-formed store of
    the same configuration (the live store after further reads and writes,
    say) succeeds and restores every counter and access count; addresses
    and statistics stay those of the store loaded into. *)
Theorem save_then_load_restores {F : Type} `{FloatOps F}
    (s s0 : SparseDistributedMemory F) (w : World F) (garbage : Z * Z) :
  store_wf s -> store_wf s0 -> config s0 = config s ->
  sd_write_ok (w_sd w) = true -> sd_read_ok (w_sd w) = true ->
  exists w',
    saveToSD s w = Some (true, w') /\
    loadFromSD (w_sd w') garbage s0 =
      Some (mkSDM (stats s0) (addresses s0) (memory s) (access_counts s)
                  (config s), true).
Proof.
  intros Hwf Hwf0 Hcfg0 Hwr Hrd.
  destruct (saveToSD_run s w Hwf Hwr) as (w' & now & Hsave & Hcfg & Hmem & Hrd' & _).
  exists w'. split; [exact Hsave|]. unfold loadFromSD.
  rewrite (loadConfig_holds _ _ _ (config s) Hcfg);
    [|congruence|apply saved_document_holds|].
  - assert (Hwf1 : store_wf (mkSDM (stats s0) (addresses s0) (memory s0)
                                   (access_counts s0) (config s)))
      by (destruct Hwf0; rewrite Hcfg0 in *; constructor; assumption).
    rewrite (load_state_file _ garbage s _ Hwf Hwf1 eq_refl Hmem) by congruence.
    reflexivity.
  - split; [apply (wf_vector_dim s Hwf)|].
    split; [apply (wf_num_locations s Hwf)|apply (wf_access_radius s Hwf)].
Qed.

Lemma save_then_load_restores_witness :
  exists w' s1,
    saveToSD demo_store blank_world = Some (true, w') /\
    loadFromSD (w_sd w') (0, 0)
      (mkSDM default_stats [[1; 0; 0]; [0; 1; 1]] [[9; 9; 9]; [-9; -9; -9]] [1; 1]
             (config demo_store)) = Some (s1, true) /\
    memory s1 = memory demo_store.
Proof.
  destruct (save_then_load_restores demo_store
              (mkSDM default_stats [[1; 0; 0]; [0; 1; 1]] [[9; 9; 9]; [-9; -9; -9]]
                     [1; 1] (config demo_store))
              blank_world (0, 0) demo_store_wf ltac:(solve_store_wf)
              eq_refl eq_refl eq_refl) as (w' & Hs & Hl).
  exists w'. eexists. split; [exact Hs|]. split; [exact Hl|]. reflexivity.
Defined.

(** X8.  Restart.  After a well-formed store has been destroyed on a card
    that opens, [initialize] of a new store, whatever it was constructed
    with, succeeds and brings back the configuration, every counter and
    every access count of the destroyed store.  The addresses are not
    brought back: they are drawn anew, each with [k] ones; and the
    statistics are those of the new store, the saved ones are never
    read. *)
Theorem restart_restores_counters {F : Type} `{FloatOps F}
    (s s0 : SparseDistributedMemory F) (w : World F) (k : Z) :
  store_wf s ->
  sd_write_ok (w_sd w) = true -> sd_read_ok (w_sd w) = true ->
  shuffles_permute w ->
  num_ones (config s) (sparsity (config s)) = Some k ->
  k <= vector_dim (config s) ->
  exists w' s1 w1,
    destroy s w = Some w' /\
    initialize s0 w' = Some (s1, true, w1) /\
    config s1 = config s /\ memory s1 = memory s /\
    access_counts s1 = access_counts s /\ stats s1 = stats s0 /\
    length (addresses s1) = Z.to_nat (num_locations (config s)) /\
    Forall (sparse_address (Z.to_nat (vector_dim (config s))) k) (addresses s1).
Proof.
  intros Hwf Hwr Hrd Hperm Hk HkD.
  destruct (saveToSD_run s w Hwf Hwr)
    as (w' & now & Hsave & Hcfg & Hmem & Hrd' & Hsh).
  exists w'. unfold destroy. rewrite Hsave. cbn [mbind option_bind].
  assert (Hperm' : shuffles_permute w').
  { intros i n. rewrite Hsh. apply Hperm. }
  destruct (initialize_locations_loop (config s) w' k Hperm' Hk HkD)
    as (st & Hloop & Hsd & Hg & Hla & Haddr & Hmem0).
  unfold initialize.
  rewrite (loadConfig_holds _ s0 _ (config s) Hcfg);
    [|congruence|apply saved_document_holds|].
  2:{ split; [apply (wf_vector_dim s Hwf)|].
      split; [apply (wf_num_locations s Hwf)|apply (wf_access_radius s Hwf)]. }
  cbn [config stats]. rewrite Hloop. cbn [mbind option_bind].
  set (s2 := mkSDM (stats s0) (is_addresses st) (is_memory st)
                   (replicate (Z.to_nat (num_locations (config s))) 0) (config s)).
  assert (Hwf2 : store_wf s2).
  { constructor; unfold s2; cbn [config addresses memory access_counts];
      try assumption.
    - apply (wf_vector_dim s Hwf).
    - apply (wf_num_locations s Hwf).
    - apply (wf_access_radius s Hwf).
    - eapply Forall_impl; [exact Haddr|]. intros a (Hl & _). exact Hl.
    - rewrite Hmem0. apply length_replicate.
    - rewrite Hmem0. apply Forall_replicate. apply length_replicate.
    - rewrite Hmem0. apply Forall_replicate. apply Forall_replicate.
      unfold is_int16, INT16_MIN, INT16_MAX. lia.
    - apply length_replicate.
    - apply Forall_replicate. unfold is_uint16, UINT16_MAX. lia. }
  rewrite (load_state_file (w_sd (is_world st)) (w_garbage (is_world st)) s s2
             Hwf Hwf2 eq_refl); [|rewrite Hsd; exact Hmem|rewrite Hsd; congruence].
  cbn [mbind option_bind]. eexists _, _. split; [reflexivity|].
  split; [reflexivity|]. cbn [config memory access_counts stats addresses s2].
  repeat split; assumption.
Qed.

Lemma restart_restores_counters_witness :
  exists w' s1 w1,
    destroy demo_store blank_world = Some w' /\
    initialize (mkSDM default_stats [] [] [] default_config) w'
      = Some (s1, true, w1) /\
    memory s1 = memory demo_store.
Proof.
  destruct (restart_restores_counters demo_store
              (mkSDM default_stats [] [] [] default_config) blank_world 0
              demo_store_wf eq_refl eq_refl blank_world_shuffles)
    as (w' & s1 & w1 & Hd & Hi & _ & Hm & _).
  - vm_compute. reflexivity.
  - vm_compute. discriminate.
  - exists w', s1, w1. repeat split; assumption.
Defined.

(** ** The store [initialize] builds *)

Lemma stored_uint16_range (data : list Z) (p : nat) (old : Z) :
  Forall is_uint8 data -> stored_uint16 data p old >= 0 /\
  stored_uint16 data p old <= UINT16_MAX.
Proof.
  intros Hdata. unfold stored_uint16.
  assert (Hb : Forall is_uint8 (take 2 (drop p data)))
    by (apply Forall_take, Forall_drop, Hdata).
  pose proof (length_take_le (drop p data) 2) as Hlen.
  assert (Hl : (length (take 2 (drop p data)) <= 2)%nat)
    by (rewrite length_take; lia).
  clear Hlen.
  pose proof (Z.mod_pos_bound old 256 ltac:(lia)) as H1.
  pose proof (Z.mod_pos_bound (old / 256) 256 ltac:(lia)) as H2.
  destruct (take 2 (drop p data)) as [|b1 [|b2 [|b3 l]]];
    unfold overwrite, bytes_of_uint16, UINT16_MAX; cbn in *.
  - lia.
  - inversion Hb as [|? ? Hb1 _]; subst. unfold is_uint8 in Hb1. lia.
  - inversion Hb as [|? ? Hb1 Hb']; subst. inversion Hb' as [|? ? Hb2 _]; subst.
    unfold is_uint8 in Hb1, Hb2. lia.
  - lia.
Qed.

Lemma stored_int16_range (data : list Z) (p : nat) (old : Z) :
  is_int16 (stored_int16 data p old).
Proof.
  unfold stored_int16, to_int16, is_int16, INT16_MIN, INT16_MAX.
  pose proof (Z.mod_pos_bound (stored_uint16 data p (to_uint16 old) + 32768) 65536
                ltac:(lia)). lia.
Qed.

Section InitializeFacts.
Context {F : Type} `{FloatOps F}.

(** Loading keeps a store well formed, whatever the file holds. *)
Lemma loadMemoryFromSD_preserves_wf (sd : SDCard F) (garbage : Z * Z)
    (s : SparseDistributedMemory F) :
  store_wf s -> card_holds_bytes sd ->
  exists s' ok,
    loadMemoryFromSD sd garbage s = Some (s', ok) /\ store_wf s' /\
    stats s' = stats s /\
    (sd_memory_file sd = None -> s' = s).
Proof.
  intros Hwf Hbytes.
  destruct (sd_memory_file sd) as [data|] eqn:Hfile.
  2:{ exists s, false. unfold loadMemoryFromSD. rewrite Hfile.
      split; [reflexivity|]. split; [exact Hwf|]. split; reflexivity. }
  specialize (Hbytes data Hfile).
  destruct (sd_read_ok sd) eqn:Hok.
  2:{ exists s, false. unfold loadMemoryFromSD. rewrite Hfile, Hok.
      split; [reflexivity|]. split; [exact Hwf|]. split; [reflexivity|discriminate]. }
  destruct (Z.eq_dec (stored_uint16 data 0 garbage.1) (num_locations (config s)))
    as [HN|HN].
  2:{ exists s, false. unfold loadMemoryFromSD. rewrite Hfile, Hok. cbn [negb].
      change (mkFile data 0) with (mkFile data (0 `min` length data)).
      rewrite file_read_uint16_at. rewrite file_read_uint16_at.
      apply Z.eqb_neq in HN. rewrite HN. cbn [negb orb].
      split; [reflexivity|]. split; [exact Hwf|]. split; [reflexivity|discriminate]. }
  destruct (Z.eq_dec (stored_uint16 data 2 garbage.2) (vector_dim (config s)))
    as [HD|HD].
  2:{ exists s, false. unfold loadMemoryFromSD. rewrite Hfile, Hok. cbn [negb].
      change (mkFile data 0) with (mkFile data (0 `min` length data)).
      rewrite file_read_uint16_at. rewrite file_read_uint16_at.
      cbn [Nat.add]. apply Z.eqb_neq in HD. rewrite HD.
      rewrite orb_true_r.
      split; [reflexivity|]. split; [exact Hwf|]. split; [reflexivity|discriminate]. }
  destruct (loadMemoryFromSD_accepted sd garbage s data Hwf Hfile Hok HN HD)
    as (counts' & mem' & Hload & Hcl & Hml & Hcs & Hms).
  eexists _, true. split; [exact Hload|]. split; [|split; [reflexivity|discriminate]].
  constructor; cbn [config addresses memory access_counts].
  - apply (wf_vector_dim s Hwf).
  - apply (wf_num_locations s Hwf).
  - apply (wf_access_radius s Hwf).
  - apply (wf_addresses s Hwf).
  - apply (wf_address_dim s Hwf).
  - rewrite Hml. apply (wf_memory s Hwf).
  - apply Forall_lookup. intros i row' Hr'.
    destruct (lookup_lt_is_Some_2 (memory s) i) as [row Hrow].
    { rewrite <- Hml. eapply lookup_lt_Some. eassumption. }
    destruct (Hms i row Hrow) as (row'' & Hr'' & Hl'' & _).
    assert (row'' = row') by congruence. subst row''. rewrite Hl''.
    pose proof (wf_memory_dim s Hwf) as Hd. rewrite Forall_forall in Hd.
    apply Hd. eapply list_elem_of_lookup_2. eassumption.
  - apply Forall_lookup. intros i row' Hr'.
    destruct (lookup_lt_is_Some_2 (memory s) i) as [row Hrow].
    { rewrite <- Hml. eapply lookup_lt_Some. eassumption. }
    destruct (Hms i row Hrow) as (row'' & Hr'' & Hl'' & Hupd).
    assert (row'' = row') by congruence. subst row''.
    apply Forall_lookup. intros j m' Hm'.
    destruct (lookup_lt_is_Some_2 row j) as [m Hm].
    { rewrite <- Hl''. eapply lookup_lt_Some. eassumption. }
    rewrite (Hupd j m Hm) in Hm'. injection Hm' as <-. apply stored_int16_range.
  - rewrite Hcl. apply (wf_access_counts s Hwf).
  - apply Forall_lookup. intros i c' Hc'.
    destruct (lookup_lt_is_Some_2 (access_counts s) i) as [c Hc].
    { rewrite <- Hcl. eapply lookup_lt_Some. eassumption. }
    rewrite (Hcs i c Hc) in Hc'. injection Hc' as <-.
    pose proof (stored_uint16_range data (count_offset i) c Hbytes).
    unfold is_uint16. lia.
Qed.

End InitializeFacts.

Section InitializeRun.
Context {F : Type} `{FloatOps F}.

(** A run of [initialize]: the configuration is the one [loadConfig]
    leaves, the store is well formed, the card is as before. *)
Lemma initialize_run (s0 : SparseDistributedMemory F) (w : World F) (k : Z) :
  let cfg := config (fst (loadConfig (w_sd w) s0)) in
  shuffles_permute w ->
  card_holds_bytes (w_sd w) ->
  config_wf cfg ->
  num_ones cfg (sparsity cfg) = Some k ->
  k <= vector_dim cfg ->
  exists s w',
    initialize s0 w = Some (s, true, w') /\
    store_wf s /\ config s = cfg /\ stats s = stats s0 /\
    w_sd w' = w_sd w /\
    Forall (sparse_address (Z.to_nat (vector_dim cfg)) k) (addresses s) /\
    (sd_memory_file (w_sd w) = None ->
     memory s = replicate (Z.to_nat (num_locations cfg))
                          (replicate (Z.to_nat (vector_dim cfg)) 0) /\
     access_counts s = replicate (Z.to_nat (num_locations cfg)) 0).
Proof.
  intros cfg Hperm Hbytes (HwD & HwN & HwR) Hk HkD.
  destruct (initialize_locations_loop cfg w k Hperm Hk HkD)
    as (st & Hloop & Hsd & Hg & Hla & Haddr & Hmem).
  assert (Hstats : stats (fst (loadConfig (w_sd w) s0)) = stats s0).
  { unfold loadConfig. destruct (sd_config_file _) as [[doc|]|]; try reflexivity;
      destruct (negb _); reflexivity. }
  unfold initialize. destruct (loadConfig (w_sd w) s0) as [s1 okc] eqn:Hcfg.
  cbn [fst] in cfg, Hstats. fold cfg. rewrite Hloop. cbn [mbind option_bind].
  set (s2 := mkSDM (stats s1) (is_addresses st) (is_memory st)
                   (replicate (Z.to_nat (num_locations cfg)) 0) cfg).
  assert (Hwf : store_wf s2).
  { constructor; unfold s2; cbn [config addresses memory access_counts];
      try assumption.
    - eapply Forall_impl; [exact Haddr|]. intros a (Hl & _). exact Hl.
    - rewrite Hmem. apply length_replicate.
    - rewrite Hmem. apply Forall_replicate. apply length_replicate.
    - rewrite Hmem. apply Forall_replicate. apply Forall_replicate.
      unfold is_int16, INT16_MIN, INT16_MAX. lia.
    - apply length_replicate.
    - apply Forall_replicate. unfold is_uint16, UINT16_MAX. lia. }
  destruct (loadMemoryFromSD_preserves_wf (w_sd (is_world st))
              (w_garbage (is_world st)) s2 Hwf ltac:(rewrite Hsd; exact Hbytes))
    as (s3 & ok & Hl & Hwf3 & Hst3 & Hnone).
  rewrite Hl. cbn [mbind option_bind]. exists s3, (is_world st).
  split; [reflexivity|]. split; [exact Hwf3|].
  split; [apply loadMemoryFromSD_frame in Hl; apply Hl|].
  split; [rewrite Hst3; exact Hstats|]. split; [exact Hsd|].
  split; [apply loadMemoryFromSD_frame in Hl as (_ & -> & _); exact Haddr|].
  intros Hfile. rewrite Hsd in Hnone. rewrite (Hnone Hfile).
  unfold s2. cbn [memory access_counts]. split; [exact Hmem|reflexivity].
Qed.

End InitializeRun.

(** X9.  [initialize] builds a well-formed store: [num_locations]
    addresses, counter rows and access counts, every row [vector_dim]
    long, every counter inside [int16_t] and every access count inside
    [uint16_t], whatever state file the card holds.  Its statistics are
    those it was constructed with, and without a state file every counter
    and every access count is zero. *)
Theorem initialize_well_formed {F : Type} `{FloatOps F}
    (s0 : SparseDistributedMemory F) (w : World F) (k : Z) :
  let cfg := config (fst (loadConfig (w_sd w) s0)) in
  shuffles_permute w ->
  card_holds_bytes (w_sd w) ->
  config_wf cfg ->
  num_ones cfg (sparsity cfg) = Some k ->
  k <= vector_dim cfg ->
  exists s w',
    initialize s0 w = Some (s, true, w') /\
    store_wf s /\ stats s = stats s0 /\
    (sd_memory_file (w_sd w) = None ->
     memory s = replicate (Z.to_nat (num_locations cfg))
                          (replicate (Z.to_nat (vector_dim cfg)) 0) /\
     access_counts s = replicate (Z.to_nat (num_locations cfg)) 0).
Proof.
  intros cfg Hperm Hbytes Hcfg Hk HkD.
  destruct (initialize_run s0 w k Hperm Hbytes Hcfg Hk HkD)
    as (s & w' & Hinit & Hwf & _ & Hstats & _ & _ & Hfresh).
  exists s, w'. split; [exact Hinit|]. split; [exact Hwf|].
  split; [exact Hstats|exact Hfresh].
Qed.

Lemma initialize_well_formed_witness :
  exists s w', initialize fresh_store blank_world = Some (s, true, w') /\ store_wf s.
Proof.
  destruct (initialize_well_formed fresh_store blank_world 3 blank_world_shuffles)
    as (s & w' & Hi & Hwf & _).
  - intros data Hd. discriminate Hd.
  - unfold config_wf, is_uint16, UINT16_MAX. cbn. lia.
  - vm_compute. reflexivity.
  - vm_compute. discriminate.
  - exists s, w'. split; assumption.
Defined.

(** ** Text encoder *)

Lemma for_range_ext {S : Type} (body1 body2 : nat -> S -> option S)
    (lo n : nat) (s : S) :
  (forall i st, (lo <= i < lo + n)%nat -> body1 i st = body2 i st) ->
  for_range body1 lo n s = for_range body2 lo n s.
Proof.
  revert lo s. induction n as [|n IH]; intros lo s Hext; [reflexivity|].
  cbn [for_range]. rewrite Hext by lia.
  destruct (body2 lo s) as [s1|]; [|reflexivity].
  cbn [mbind option_bind]. apply IH. intros i st Hi. apply Hext. lia.
Qed.

Lemma set_bit_run (n : nat) (v : list Z) :
  (n < length v)%nat -> set_bit n v = Some (<[n := 1]> v).
Proof.
  intros Hn. unfold set_bit.
  destruct (lookup_lt_is_Some_2 v n Hn) as [x ->]. reflexivity.
Qed.

Lemma count_ones_nonneg (v : list Z) : 0 <= count_ones v.
Proof. unfold count_ones. lia. Qed.

Lemma count_ones_lookup (v : list Z) (n : nat) :
  v !! n = Some 1 -> 1 <= count_ones v.
Proof.
  unfold count_ones. revert n. induction v as [|x v IH]; intros [|n] Hn;
    try discriminate.
  - injection Hn as ->. cbn. lia.
  - specialize (IH n Hn). cbn [List.filter]. destruct (1 =? x); cbn [length]; lia.
Qed.

(** Setting a bit of a bit vector adds at most one to the number of
    ones. *)
Lemma count_ones_set (v : list Z) (n : nat) :
  Forall (fun b => b = 0 \/ b = 1) v -> (n < length v)%nat ->
  count_ones v <= count_ones (<[n := 1]> v) <= count_ones v + 1.
Proof.
  intros Hbits Hn. destruct (lookup_lt_is_Some_2 v n Hn) as [x Hx].
  assert (Hb : x = 0 \/ x = 1).
  { rewrite Forall_forall in Hbits. apply Hbits.
    eapply list_elem_of_lookup_2. eassumption. }
  destruct Hb as [-> | ->].
  - rewrite count_ones_insert by assumption. lia.
  - rewrite list_insert_id by assumption. lia.
Qed.

Lemma bits_set (v : list Z) (n : nat) :
  Forall (fun b => b = 0 \/ b = 1) v ->
  Forall (fun b => b = 0 \/ b = 1) (<[n := 1]> v).
Proof.
  intros Hbits. destruct (decide (n < length v)%nat) as [Hn|Hn].
  - apply Forall_insert; [assumption|]. right. reflexivity.
  - rewrite list_insert_ge by lia. assumption.
Qed.

Lemma lookup_set_one (v : list Z) (n j : nat) :
  (n < length v)%nat ->
  <[n := 1]> v !! j = Some 1 <-> j = n \/ v !! j = Some 1.
Proof.
  intros Hn. destruct (decide (j = n)) as [->|Hne].
  - rewrite list_lookup_insert_eq by assumption. tauto.
  - rewrite list_lookup_insert_ne by congruence. split; [tauto|].
    intros [?|?]; [contradiction|assumption].
Qed.

Section TextEncoderFacts.
Context {F : Type}.
Variable cfg : SDMConfig F.
Hypothesis dim_range : 1 <= vector_dim cfg <= UINT16_MAX.

Lemma text_hash_mod (c : Z) (i : nat) (a b : Z) :
  0 <= c -> 0 <= a -> 0 <= b ->
  text_hash cfg c i a b = (c * a + Z.of_nat i * b) mod vector_dim cfg /\
  0 <= text_hash cfg c i a b < vector_dim cfg.
Proof.
  intros Hc Ha Hb. unfold text_hash, to_uint16, UINT16_MAX in *.
  rewrite Z.rem_mod_nonneg by nia.
  pose proof (Z.mod_pos_bound (c * a + Z.of_nat i * b) (vector_dim cfg) ltac:(lia)).
  rewrite Z.mod_small by lia. split; [reflexivity|lia].
Qed.

(** One round of the loop: three bits are set. *)
Lemma encode_char_run (text : list Z) (i : nat) (c : Z) (v : list Z) :
  text !! i = Some c -> 0 <= c ->
  length v = Z.to_nat (vector_dim cfg) ->
  let h1 := Z.to_nat ((c * 17 + Z.of_nat i * 31) mod vector_dim cfg) in
  let h2 := Z.to_nat ((c * 23 + Z.of_nat i * 47) mod vector_dim cfg) in
  let h3 := Z.to_nat ((c * 41 + Z.of_nat i * 53) mod vector_dim cfg) in
  encode_char cfg text i v = Some (<[h3 := 1]> (<[h2 := 1]> (<[h1 := 1]> v))) /\
  (h1 < length v)%nat /\ (h2 < length v)%nat /\ (h3 < length v)%nat.
Proof.
  intros Hc Hc0 Hlen h1 h2 h3.
  destruct (text_hash_mod c i 17 31 Hc0 ltac:(lia) ltac:(lia)) as [E1 B1].
  destruct (text_hash_mod c i 23 47 Hc0 ltac:(lia) ltac:(lia)) as [E2 B2].
  destruct (text_hash_mod c i 41 53 Hc0 ltac:(lia) ltac:(lia)) as [E3 B3].
  rewrite E1 in B1. rewrite E2 in B2. rewrite E3 in B3.
  assert (H1 : (h1 < length v)%nat) by (unfold h1; lia).
  assert (H2 : (h2 < length v)%nat) by (unfold h2; lia).
  assert (H3 : (h3 < length v)%nat) by (unfold h3; lia).
  split; [|auto]. unfold encode_char. rewrite Hc. cbn [mbind option_bind].
  destruct (Z.eqb_spec (vector_dim cfg) 0) as [Hz|_]; [lia|].
  rewrite E1, E2, E3. fold h1 h2 h3.
  rewrite set_bit_run by assumption. cbn [mbind option_bind].
  rewrite set_bit_run by (rewrite length_insert; assumption).
  cbn [mbind option_bind].
  rewrite set_bit_run by (rewrite !length_insert; assumption). reflexivity.
Qed.

Lemma encodeText_loop (text : list Z) (n : nat) :
  Forall (fun c => 0 <= c) text -> (n <= length text)%nat ->
  exists v,
    for_range (encode_char cfg text) 0 n
      (replicate (Z.to_nat (vector_dim cfg)) 0) = Some v /\
    length v = Z.to_nat (vector_dim cfg) /\
    Forall (fun b => b = 0 \/ b = 1) v /\
    count_ones v <= 3 * Z.of_nat n /\
    forall j, v !! j = Some 1 <->
      exists i c, (i < n)%nat /\ text !! i = Some c /\
        (Z.of_nat j = (c * 17 + Z.of_nat i * 31) mod vector_dim cfg \/
         Z.of_nat j = (c * 23 + Z.of_nat i * 47) mod vector_dim cfg \/
         Z.of_nat j = (c * 41 + Z.of_nat i * 53) mod vector_dim cfg).
Proof.
  intros Hchars Hn.
  destruct (for_range_inv
    (fun k v =>
       length v = Z.to_nat (vector_dim cfg) /\
       Forall (fun b => b = 0 \/ b = 1) v /\
       count_ones v <= 3 * Z.of_nat k /\
       forall j, v !! j = Some 1 <->
         exists i c, (i < k)%nat /\ text !! i = Some c /\
           (Z.of_nat j = (c * 17 + Z.of_nat i * 31) mod vector_dim cfg \/
            Z.of_nat j = (c * 23 + Z.of_nat i * 47) mod vector_dim cfg \/
            Z.of_nat j = (c * 41 + Z.of_nat i * 53) mod vector_dim cfg))
    (encode_char cfg text) 0 n (replicate (Z.to_nat (vector_dim cfg)) 0))
    as (v & Hrun & Hv).
  - split; [apply length_replicate|].
    split; [apply Forall_replicate; left; reflexivity|].
    split; [rewrite count_ones_zeros; lia|].
    intros j. split.
    + intros Hj. apply lookup_replicate in Hj. destruct Hj as [Hj _]. discriminate.
    + intros (i & c & Hi & _). lia.
  - intros k v Hk (Hlen & Hbits & Hcount & Hchar).
    destruct (lookup_lt_is_Some_2 text k ltac:(lia)) as [c Hc].
    assert (Hc0 : 0 <= c).
    { rewrite Forall_forall in Hchars. apply Hchars.
      eapply list_elem_of_lookup_2. eassumption. }
    destruct (encode_char_run text k c v Hc Hc0 Hlen) as (Hstep & H1 & H2 & H3).
    rewrite Hstep. eexists. split; [reflexivity|].
    set (h1 := Z.to_nat ((c * 17 + Z.of_nat k * 31) mod vector_dim cfg)) in *.
    set (h2 := Z.to_nat ((c * 23 + Z.of_nat k * 47) mod vector_dim cfg)) in *.
    set (h3 := Z.to_nat ((c * 41 + Z.of_nat k * 53) mod vector_dim cfg)) in *.
    split; [rewrite !length_insert; exact Hlen|].
    split; [do 3 apply bits_set; exact Hbits|].
    split.
    + pose proof (count_ones_set v h1 Hbits H1).
      pose proof (count_ones_set (<[h1 := 1]> v) h2 (bits_set _ _ Hbits)
                    ltac:(rewrite length_insert; exact H2)).
      pose proof (count_ones_set (<[h2 := 1]> (<[h1 := 1]> v)) h3
                    (bits_set _ _ (bits_set _ _ Hbits))
                    ltac:(rewrite !length_insert; exact H3)).
      lia.
    + intros j.
      rewrite lookup_set_one by (rewrite !length_insert; exact H3).
      rewrite lookup_set_one by (rewrite length_insert; exact H2).
      rewrite lookup_set_one by exact H1. rewrite Hchar.
      pose proof (Z.mod_pos_bound (c * 17 + Z.of_nat k * 31) (vector_dim cfg)
                    ltac:(lia)).
      pose proof (Z.mod_pos_bound (c * 23 + Z.of_nat k * 47) (vector_dim cfg)
                    ltac:(lia)).
      pose proof (Z.mod_pos_bound (c * 41 + Z.of_nat k * 53) (vector_dim cfg)
                    ltac:(lia)).
      split.
      * intros [Hj|[Hj|[Hj|(i & c' & Hi & Hc' & Hj)]]].
        -- exists k, c. split; [lia|]. split; [exact Hc|]. right. right.
           subst j. unfold h3. lia.
        -- exists k, c. split; [lia|]. split; [exact Hc|]. right. left.
           subst j. unfold h2. lia.
        -- exists k, c. split; [lia|]. split; [exact Hc|]. left.
           subst j. unfold h1. lia.
        -- exists i, c'. split; [lia|]. split; assumption.
      * intros (i & c' & Hi & Hc' & Hj).
        destruct (decide (i = k)) as [->|Hne].
        -- assert (c' = c) by congruence. subst c'.
           destruct Hj as [Hj|[Hj|Hj]].
           ++ right. right. left. unfold h1. lia.
           ++ right. left. unfold h2. lia.
           ++ left. unfold h3. lia.
        -- right. right. right. exists i, c'. split; [lia|]. split; assumption.
  - exists v. split; [exact Hrun|]. exact Hv.
Qed.

End TextEncoderFacts.

(** X10.  [encodeText] on a text of character codes 0..255, for
    [1 <= vector_dim <= 65535]: the result has [vector_dim] elements, all
    bits; bit [j] is set exactly when [j] is one of the three hashed
    positions [(c*17 + i*31) mod D], [(c*23 + i*47) mod D],
    [(c*41 + i*53) mod D] of a character [c] at an index [i] below 32; at
    most three bits are set per encoded character, at least one when the
    text is not empty; and characters from the 33rd on are ignored. *)
Theorem encodeText_spec {F : Type} (cfg : SDMConfig F) (text : list Z) :
  1 <= vector_dim cfg <= UINT16_MAX ->
  Forall (fun c => 0 <= c <= 255) text ->
  exists v,
    encodeText cfg text = Some v /\
    length v = Z.to_nat (vector_dim cfg) /\
    Forall (fun b => b = 0 \/ b = 1) v /\
    (forall j, v !! j = Some 1 <-> hashed_position cfg text j) /\
    count_ones v <= 3 * Z.min (Z.of_nat (length text)) 32 /\
    (text <> [] -> 1 <= count_ones v) /\
    encodeText cfg (take 32 text) = Some v.
Proof.
  intros HD Hchars.
  assert (Hchars' : Forall (fun c => 0 <= c) text)
    by (eapply Forall_impl; [exact Hchars|]; intros c Hc; cbn beta in Hc; lia).
  set (n := Nat.min (length text) (Z.to_nat sequence_length)).
  assert (Hn32 : (n <= 32)%nat) by (unfold n, sequence_length; lia).
  destruct (encodeText_loop cfg HD text n Hchars' ltac:(unfold n; lia))
    as (v & Hrun & Hlen & Hbits & Hcount & Hchar).
  assert (Hpos : forall j, v !! j = Some 1 <-> hashed_position cfg text j).
  { intros j. rewrite Hchar. unfold hashed_position.
    split; intros (i & c & Hi & Hc & Hj); exists i, c.
    - split; [lia|]. split; assumption.
    - split; [|split; assumption].
      pose proof (lookup_lt_Some _ _ _ Hc). unfold n, sequence_length. lia. }
  exists v. split; [exact Hrun|]. split; [exact Hlen|]. split; [exact Hbits|].
  split; [exact Hpos|].
  split; [unfold n, sequence_length in Hcount; lia|]. split.
  - intros Hne. destruct text as [|c text']; [contradiction|].
    pose proof (Z.mod_pos_bound (c * 17 + Z.of_nat 0 * 31) (vector_dim cfg)
                  ltac:(lia)) as Hb.
    apply (count_ones_lookup v
             (Z.to_nat ((c * 17 + Z.of_nat 0 * 31) mod vector_dim cfg))).
    apply Hpos. exists 0%nat, c. split; [lia|]. split; [reflexivity|].
    left. lia.
  - unfold encodeText. rewrite length_take.
    replace (Nat.min (Nat.min 32 (length text)) (Z.to_nat sequence_length))
      with n by (unfold n, sequence_length; lia).
    rewrite <- Hrun. apply for_range_ext. intros i st Hi.
    unfold encode_char. rewrite lookup_take_lt by lia. reflexivity.
Qed.

Lemma encodeText_spec_witness :
  exists v,
    encodeText (default_config (F := spec_float)) [72; 105] = Some v /\
    count_ones v <= 6.
Proof.
  destruct (encodeText_spec (default_config (F := spec_float)) [72; 105])
    as (v & He & _ & _ & _ & Hc & _).
  - cbn. unfold UINT16_MAX. lia.
  - repeat constructor; lia.
  - exists v. split; [exact He|]. exact Hc.
Defined.

Lemma fold_count_set (v : list Z) (a : Z) :
  0 <= a < 65536 -> fold_left count_set v a = to_uint16 (a + count_nonzero v).
Proof.
  unfold count_nonzero. revert a. induction v as [|b v IH]; intros a Ha.
  - cbn. unfold to_uint16. rewrite Z.add_0_r, Z.mod_small by lia. reflexivity.
  - cbn [fold_left List.filter]. unfold count_set at 2.
    destruct (b =? 0); cbn [negb].
    + apply IH. exact Ha.
    + rewrite IH by (unfold to_uint16; apply Z.mod_pos_bound; lia).
      cbn [length]. unfold to_uint16. rewrite Zplus_mod_idemp_l. f_equal. lia.
Qed.

Lemma count_nonzero_Permutation (v v' : list Z) :
  Permutation v v' -> count_nonzero v = count_nonzero v'.
Proof.
  unfold count_nonzero. intros Hp. f_equal.
  induction Hp as [|x l l' _ IH|x y l|l l' l'' _ IH1 _ IH2]; cbn [List.filter].
  - reflexivity.
  - destruct (negb _); cbn [length]; congruence.
  - destruct (negb (x =? 0)), (negb (y =? 0)); reflexivity.
  - congruence.
Qed.

Lemma list_ascii_of_string_app (s1 s2 : string) :
  Stdlib.Strings.String.list_ascii_of_string (s1 +:+ s2) =
  Stdlib.Strings.String.list_ascii_of_string s1
  ++ Stdlib.Strings.String.list_ascii_of_string s2.
Proof.
  induction s1 as [|c s1 IH]; [reflexivity|].
  change (c :: Stdlib.Strings.String.list_ascii_of_string (s1 +:+ s2) =
          c :: (Stdlib.Strings.String.list_ascii_of_string s1
                ++ Stdlib.Strings.String.list_ascii_of_string s2)).
  f_equal. exact IH.
Qed.

Lemma string_app_inv_tail (s1 s2 t : string) : s1 +:+ t = s2 +:+ t -> s1 = s2.
Proof.
  intros Heq. apply (f_equal Stdlib.Strings.String.list_ascii_of_string) in Heq.
  rewrite !list_ascii_of_string_app in Heq. apply app_inv_tail in Heq.
  rewrite <- (Stdlib.Strings.String.string_of_list_ascii_of_string s1),
          <- (Stdlib.Strings.String.string_of_list_ascii_of_string s2).
  by rewrite Heq.
Qed.

(** X11.  [decodeText] does not recover a text: it prints the number of
    non-zero bytes of the vector, modulo 2^16, between two fixed words.
    It returns the same string for any reordering of the vector, and two
    vectors get the same string exactly when they have the same number of
    non-zero bytes modulo 2^16. *)
Theorem decodeText_counts_only (v v' : list Z) :
  decodeText v = "Decoded_" +:+ pretty (to_uint16 (count_nonzero v)) +:+ "_bits" /\
  (Permutation v v' -> decodeText v = decodeText v') /\
  (decodeText v = decodeText v' <->
   to_uint16 (count_nonzero v) = to_uint16 (count_nonzero v')).
Proof.
  assert (Hd : forall u, decodeText u =
            "Decoded_" +:+ pretty (to_uint16 (count_nonzero u)) +:+ "_bits").
  { intros u. unfold decodeText. rewrite fold_count_set by lia. reflexivity. }
  split; [apply Hd|]. split.
  - intros Hp. rewrite !Hd, (count_nonzero_Permutation v v' Hp). reflexivity.
  - rewrite !Hd. split.
    + intros Heq. apply (inj (String.append "Decoded_")) in Heq.
      apply string_app_inv_tail in Heq. apply (inj pretty) in Heq. exact Heq.
    + intros ->. reflexivity.
Qed.

(** ** Scalar decoder *)

(** The scan of [decodeFloat] ends on the index of the last element equal
    to 1, or on its initial value when there is none. *)
Lemma highest_bit_from_last (v : list Z) (i h : Z) :
  ((forall j, v !! j <> Some 1) /\ highest_bit_from i h v = h) \/
  (exists k : nat, highest_bit_from i h v = i + Z.of_nat k /\
     v !! k = Some 1 /\ forall j, (k < j)%nat -> v !! j <> Some 1).
Proof.
  revert i h. induction v as [|x v IH]; intros i h.
  - left. split; [intros j; rewrite lookup_nil; discriminate|reflexivity].
  - cbn [highest_bit_from].
    destruct (IH (i + 1) (if x =? 1 then i else h)) as [[Hno Hr]|(k & Hr & Hk & Hlast)].
    + destruct (Z.eqb_spec x 1) as [->|Hx].
      * right. exists 0%nat. rewrite Hr. split; [lia|]. split; [reflexivity|].
        intros [|j] Hj; [lia|]. apply Hno.
      * left. split; [|exact Hr]. intros [|j]; [|apply Hno].
        cbn. congruence.
    + right. exists (Datatypes.S k). rewrite Hr. split; [lia|].
      split; [exact Hk|]. intros [|j] Hj; [lia|]. apply Hlast. lia.
Qed.

(** X12.  [decodeFloat] looks at one thing only, the index [h] of the last
    byte equal to 1 (0 when there is none): it returns
    [min_val + h/(D-1) * (max_val - min_val)].  So it returns the same
    value for the vector and for the thermometer code with bits 0..h set,
    and a vector without any 1 decodes like the code of [min_val]. *)
Theorem decodeFloat_reads_last_one {F : Type} `{FloatOps F}
    (cfg : SDMConfig F) (v : list Z) (min_val max_val : F) :
  Z.of_nat (length v) <= UINT16_MAX ->
  exists h : nat,
    (h < Nat.max 1 (length v))%nat /\
    (v !! h = Some 1 \/ (h = 0%nat /\ forall j, v !! j <> Some 1)) /\
    (forall j, (h < j)%nat -> v !! j <> Some 1) /\
    decodeFloat cfg v min_val max_val =
      f_add min_val
        (f_mul (f_div (f_of_int (Z.of_nat h)) (f_of_int (vector_dim cfg - 1)))
               (f_sub max_val min_val)) /\
    decodeFloat cfg v min_val max_val =
      decodeFloat cfg (replicate (Datatypes.S h) 1
                       ++ replicate (length v - Datatypes.S h) 0)
                  min_val max_val.
Proof.
  intros _. unfold decodeFloat.
  destruct (highest_bit_from_last v 0 0) as [[Hno Hr]|(k & Hr & Hk & Hlast)].
  - exists 0%nat. rewrite Hr. split; [lia|]. split; [right; split; [reflexivity|exact Hno]|].
    split; [intros j _; apply Hno|]. split; [reflexivity|].
    rewrite highest_bit_thermometer by lia. reflexivity.
  - exists k. rewrite Hr, Z.add_0_l. pose proof (lookup_lt_Some _ _ _ Hk).
    split; [lia|]. split; [left; exact Hk|]. split; [exact Hlast|].
    split; [reflexivity|].
    rewrite highest_bit_thermometer by lia.
    replace (Z.of_nat (Datatypes.S k) - 1) with (Z.of_nat k) by lia. reflexivity.
Qed.

Lemma decodeFloat_reads_last_one_witness :
  exists h : nat,
    (h < 8)%nat /\
    decodeFloat dim8_config [1; 0; 1; 0; 0; 0; 0; 0] default_min_val default_max_val =
    decodeFloat dim8_config
      (replicate (Datatypes.S h) 1 ++ replicate (8 - Datatypes.S h) 0)
      default_min_val default_max_val.
Proof.
  destruct (decodeFloat_reads_last_one dim8_config [1; 0; 1; 0; 0; 0; 0; 0]
              default_min_val default_max_val) as (h & Hh & _ & _ & _ & He).
  - unfold UINT16_MAX. cbn. lia.
  - exists h. split; [exact Hh|exact He].
Defined.

(** ** The test vectors of the benchmark *)

Lemma insert_found_Permutation (l : list Z) (j : nat) (a b : Z) :
  l !! j = Some b -> Permutation (b :: <[j := a]> l) (a :: l).
Proof.
  revert j. induction l as [|x l IH]; intros [|j] Hj; try discriminate.
  - injection Hj as ->. apply perm_swap.
  - change (<[Datatypes.S j := a]> (x :: l)) with (x :: <[j := a]> l).
    etransitivity; [apply perm_swap|]. etransitivity; [|apply perm_swap].
    apply perm_skip. apply IH. exact Hj.
Qed.

(** Exchanging two elements of a list gives a permutation of it. *)
Lemma exchange_Permutation (l : list Z) (i j : nat) (a b : Z) :
  (i <= j)%nat -> l !! i = Some a -> l !! j = Some b ->
  Permutation (<[j := a]> (<[i := b]> l)) l.
Proof.
  revert i j. induction l as [|x l IH]; intros [|i] [|j] Hij Hi Hj;
    try discriminate; try lia.
  - injection Hi as ->. injection Hj as ->. reflexivity.
  - injection Hi as ->.
    change (<[Datatypes.S j := a]> (<[0%nat := b]> (a :: l)))
      with (b :: <[j := a]> l).
    apply insert_found_Permutation. exact Hj.
  - change (<[Datatypes.S j := a]> (<[Datatypes.S i := b]> (x :: l)))
      with (x :: <[j := a]> (<[i := b]> l)).
    apply perm_skip. apply IH; [lia|exact Hi|exact Hj].
Qed.

Section TestVector.
Context {F : Type} `{FloatOps F}.

(** The partial shuffle that draws a test vector: after [n] rounds [n]
    distinct positions are set, whatever [random] returns. *)
Lemma draw_test_bits_loop (cfg : SDMConfig F) (w : World F) (n : nat) :
  let D := Z.to_nat (vector_dim cfg) in
  vector_dim cfg <= UINT16_MAX -> (n <= D)%nat ->
  exists indices v,
    for_range (draw_test_bit cfg) 0 n
      (map Z.of_nat (seq 0 D), replicate D 0, w)
      = Some (indices, v, advance_random n w) /\
    Permutation indices (map Z.of_nat (seq 0 D)) /\
    length v = D /\ count_ones v = Z.of_nat n /\
    forall j, (j < D)%nat ->
      v !! j = Some (if decide (Z.of_nat j ∈ take n indices) then 1 else 0).
Proof.
  intros D HD Hn.
  destruct (for_range_inv
    (fun i st =>
       Permutation st.1.1 (map Z.of_nat (seq 0 D)) /\
       length st.1.2 = D /\ count_ones st.1.2 = Z.of_nat i /\
       st.2 = advance_random i w /\
       forall j, (j < D)%nat ->
         st.1.2 !! j = Some (if decide (Z.of_nat j ∈ take i st.1.1) then 1 else 0))
    (draw_test_bit cfg) 0 n (map Z.of_nat (seq 0 D), replicate D 0, w))
    as ([[indices v] w'] & Hrun & Hperm & Hlen & Hcount & Hw & Hbits).
  - cbn [fst snd]. split; [reflexivity|]. split; [apply length_replicate|].
    split; [apply count_ones_zeros|]. split; [destruct w; reflexivity|].
    intros j Hj. rewrite lookup_replicate_2 by assumption.
    destruct (decide _) as [Hin|_]; [|reflexivity]. cbn in Hin. inversion Hin.
  - intros i [[indices v] wi] Hi (Hperm & Hlen & Hcount & Hw & Hbits).
    cbn [fst snd] in *. subst wi.
    assert (Hil : length indices = D).
    { rewrite (Permutation_length Hperm), length_map, length_seq. reflexivity. }
    unfold draw_test_bit, random.
    set (r := if vector_dim cfg - Z.of_nat i =? 0 then 0
              else to_uint32 (w_raw_random (advance_random i w)
                               (w_random_calls (advance_random i w)))
                   mod (vector_dim cfg - Z.of_nat i)).
    assert (Hr : 0 <= r < vector_dim cfg - Z.of_nat i).
    { unfold r. destruct (Z.eqb_spec (vector_dim cfg - Z.of_nat i) 0); [lia|].
      apply Z.mod_pos_bound. lia. }
    assert (Hswap : to_uint16 (r + Z.of_nat i) = r + Z.of_nat i).
    { unfold to_uint16, UINT16_MAX in *. apply Z.mod_small. lia. }
    rewrite Hswap.
    set (sw := Z.to_nat (r + Z.of_nat i)).
    assert (Hsw : (i <= sw < D)%nat) by (unfold sw; lia).
    destruct (lookup_lt_is_Some_2 indices i ltac:(lia)) as [a Ha].
    destruct (lookup_lt_is_Some_2 indices sw ltac:(lia)) as [b Hb].
    rewrite Ha. cbn [mbind option_bind]. rewrite Hb. cbn [mbind option_bind].
    set (indices' := <[sw := a]> (<[i := b]> indices)).
    assert (Hidx : indices' !! i = Some b).
    { unfold indices'. destruct (decide (sw = i)) as [->|Hne].
      - assert (a = b) by congruence. subst a.
        apply list_lookup_insert_eq. rewrite length_insert. lia.
      - rewrite list_lookup_insert_ne by congruence.
        apply list_lookup_insert_eq. lia. }
    rewrite Hidx. cbn [mbind option_bind].
    destruct (shuffled_lookup indices D sw b Hperm Hb) as [Hbr Hbn].
    assert (Hbi : b ∉ take i indices).
    { intros Hin. apply Hbn.
      apply list_elem_of_lookup_1 in Hin as [j Hj].
      pose proof (lookup_lt_Some _ _ _ Hj) as Hlt. rewrite length_take in Hlt.
      rewrite lookup_take_lt in Hj by lia.
      apply (list_elem_of_lookup_2 _ j). rewrite lookup_take_lt by lia. exact Hj. }
    assert (Hvb : v !! Z.to_nat b = Some 0).
    { rewrite Hbits by lia. rewrite Z2Nat.id by lia.
      destruct (decide _); [contradiction|reflexivity]. }
    rewrite Hvb. cbn [mbind option_bind].
    eexists. split; [reflexivity|]. cbn [fst snd].
    assert (Htake : take i indices' = take i indices).
    { unfold indices'. rewrite take_insert_ge by lia.
      apply take_insert_ge. lia. }
    split; [unfold indices'; etransitivity;
            [apply (exchange_Permutation indices i sw a b); [lia|assumption..]
            |exact Hperm]|].
    split; [rewrite length_insert; exact Hlen|].
    split; [rewrite count_ones_insert by assumption; lia|].
    split; [reflexivity|].
    intros j Hj. rewrite (take_S_r _ _ _ Hidx), Htake.
    destruct (decide (j = Z.to_nat b)) as [->|Hne].
    + rewrite list_lookup_insert_eq by lia. rewrite Z2Nat.id by lia.
      destruct (decide _) as [_|Hnin]; [reflexivity|].
      exfalso. apply Hnin. apply elem_of_app. right. apply list_elem_of_singleton.
      reflexivity.
    + rewrite list_lookup_insert_ne by congruence. rewrite Hbits by assumption.
      destruct (decide (Z.of_nat j ∈ take i indices)) as [Hin|Hnin];
        destruct (decide _) as [Hin'|Hnin']; try reflexivity.
      * exfalso. apply Hnin'. apply elem_of_app. left. assumption.
      * exfalso. apply elem_of_app in Hin' as [Hin'|Hin']; [contradiction|].
        apply list_elem_of_singleton in Hin'. lia.
  - cbn [fst snd] in *. subst w'. exists indices, v.
    split; [exact Hrun|]. split; [exact Hperm|]. split; [exact Hlen|].
    split; [exact Hcount|exact Hbits].
Qed.

End TestVector.

(** X13.  The test vector of a benchmark trial.  Whatever [random]
    returns, the partial shuffle of [testConfiguration] never indexes out
    of range and leaves a vector of [vector_dim] bits with exactly
    [min(num_ones, vector_dim)] ones; it draws [random] once per one and
    touches nothing else of the environment. *)
Theorem test_vector_has_num_ones {F : Type} `{FloatOps F}
    (cfg : SDMConfig F) (w : World F) (num_ones : Z) :
  0 <= vector_dim cfg <= UINT16_MAX -> 0 <= num_ones ->
  let D := Z.to_nat (vector_dim cfg) in
  let n := Z.to_nat (Z.min num_ones (vector_dim cfg)) in
  exists indices v,
    for_range (draw_test_bit cfg) 0 n
      (map Z.of_nat (seq 0 D), replicate D 0, w)
      = Some (indices, v, advance_random n w) /\
    length v = D /\ Forall (fun b => b = 0 \/ b = 1) v /\
    count_ones v = Z.min num_ones (vector_dim cfg).
Proof.
  intros HD Hk D n.
  destruct (draw_test_bits_loop cfg w n ltac:(lia) ltac:(unfold n; lia))
    as (indices & v & Hrun & _ & Hlen & Hcount & Hbits).
  exists indices, v. split; [exact Hrun|]. split; [exact Hlen|].
  split; [|unfold n in Hcount; lia].
  apply Forall_lookup. intros j b Hb.
  pose proof (lookup_lt_Some _ _ _ Hb) as Hj. fold D in Hlen.
  rewrite Hbits in Hb by lia. destruct (decide _); injection Hb as <-; auto.
Qed.

Lemma test_vector_has_num_ones_witness :
  exists indices v,
    for_range (draw_test_bit dim8_config) 0 3
      (map Z.of_nat (seq 0 8), replicate 8 0, blank_world)
      = Some (indices, v, advance_random 3 blank_world) /\
    count_ones v = 3.
Proof.
  destruct (test_vector_has_num_ones dim8_config blank_world 3)
    as (indices & v & Hrun & _ & _ & Hc).
  - cbn. unfold UINT16_MAX. lia.
  - lia.
  - exists indices, v. split; [exact Hrun|exact Hc].
Defined.

(** ** The persisted optimum *)

Section OptimalConfigFacts.
Context {F : Type} `{FloatOps F}.

Lemma safe_default_config_wf : config_wf (safe_default_config (F := F)).
Proof. unfold config_wf, is_uint16, UINT16_MAX. cbn. lia. Qed.

(** What [saveOptimalConfig] does to the card. *)
Lemma saveOptimalConfig_card (c : SDMConfig F) (w : World F) :
  let w' := snd (saveOptimalConfig c w) in
  sd_read_ok (w_sd w') = sd_read_ok (w_sd w) /\
  sd_write_ok (w_sd w') = sd_write_ok (w_sd w) /\
  (if sd_write_ok (w_sd w)
   then exists doc, sd_optimal_config_file (w_sd w') = Some (Some doc) /\
                    document_holds doc c
   else sd_optimal_config_file (w_sd w') = sd_optimal_config_file (w_sd w)).
Proof.
  unfold saveOptimalConfig, millis. cbn [w_sd fst snd].
  destruct (sd_write_ok (w_sd w)) eqn:Hw; cbn [negb snd w_sd].
  - split; [reflexivity|]. split; [cbn; congruence|].
    eexists. split; [reflexivity|]. apply config_document_holds.
  - split; [reflexivity|]. split; [congruence|reflexivity].
Qed.

(** Reading a persisted document. *)
Lemma findOptimalConfig_reads (w : World F) (doc : JsonDocument F) :
  sd_optimal_config_file (w_sd w) = Some (Some doc) ->
  sd_read_ok (w_sd w) = true ->
  findOptimalConfig w =
  (mkConfig (json_uint16 doc "vector_dim") (json_uint16 doc "num_locations")
            (json_uint16 doc "access_radius") (json_float doc "sparsity"), w).
Proof. intros Hf Hr. unfold findOptimalConfig. rewrite Hf, Hr. reflexivity. Qed.

(** The fallback: the safe default and an attempt to save it. *)
Lemma findOptimalConfig_falls_back (w : World F) :
  (forall doc, sd_optimal_config_file (w_sd w) = Some (Some doc) ->
               sd_read_ok (w_sd w) = false) ->
  findOptimalConfig w =
  (safe_default_config, snd (saveOptimalConfig safe_default_config w)).
Proof.
  intros Hno. unfold findOptimalConfig.
  destruct (saveOptimalConfig safe_default_config w) as [ok w'].
  destruct (sd_optimal_config_file (w_sd w)) as [[doc|]|]; try reflexivity;
    destruct (sd_read_ok (w_sd w)) eqn:Hr; try reflexivity.
  specialize (Hno doc eq_refl). discriminate.
Qed.

End OptimalConfigFacts.

(** X14.  [findOptimalConfig] is stable.  A second call returns the
    configuration the first one returned, whatever the card holds and
    whether or not it opens; and on a card that opens for reading and
    writing the second call changes nothing at all, because the first one
    has left a file that reads back as what it returned. *)
Theorem findOptimalConfig_stable {F : Type} `{FloatOps F} (w : World F) :
  let c1 := fst (findOptimalConfig w) in
  let w1 := snd (findOptimalConfig w) in
  fst (findOptimalConfig w1) = c1 /\
  (sd_read_ok (w_sd w) = true -> sd_write_ok (w_sd w) = true ->
   findOptimalConfig w1 = (c1, w1)).
Proof.
  cbn zeta.
  destruct (sd_optimal_config_file (w_sd w)) as [[doc|]|] eqn:Hf;
    destruct (sd_read_ok (w_sd w)) eqn:Hr.
  1:{ rewrite (findOptimalConfig_reads w doc Hf Hr). cbn [fst snd].
      rewrite (findOptimalConfig_reads w doc Hf Hr). split; reflexivity. }
  all: rewrite (findOptimalConfig_falls_back w)
         by (intros d Hd; congruence).
  all: cbn [fst snd].
  all: destruct (saveOptimalConfig_card safe_default_config w) as (Hr' & Hw' & Hfile).
  all: set (w1 := snd (saveOptimalConfig safe_default_config w)) in *.
  all: destruct (sd_write_ok (w_sd w)) eqn:Hw.
  all: try (destruct Hfile as (doc' & Hdoc' & Hholds)).
  all: try (split; [|intros; discriminate]).
  all: try (rewrite (findOptimalConfig_falls_back w1)
              by (intros d Hd; congruence); reflexivity).
  all: try (rewrite (findOptimalConfig_reads w1 doc' Hdoc') by congruence;
            rewrite (document_holds_read doc' _ Hholds safe_default_config_wf)).
  all: try (split; [reflexivity|]; intros _ _; reflexivity).
  all: try reflexivity.
Qed.

(** ** The benchmark and the configuration on the card *)

(** A loop whose body fails at index [k], after bodies that go through,
    fails. *)
Lemma for_range_none {S : Type} (body : nat -> S -> option S) (lo n k : nat)
    (s : S) :
  (lo <= k < lo + n)%nat ->
  (forall i st, (lo <= i < k)%nat -> is_Some (body i st)) ->
  (forall st, body k st = None) ->
  for_range body lo n s = None.
Proof.
  revert lo s. induction n as [|n IH]; intros lo s Hk Hbefore Hat; [lia|].
  cbn [for_range]. destruct (decide (lo = k)) as [->|Hne].
  - rewrite Hat. reflexivity.
  - destruct (Hbefore lo s ltac:(lia)) as [s1 ->]. cbn [mbind option_bind].
    apply IH; [lia| |exact Hat]. intros i st Hi. apply Hbefore. lia.
Qed.

Section CardConfiguration.
Context {F : Type} `{FloatOps F}.

Lemma write_rejects (s : SparseDistributedMemory F) (v : list Z) (strength : Z) :
  Z.of_nat (length v) <> vector_dim (config s) -> write s v strength = Some (s, 0).
Proof.
  intros Hne. unfold write. apply Z.eqb_neq in Hne. rewrite Hne. reflexivity.
Qed.

Lemma read_rejects (s : SparseDistributedMemory F) (q : list Z) :
  Z.of_nat (length q) <> vector_dim (config s) ->
  read s q =
  Some (s, (replicate (Z.to_nat (vector_dim (config s))) 0, f_of_int 0)).
Proof.
  intros Hne. unfold read. apply Z.eqb_neq in Hne. rewrite Hne. reflexivity.
Qed.

(** A trial on a store of fewer dimensions than the configuration under
    test: the writes and the read are refused, and the comparison runs
    past the end of the vector [read] returned. *)
Lemma run_trial_short_store (cfg : SDMConfig F) (s : SparseDistributedMemory F)
    (w : World F) (total : F) (test : nat) :
  0 <= vector_dim (config s) < vector_dim cfg -> vector_dim cfg <= UINT16_MAX ->
  run_trial cfg test (s, w, total) = None.
Proof.
  intros HD0 HD. unfold run_trial.
  destruct (num_ones cfg (sparsity cfg)) as [k|]; [|reflexivity].
  cbn [mbind option_bind].
  destruct (draw_test_bits_loop cfg w (Z.to_nat (Z.min k (vector_dim cfg)))
              HD ltac:(lia)) as (indices & v & Hdraw & _ & Hlen & _).
  rewrite Hdraw. cbn [mbind option_bind].
  assert (Hne : Z.of_nat (length v) <> vector_dim (config s)) by lia.
  rewrite (for_range_const (write_repeatedly v) 0 10 s).
  2:{ intros i _. unfold write_repeatedly. rewrite (write_rejects s v 1 Hne).
      reflexivity. }
  cbn [mbind option_bind]. rewrite (read_rejects s v Hne).
  cbn [mbind option_bind].
  rewrite (for_range_none _ 0 _ (Z.to_nat (vector_dim (config s)))).
  - reflexivity.
  - lia.
  - intros i st Hi. unfold count_match.
    destruct (lookup_lt_is_Some_2 v i ltac:(lia)) as [x ->].
    cbn [mbind option_bind]. rewrite lookup_replicate_2 by lia.
    cbn [mbind option_bind]. eexists. reflexivity.
  - intros st. unfold count_match.
    destruct (lookup_lt_is_Some_2 v (Z.to_nat (vector_dim (config s)))
                ltac:(lia)) as [x ->].
    cbn [mbind option_bind].
    rewrite (lookup_ge_None_2 (replicate _ 0)) by (rewrite length_replicate; lia).
    reflexivity.
Qed.

(** [testConfiguration] on a card that holds a configuration of fewer
    dimensions than the one under test. *)
Lemma testConfiguration_short_card (cfg c0 : SDMConfig F)
    (doc : JsonDocument F) (w : World F) (num_tests k0 : Z) :
  sd_config_file (w_sd w) = Some (Some doc) -> sd_read_ok (w_sd w) = true ->
  document_holds doc c0 -> config_wf c0 ->
  shuffles_permute w -> card_holds_bytes (w_sd w) ->
  num_ones c0 (sparsity c0) = Some k0 -> k0 <= vector_dim c0 ->
  vector_dim c0 < vector_dim cfg <= UINT16_MAX -> 1 <= num_tests ->
  exists s w1,
    initialize (mkSDM default_stats [] [] [] cfg) w = Some (s, true, w1) /\
    store_wf s /\ config s = c0 /\
    testConfiguration cfg num_tests w = None.
Proof.
  intros Hfile Hrd Hholds Hwf0 Hperm Hbytes Hk0 Hk0D HD Hn.
  pose proof (loadConfig_holds (w_sd w) (mkSDM default_stats [] [] [] cfg)
                doc c0 Hfile Hrd Hholds Hwf0) as Hload.
  destruct (initialize_run (mkSDM default_stats [] [] [] cfg) w k0)
    as (s & w1 & Hinit & Hwf & Hcfg & _); try assumption;
    try (rewrite Hload; cbn [fst config]; assumption).
  rewrite Hload in Hcfg. cbn [fst config] in Hcfg.
  exists s, w1. split; [exact Hinit|]. split; [exact Hwf|]. split; [exact Hcfg|].
  destruct Hwf0 as (HD0 & _). unfold is_uint16 in HD0.
  unfold testConfiguration. rewrite Hinit. cbn [mbind option_bind negb].
  destruct (Z.to_nat num_tests) as [|m] eqn:Hm; [lia|].
  cbn [for_range].
  rewrite (run_trial_short_store cfg s w1 (f_of_int 0) 0)
    by (rewrite ?Hcfg; lia).
  reflexivity.
Qed.

End CardConfiguration.

(** X15.  [testConfiguration] tests the configuration on the card, not
    the one it is given.  When [/sdm_config.json] holds a configuration
    [c0], the store it initialises takes [c0]; if [c0] has fewer
    dimensions than the configuration under test, every write and read of
    a test vector is refused by the length check, and the comparison loop
    indexes the vector [read] returned, which has only [c0]'s length, up
    to the longer test length: an out-of-range subscript, which the model
    renders as no result. *)
Theorem testConfiguration_uses_card_config {F : Type} `{FloatOps F}
    (cfg c0 : SDMConfig F) (doc : JsonDocument F) (w : World F)
    (num_tests k0 : Z) :
  sd_config_file (w_sd w) = Some (Some doc) -> sd_read_ok (w_sd w) = true ->
  document_holds doc c0 -> config_wf c0 ->
  shuffles_permute w -> card_holds_bytes (w_sd w) ->
  num_ones c0 (sparsity c0) = Some k0 -> k0 <= vector_dim c0 ->
  vector_dim c0 < vector_dim cfg <= UINT16_MAX -> 1 <= num_tests ->
  exists s w1,
    initialize (mkSDM default_stats [] [] [] cfg) w = Some (s, true, w1) /\
    config s = c0 /\
    (forall v strength, Z.of_nat (length v) = vector_dim cfg ->
       write s v strength = Some (s, 0) /\
       read s v = Some (s, (replicate (Z.to_nat (vector_dim c0)) 0, f_of_int 0))) /\
    testConfiguration cfg num_tests w = None.
Proof.
  intros Hfile Hrd Hholds Hwf0 Hperm Hbytes Hk0 Hk0D HD Hn.
  destruct (testConfiguration_short_card cfg c0 doc w num_tests k0)
    as (s & w1 & Hinit & Hwf & Hcfg & Htest); try assumption.
  exists s, w1. split; [exact Hinit|]. split; [exact Hcfg|].
  split; [|exact Htest].
  intros v strength Hv. rewrite <- Hcfg. split.
  - apply write_rejects. rewrite Hcfg. lia.
  - apply read_rejects. rewrite Hcfg. lia.
Qed.

Lemma testConfiguration_uses_card_config_witness :
  testConfiguration (safe_default_config (F := spec_float)) 5 configured_world
  = None.
Proof.
  destruct (testConfiguration_uses_card_config
              (safe_default_config (F := spec_float)) dim8_config
              (config_document dim8_config 0) configured_world 5 0)
    as (s & w1 & _ & _ & _ & Htest).
  - reflexivity.
  - reflexivity.
  - apply saved_document_holds.
  - unfold config_wf, is_uint16, UINT16_MAX. cbn. lia.
  - exact blank_world_shuffles.
  - intros data Hd. discriminate Hd.
  - vm_compute. reflexivity.
  - cbn. lia.
  - unfold UINT16_MAX. cbn. lia.
  - lia.
  - exact Htest.
Defined.

(** ** Loading a state saved under another configuration *)

Lemma for_range_app {S : Type} (body : nat -> S -> option S) (lo n m : nat)
    (s : S) :
  for_range body lo (n + m) s =
  for_range body lo n s ≫= for_range body (lo + n) m.
Proof.
  revert lo s. induction n as [|n IH]; intros lo s.
  - cbn. by rewrite Nat.add_0_r.
  - cbn [for_range Nat.add]. destruct (body lo s) as [s1|]; [|reflexivity].
    cbn [mbind option_bind]. rewrite IH.
    by replace (Datatypes.S lo + n)%nat with (lo + Datatypes.S n)%nat by lia.
Qed.

(** X16.  [loadFromSD] does not resize the store.  [loadConfig] adopts
    the configuration on the card and leaves the vectors as they are; when
    that configuration has more locations than the store holds and the
    state file carries the matching header, the loop over the access
    counts runs to the new [num_locations] and indexes [access_counts]
    past its end: an out-of-range subscript, which the model renders as no
    result. *)
Theorem loadFromSD_does_not_resize {F : Type} `{FloatOps F}
    (sd : SDCard F) (garbage : Z * Z) (s : SparseDistributedMemory F)
    (doc : JsonDocument F) (c1 : SDMConfig F) (data : list Z) :
  store_wf s ->
  sd_config_file sd = Some (Some doc) -> document_holds doc c1 -> config_wf c1 ->
  sd_memory_file sd = Some data -> sd_read_ok sd = true ->
  stored_uint16 data 0 garbage.1 = num_locations c1 ->
  stored_uint16 data 2 garbage.2 = vector_dim c1 ->
  num_locations (config s) < num_locations c1 ->
  loadConfig sd s =
    (mkSDM (stats s) (addresses s) (memory s) (access_counts s) c1, true) /\
  loadFromSD sd garbage s = None.
Proof.
  intros Hwf Hcfg Hholds Hwf1 Hfile Hok HN HD Hlt.
  pose proof (loadConfig_holds sd s doc c1 Hcfg Hok Hholds Hwf1) as Hload.
  split; [exact Hload|]. unfold loadFromSD. rewrite Hload.
  unfold loadMemoryFromSD. rewrite Hfile, Hok. cbn [negb config access_counts].
  change (mkFile data 0) with (mkFile data (0 `min` length data)).
  rewrite file_read_uint16_at. rewrite file_read_uint16_at.
  cbn [fst snd Nat.add]. rewrite HN, HD, !Z.eqb_refl. cbn [negb orb].
  pose proof (wf_num_locations s Hwf) as HN0. unfold is_uint16 in HN0.
  set (N0 := Z.to_nat (num_locations (config s))).
  replace (Z.to_nat (num_locations c1))
    with (N0 + (Datatypes.S (Z.to_nat (num_locations c1) - N0 - 1)))%nat
    by (unfold N0; lia).
  rewrite for_range_app.
  destruct (load_access_counts_loop data (access_counts s) N0
              (wf_access_counts s Hwf)) as (counts' & Hc & Hcl & _).
  rewrite Hc. cbn [mbind option_bind for_range Nat.add].
  assert (Hpast : forall f, load_access_count N0 (f, counts') = None).
  { intros f. unfold load_access_count. cbn [fst snd].
    rewrite (lookup_ge_None_2 counts') by lia. reflexivity. }
  rewrite Hpast. reflexivity.
Qed.

Lemma loadFromSD_does_not_resize_witness :
  loadFromSD three_location_card (0, 0) demo_store = None.
Proof.
  refine (proj2 (loadFromSD_does_not_resize three_location_card (0, 0) demo_store
                   (config_document three_location_config 0)
                   three_location_config [3; 0; 3; 0]
                   demo_store_wf eq_refl _ _ eq_refl eq_refl eq_refl eq_refl _)).
  - apply saved_document_holds.
  - unfold config_wf, is_uint16, UINT16_MAX. cbn. lia.
  - cbn. lia.
Defined.

(** ** Pre-trained libraries *)

Lemma drop_min_length {A : Type} (l : list A) (n : nat) :
  drop (n `min` length l) l = drop n l.
Proof.
  destruct (Nat.le_gt_cases n (length l)) as [Hle|Hgt].
  - by rewrite Nat.min_l.
  - rewrite Nat.min_r by lia. rewrite !drop_ge by lia. reflexivity.
Qed.

Lemma file_read_uint32_at (data : list Z) (n : nat) (old : Z) :
  file_read_uint32 (mkFile data (n `min` length data)) old =
  (mkFile data ((n + 4) `min` length data), stored_uint32 data n old).
Proof.
  unfold file_read_uint32, file_read, stored_uint32. cbn [f_data f_pos].
  rewrite drop_min_length. f_equal. f_equal.
  rewrite length_take, length_drop. lia.
Qed.

Lemma file_read_uint8_at (data : list Z) (n : nat) (old : Z) :
  file_read_uint8 (mkFile data (n `min` length data)) old =
  (mkFile data ((n + 1) `min` length data), default old (data !! n)).
Proof.
  unfold file_read_uint8, file_read. cbn [f_data f_pos].
  rewrite drop_min_length. f_equal.
  - f_equal. rewrite length_take, length_drop. lia.
  - destruct (data !! n) as [b|] eqn:Hb.
    + rewrite (drop_S _ _ _ Hb). reflexivity.
    + rewrite drop_ge by (apply lookup_ge_None; exact Hb). reflexivity.
Qed.

Lemma length_loaded_vector (data : list Z) (base dim : nat) :
  length (loaded_vector data base dim) = dim.
Proof. unfold loaded_vector. by rewrite length_map, length_seq. Qed.

Lemma lookup_loaded_vector (data : list Z) (base dim j : nat) :
  (j < dim)%nat ->
  loaded_vector data base dim !! j = Some (default 0 (data !! (base + j)%nat)).
Proof.
  intros Hj. unfold loaded_vector. rewrite list_lookup_fmap.
  rewrite lookup_seq_lt by assumption. reflexivity.
Qed.

(** The loop that reads one vector. *)
Lemma load_vector_bytes_loop (data : list Z) (base dim : nat) :
  for_range load_vector_byte 0 dim
    (mkFile data (base `min` length data), replicate dim 0) =
  Some (mkFile data ((base + dim) `min` length data), loaded_vector data base dim).
Proof.
  destruct (for_range_inv
    (fun j (st : File * list Z) =>
       st.1 = mkFile data ((base + j) `min` length data) /\
       length st.2 = dim /\
       (forall k, (k < j)%nat ->
          st.2 !! k = Some (default 0 (data !! (base + k)%nat))) /\
       (forall k, (j <= k < dim)%nat -> st.2 !! k = Some 0))
    load_vector_byte 0 dim (mkFile data (base `min` length data), replicate dim 0))
    as ([f v] & Hrun & Hf & Hl & Hdone & _).
  - cbn [fst snd]. split; [f_equal; f_equal; lia|].
    split; [apply length_replicate|]. split; [intros; lia|].
    intros k Hk. apply lookup_replicate_2. lia.
  - intros j [f v] Hj (Hf & Hl & Hdone & Hrest). cbn [fst snd] in *. subst f.
    unfold load_vector_byte. cbn [fst snd]. rewrite (Hrest j) by lia.
    cbn [mbind option_bind]. rewrite file_read_uint8_at.
    eexists. split; [reflexivity|]. cbn [fst snd].
    split; [f_equal; f_equal; lia|]. split; [by rewrite length_insert|]. split.
    + intros k Hk. destruct (decide (k = j)) as [->|Hne].
      * rewrite list_lookup_insert_eq by lia. reflexivity.
      * rewrite list_lookup_insert_ne by congruence. apply Hdone. lia.
    + intros k Hk. rewrite list_lookup_insert_ne by lia. apply Hrest. lia.
  - cbn [fst snd Nat.add] in *. subst f. rewrite Hrun. do 2 f_equal.
    apply list_eq_same_length with dim;
      [apply length_loaded_vector|exact Hl|].
    intros k x y Hk Hx Hy. rewrite Hdone in Hx by lia.
    rewrite lookup_loaded_vector in Hy by lia. congruence.
Qed.

(** The loop over the vectors of the library. *)
Lemma load_vectors_loop (data : list Z) (dim n : nat) :
  for_range (load_vector dim) 0 n (mkFile data (8 `min` length data), []) =
  Some (mkFile data ((8 + n * dim) `min` length data),
        map (fun i => loaded_vector data (8 + i * dim) dim) (seq 0 n)).
Proof.
  destruct (for_range_inv
    (fun i (st : File * list (list Z)) =>
       st = (mkFile data ((8 + i * dim) `min` length data),
             map (fun i => loaded_vector data (8 + i * dim) dim) (seq 0 i)))
    (load_vector dim) 0 n (mkFile data (8 `min` length data), []))
    as (st & Hrun & Hst).
  - reflexivity.
  - intros i st Hi ->. unfold load_vector. cbn [fst snd].
    rewrite load_vector_bytes_loop. cbn [mbind option_bind].
    eexists. split; [reflexivity|]. f_equal.
    + f_equal. f_equal. lia.
    + rewrite seq_S, map_app. reflexivity.
  - rewrite Hrun, Hst. reflexivity.
Qed.

Section LibraryFacts.
Context {F : Type} `{FloatOps F}.

(** [loadPretrainedVectors] on a file whose header carries the store's
    dimension. *)
Lemma loadPretrainedVectors_accepted (cfg : SDMConfig F) (data : list Z)
    (garbage : Z * Z) (old : list (list Z)) :
  stored_uint32 data 4 garbage.2 = vector_dim cfg ->
  loadPretrainedVectors cfg (Some data) true garbage old =
  Some (map (fun i => loaded_vector data (8 + i * Z.to_nat (vector_dim cfg))
                                    (Z.to_nat (vector_dim cfg)))
            (seq 0 (Z.to_nat (stored_uint32 data 0 garbage.1))), true).
Proof.
  intros HD. unfold loadPretrainedVectors. cbn [negb].
  change (mkFile data 0) with (mkFile data (0 `min` length data)).
  rewrite file_read_uint32_at. rewrite file_read_uint32_at.
  cbn [Nat.add]. rewrite HD, Z.eqb_refl. cbn [negb].
  rewrite load_vectors_loop. reflexivity.
Qed.

Lemma loadPretrainedVectors_refused (cfg : SDMConfig F) (lib : option (list Z))
    (read_ok : bool) (garbage : Z * Z) (old : list (list Z)) :
  (forall data, lib = Some data -> read_ok = true ->
                stored_uint32 data 4 garbage.2 <> vector_dim cfg) ->
  loadPretrainedVectors cfg lib read_ok garbage old = Some (old, false).
Proof.
  intros Hno. unfold loadPretrainedVectors.
  destruct lib as [data|]; [|reflexivity].
  destruct read_ok; [|reflexivity]. cbn [negb].
  change (mkFile data 0) with (mkFile data (0 `min` length data)).
  rewrite file_read_uint32_at. rewrite file_read_uint32_at. cbn [Nat.add].
  specialize (Hno data eq_refl eq_refl). apply Z.eqb_neq in Hno. rewrite Hno.
  reflexivity.
Qed.

(** [n] accepted writes of one vector. *)
Lemma reinforce_loop (s : SparseDistributedMemory F) (v : list Z) (lo n : nat) :
  store_wf s -> Z.of_nat (length v) = vector_dim (config s) ->
  exists s',
    for_range (reinforce v) lo n s = Some s' /\ store_wf s' /\
    config s' = config s /\ addresses s' = addresses s /\
    to_uint32 (total_writes (stats s')) =
      to_uint32 (total_writes (stats s) + Z.of_nat n) /\
    total_reads (stats s') = total_reads (stats s).
Proof.
  revert lo s. induction n as [|n IH]; intros lo s Hwf Hlen.
  - exists s. cbn [for_range]. rewrite Z.add_0_r.
    split; [reflexivity|]. split; [exact Hwf|]. repeat split; reflexivity.
  - destruct (write_run s v 2 Hwf Hlen) as (s1 & Hw & Ha1 & Hc1 & Ht1 & Hr1).
    pose proof (write_preserves_wf s s1 v 2 _ Hwf ltac:(lia) Hw) as Hwf1.
    destruct (IH (Datatypes.S lo) s1 Hwf1 ltac:(rewrite Hc1; exact Hlen))
      as (s' & Hrun & Hwf' & Hc' & Ha' & Ht' & Hr').
    assert (Hstep : reinforce v lo s = Some s1)
      by (unfold reinforce; rewrite Hw; reflexivity).
    exists s'. cbn [for_range]. rewrite Hstep.
    cbn [mbind option_bind]. rewrite Hrun.
    split; [reflexivity|]. split; [exact Hwf'|]. split; [congruence|].
    split; [congruence|]. split; [|congruence].
    rewrite Ht', Ht1. unfold to_uint32. rewrite Zplus_mod_idemp_l. f_equal. lia.
Qed.

(** The two loops of [mergeLibraryIntoSDM]. *)
Lemma merge_loop (s : SparseDistributedMemory F) (vectors : list (list Z))
    (r : nat) :
  store_wf s ->
  Forall (fun v => Z.of_nat (length v) = vector_dim (config s)) vectors ->
  exists s',
    for_each (fun vector => for_range (reinforce vector) 0 r) vectors s = Some s' /\
    store_wf s' /\ config s' = config s /\ addresses s' = addresses s /\
    to_uint32 (total_writes (stats s')) =
      to_uint32 (total_writes (stats s) + Z.of_nat (length vectors * r)) /\
    total_reads (stats s') = total_reads (stats s).
Proof.
  intros Hwf Hall. revert s Hwf Hall.
  induction vectors as [|v vectors IH]; intros s Hwf Hall.
  - exists s. cbn. rewrite Z.add_0_r.
    split; [reflexivity|]. split; [exact Hwf|]. repeat split; reflexivity.
  - inversion Hall as [|? ? Hv Hrest]; subst.
    destruct (reinforce_loop s v 0 r Hwf Hv) as (s1 & Hrun & Hwf1 & Hc1 & Ha1 & Ht1 & Hr1).
    destruct (IH s1 Hwf1 ltac:(rewrite Hc1; exact Hrest))
      as (s' & Hrun' & Hwf' & Hc' & Ha' & Ht' & Hr').
    exists s'. cbn [for_each]. rewrite Hrun. cbn [mbind option_bind].
    split; [exact Hrun'|]. split; [exact Hwf'|]. split; [congruence|].
    split; [congruence|]. split; [|congruence].
    rewrite Ht'. unfold to_uint32 in *.
    rewrite <- Zplus_mod_idemp_l, Ht1, Zplus_mod_idemp_l. f_equal.
    cbn [length]. lia.
Qed.

End LibraryFacts.



Lemma write_bytes_fold (v file : list Z) :
  fold_left (fun file bit => file ++ [bit]) v file = file ++ v.
Proof.
  revert file. induction v as [|b v IH]; intros file; cbn [fold_left].
  - by rewrite app_nil_r.
  - rewrite IH, <- app_assoc. reflexivity.
Qed.

Lemma write_vectors_fold (vectors : list (list Z)) (file : list Z) :
  fold_left (fun file vector =>
               fold_left (fun file bit => file ++ [bit]) vector file)
            vectors file
  = file ++ concat vectors.
Proof.
  revert file. induction vectors as [|v vectors IH]; intros file; cbn [fold_left concat].
  - by rewrite app_nil_r.
  - rewrite IH, write_bytes_fold, <- app_assoc. reflexivity.
Qed.

Lemma uint32_bytes_join (x : Z) :
  is_uint32 x ->
  x mod 256 + 256 * ((x / 256) mod 256) + 65536 * ((x / 65536) mod 256)
  + 16777216 * ((x / 16777216) mod 256) = x.
Proof.
  unfold is_uint32. intros Hx.
  assert (E2 : x / 65536 = x / 256 / 256)
    by (rewrite Z.div_div by lia; reflexivity).
  assert (E3 : x / 16777216 = x / 65536 / 256)
    by (rewrite Z.div_div by lia; reflexivity).
  assert (H3 : 0 <= x / 16777216 < 256)
    by (split; [apply Z.div_pos; lia|apply Z.div_lt_upper_bound; lia]).
  rewrite (Z.mod_small (x / 16777216)) by exact H3.
  pose proof (Z.div_mod x 256 ltac:(lia)) as D1.
  pose proof (Z.div_mod (x / 256) 256 ltac:(lia)) as D2.
  pose proof (Z.div_mod (x / 65536) 256 ltac:(lia)) as D3.
  rewrite <- E2 in D2. rewrite <- E3 in D3. lia.
Qed.

Lemma stored_uint32_in_file (data : list Z) (p : nat) (old b0 b1 b2 b3 : Z) :
  data !! p = Some b0 -> data !! (p + 1)%nat = Some b1 ->
  data !! (p + 2)%nat = Some b2 -> data !! (p + 3)%nat = Some b3 ->
  stored_uint32 data p old = b0 + 256 * b1 + 65536 * b2 + 16777216 * b3.
Proof.
  intros H0 H1 H2 H3. unfold stored_uint32.
  replace (p + 1)%nat with (Datatypes.S p) in H1 by lia.
  replace (p + 2)%nat with (Datatypes.S (Datatypes.S p)) in H2 by lia.
  replace (p + 3)%nat with (Datatypes.S (Datatypes.S (Datatypes.S p))) in H3 by lia.
  rewrite (drop_S _ _ _ H0). cbn [take]. rewrite (drop_S _ _ _ H1). cbn [take].
  rewrite (drop_S _ _ _ H2). cbn [take]. rewrite (drop_S _ _ _ H3). reflexivity.
Qed.

(** Element [j] of vector [i] in the concatenation of vectors of one
    length. *)
Lemma lookup_concat_uniform (vs : list (list Z)) (D i j : nat) (v : list Z)
    (b : Z) :
  Forall (fun v => length v = D) vs ->
  vs !! i = Some v -> v !! j = Some b ->
  concat vs !! (i * D + j)%nat = Some b.
Proof.
  intros Hall. revert i. induction Hall as [|u vs Hu _ IH]; intros [|i] Hi Hj;
    try discriminate.
  - injection Hi as ->. cbn [concat Nat.mul Nat.add].
    rewrite lookup_app_l by (eapply lookup_lt_Some; eassumption). exact Hj.
  - cbn [concat]. rewrite lookup_app_r by lia.
    replace (Datatypes.S i * D + j - length u)%nat with (i * D + j)%nat by lia.
    apply IH; assumption.
Qed.

(** X18.  A library file round-trips when it holds at least one vector:
    after [savePretrainedVectors] of vectors that all have the store's
    [vector_dim], [loadPretrainedVectors] returns true and exactly the
    vectors saved.  An empty library does not: its header carries
    dimension 0, so a store of any other dimension refuses the file and
    leaves the caller's vectors untouched. *)
Theorem library_file_roundtrip {F : Type} `{FloatOps F}
    (cfg : SDMConfig F) (vectors old : list (list Z)) (lib : option (list Z))
    (garbage : Z * Z) :
  Forall (fun v => Z.of_nat (length v) = vector_dim cfg) vectors ->
  Z.of_nat (length vectors) < 4294967296 ->
  1 <= vector_dim cfg <= UINT16_MAX ->
  snd (savePretrainedVectors true vectors lib) = true /\
  loadPretrainedVectors cfg (fst (savePretrainedVectors true vectors lib)) true
    garbage old
  = if decide (vectors = []) then Some (old, false) else Some (vectors, true).
Proof.
  intros Hall Hcount HD. split; [reflexivity|].
  unfold savePretrainedVectors. cbn [negb fst]. rewrite write_vectors_fold.
  set (n := to_uint32 (Z.of_nat (length vectors))).
  set (d := to_uint32 (match vectors with
                       | [] => 0
                       | v :: _ => Z.of_nat (length v)
                       end)).
  set (data := (bytes_of_uint32 n ++ bytes_of_uint32 d) ++ concat vectors).
  assert (Hn : stored_uint32 data 0 garbage.1 = Z.of_nat (length vectors)).
  { unfold data. rewrite (stored_uint32_in_file _ 0 _ (n mod 256)
      ((n / 256) mod 256) ((n / 65536) mod 256) ((n / 16777216) mod 256));
      [|reflexivity..].
    assert (Hnr : is_uint32 n)
      by (unfold n, to_uint32, is_uint32; apply Z.mod_pos_bound; lia).
    rewrite (uint32_bytes_join n Hnr). unfold n, to_uint32.
    apply Z.mod_small. lia. }
  assert (Hd : stored_uint32 data 4 garbage.2 = d).
  { unfold data. rewrite (stored_uint32_in_file _ 4 _ (d mod 256)
      ((d / 256) mod 256) ((d / 65536) mod 256) ((d / 16777216) mod 256));
      [|reflexivity..].
    apply uint32_bytes_join.
    unfold d, to_uint32, is_uint32. apply Z.mod_pos_bound. lia. }
  destruct (decide (vectors = [])) as [->|Hne].
  - apply loadPretrainedVectors_refused. intros data' [= <-] _.
    fold data. rewrite Hd. unfold d, to_uint32.
    change (0 mod 4294967296) with 0. destruct HD as [HD1 _]. lia.
  - assert (Hdim : d = vector_dim cfg).
    { unfold d. destruct vectors as [|v vs]; [contradiction|].
      inversion Hall as [|? ? Hv _]; subst. rewrite Hv. unfold to_uint32.
      apply Z.mod_small. unfold UINT16_MAX in HD. lia. }
    rewrite (loadPretrainedVectors_accepted cfg data garbage old)
      by (rewrite Hd; exact Hdim).
    rewrite Hn, Nat2Z.id. do 2 f_equal.
    set (D := Z.to_nat (vector_dim cfg)).
    assert (Hall' : Forall (fun v => length v = D) vectors).
    { eapply Forall_impl; [exact Hall|]. intros v Hv. cbn beta in Hv.
      unfold D. lia. }
    apply list_eq_same_length with (length vectors);
      [reflexivity|by rewrite length_map, length_seq|].
    intros i u v Hi Hu Hv. rewrite list_lookup_fmap, lookup_seq_lt in Hu by lia.
    injection Hu as <-.
    assert (Hvl : length v = D).
    { rewrite Forall_forall in Hall'. apply Hall'.
      eapply list_elem_of_lookup_2. eassumption. }
    apply list_eq_same_length with D;
      [exact Hvl|apply length_loaded_vector|].
    intros j x y Hj Hx Hy. rewrite lookup_loaded_vector in Hx by lia.
    unfold data in Hx. rewrite lookup_app_r in Hx by (cbn; lia).
    replace (8 + i * D + j - _)%nat with (i * D + j)%nat in Hx by (cbn; lia).
    rewrite (lookup_concat_uniform vectors D i j v y Hall' Hv Hy) in Hx.
    cbn in Hx. congruence.
Qed.

Lemma library_file_roundtrip_witness :
  loadPretrainedVectors dim8_config
    (fst (savePretrainedVectors true [[1; 0; 0; 1; 0; 0; 0; 1]] None)) true
    (0, 0) []
  = Some ([[1; 0; 0; 1; 0; 0; 0; 1]], true).
Proof.
  refine (proj2 (library_file_roundtrip dim8_config [[1; 0; 0; 1; 0; 0; 0; 1]] []
                   None (0, 0) _ _ _)).
  - repeat constructor.
  - cbn. lia.
  - unfold UINT16_MAX. cbn. lia.
Defined.

Lemma frequent_patterns_snoc (counts : list Z) (mem : list (list Z)) (i : nat)
    (c : Z) (row : list Z) :
  counts !! i = Some c -> mem !! i = Some row ->
  frequent_patterns (take (Datatypes.S i) counts) (take (Datatypes.S i) mem) =
  frequent_patterns (take i counts) (take i mem)
  ++ (if c >? 5 then [pattern_of row] else []).
Proof.
  revert mem i. induction counts as [|c0 counts IH]; intros [|r0 mem] [|i] Hc Hr;
    try discriminate.
  - injection Hc as ->. injection Hr as ->. cbn. by rewrite app_nil_r.
  - cbn [take frequent_patterns]. rewrite (IH mem i Hc Hr), app_assoc.
    reflexivity.
Qed.

Lemma frequent_patterns_shape (counts : list Z) (mem : list (list Z)) (D : nat) :
  Forall (fun row => length row = D) mem ->
  Forall (fun p => length p = D /\ Forall (fun b => b = 0 \/ b = 1) p)
         (frequent_patterns counts mem).
Proof.
  intros Hall. revert counts. induction Hall as [|row mem Hrow _ IH];
    intros [|c counts]; cbn [frequent_patterns]; try apply Forall_nil_2.
  apply Forall_app. split; [|apply IH].
  destruct (c >? 5); [|apply Forall_nil_2].
  apply Forall_cons_2; [|apply Forall_nil_2]. unfold pattern_of.
  split; [by rewrite length_map|].
  apply Forall_fmap, Forall_true. intros m. cbn. destruct (m >? 0); auto.
Qed.

Section PatternFacts.
Context {F : Type} `{FloatOps F}.

(** The loop that extracts one pattern. *)
Lemma pattern_bits_loop (mem : list (list Z)) (i : nat) (row : list Z) :
  mem !! i = Some row ->
  for_range (pattern_bit mem i) 0 (length row) (replicate (length row) 0)
  = Some (pattern_of row).
Proof.
  intros Hrow.
  destruct (for_range_inv
    (fun j p =>
       length p = length row /\
       forall k m, (k < j)%nat -> row !! k = Some m ->
         p !! k = Some (if m >? 0 then 1 else 0))
    (pattern_bit mem i) 0 (length row) (replicate (length row) 0))
    as (p & Hrun & Hl & Hp).
  - split; [apply length_replicate|]. intros; lia.
  - intros j p Hj (Hl & Hp).
    destruct (lookup_lt_is_Some_2 row j ltac:(lia)) as [m Hm].
    destruct (lookup_lt_is_Some_2 p j ltac:(lia)) as [x Hx].
    unfold pattern_bit. rewrite Hrow. cbn [mbind option_bind].
    rewrite Hm. cbn [mbind option_bind]. rewrite Hx. cbn [mbind option_bind].
    eexists. split; [reflexivity|]. split; [by rewrite length_insert|].
    intros k m' Hk Hm'. destruct (decide (k = j)) as [->|Hne].
    + rewrite list_lookup_insert_eq by lia.
      assert (m' = m) by congruence. subst m'. reflexivity.
    + rewrite list_lookup_insert_ne by congruence. apply Hp; [lia|exact Hm'].
  - rewrite Hrun. f_equal. unfold pattern_of.
    apply list_eq_same_length with (length row);
      [by rewrite length_map|exact Hl|].
    intros k x y Hk Hx Hy. rewrite list_lookup_fmap in Hy.
    destruct (row !! k) as [m|] eqn:Hm; [|discriminate].
    rewrite (Hp k m ltac:(lia) Hm) in Hx. cbn in Hy. congruence.
Qed.

End PatternFacts.

(** X19.  What [savePretrainedLib] saves: for every location whose
    access count is above 5, in location order, the sign pattern of its
    counters (1 where the counter is positive, 0 elsewhere), one label
    per pattern, and nothing else.  Every pattern is a vector of
    [vector_dim] bits, and on a card that opens the library file is the
    two header words followed by the patterns. *)
Theorem savePretrainedLib_patterns {F : Type} `{FloatOps F}
    (s : SparseDistributedMemory F) (lib : option (list Z)) :
  store_wf s ->
  let patterns := frequent_patterns (access_counts s) (memory s) in
  (exists labels,
     for_range (extract_pattern s) 0 (Z.to_nat (num_locations (config s)))
       ([], []) = Some (patterns, labels) /\
     length labels = length patterns) /\
  Forall (fun p => length p = Z.to_nat (vector_dim (config s)) /\
                   Forall (fun b => b = 0 \/ b = 1) p) patterns /\
  savePretrainedLib s true lib =
    Some (Some ((bytes_of_uint32 (to_uint32 (Z.of_nat (length patterns)))
                 ++ bytes_of_uint32
                      (to_uint32 (match patterns with
                                  | [] => 0
                                  | v :: _ => Z.of_nat (length v)
                                  end)))
                ++ concat patterns), true).
Proof.
  intros Hwf patterns.
  set (N := Z.to_nat (num_locations (config s))).
  set (D := Z.to_nat (vector_dim (config s))).
  assert (Hloop : exists labels,
            for_range (extract_pattern s) 0 N ([], []) = Some (patterns, labels) /\
            length labels = length patterns).
  { destruct (for_range_inv
      (fun i (st : list (list Z) * list string) =>
         st.1 = frequent_patterns (take i (access_counts s)) (take i (memory s)) /\
         length st.2 = length st.1)
      (extract_pattern s) 0 N ([], [])) as ([vs ls] & Hrun & Hvs & Hls).
    - split; reflexivity.
    - intros i [vs ls] Hi (Hvs & Hls). cbn [fst snd] in *. subst vs.
      destruct (lookup_lt_is_Some_2 (access_counts s) i) as [c Hc];
        [rewrite (wf_access_counts s Hwf); fold N; lia|].
      destruct (lookup_lt_is_Some_2 (memory s) i) as [row Hrow];
        [rewrite (wf_memory s Hwf); fold N; lia|].
      assert (Hrl : length row = D).
      { pose proof (wf_memory_dim s Hwf) as Hd. rewrite Forall_forall in Hd.
        apply Hd. eapply list_elem_of_lookup_2. eassumption. }
      unfold extract_pattern. rewrite Hc. cbn [mbind option_bind].
      rewrite (frequent_patterns_snoc _ _ _ _ _ Hc Hrow).
      destruct (c >? 5).
      + fold D. rewrite <- Hrl, (pattern_bits_loop _ _ _ Hrow).
        cbn [mbind option_bind fst snd]. eexists. split; [reflexivity|].
        cbn [fst snd]. split; [reflexivity|]. rewrite !length_app, Hls.
        reflexivity.
      + eexists. split; [reflexivity|]. cbn [fst snd].
        rewrite app_nil_r. split; [reflexivity|exact Hls].
    - cbn [fst snd Nat.add] in *. exists ls. rewrite Hrun.
      rewrite (take_ge (access_counts s)) in Hvs
        by (rewrite (wf_access_counts s Hwf); fold N; lia).
      rewrite (take_ge (memory s)) in Hvs
        by (rewrite (wf_memory s Hwf); fold N; lia).
      subst vs. split; [reflexivity|exact Hls]. }
  split; [exact Hloop|].
  split; [apply frequent_patterns_shape, (wf_memory_dim s Hwf)|].
  destruct Hloop as (labels & Hrun & _).
  unfold savePretrainedLib. fold N. rewrite Hrun. cbn [mbind option_bind].
  unfold savePretrainedVectors. cbn [negb]. rewrite write_vectors_fold.
  reflexivity.
Qed.

Lemma savePretrainedLib_patterns_witness :
  savePretrainedLib trained_store true None
  = Some (Some [1; 0; 0; 0; 3; 0; 0; 0; 0; 1; 1], true).
Proof.
  exact (proj2 (proj2 (savePretrainedLib_patterns trained_store None
                         ltac:(solve_store_wf)))).
Defined.

(** ** Recall of a written pattern *)

Lemma signed_pattern_zero (v : list Z) :
  signed_pattern 0 v = replicate (length v) 0.
Proof.
  unfold signed_pattern. induction v as [|x v IH]; [reflexivity|].
  cbn [map length replicate]. rewrite IH. destruct (x =? 1); reflexivity.
Qed.

Lemma lookup_signed_pattern (c : Z) (v : list Z) (j : nat) (x : Z) :
  v !! j = Some x ->
  signed_pattern c v !! j = Some (if x =? 1 then c else - c).
Proof.
  intros Hx. unfold signed_pattern. rewrite list_lookup_fmap, Hx. reflexivity.
Qed.

Section RecallWrites.
Context {F : Type} `{FloatOps F}.

(** The rows an accepted [write] leaves. *)
Lemma write_rows (s : SparseDistributedMemory F) (v : list Z) (k : Z) :
  store_wf s -> Z.of_nat (length v) = vector_dim (config s) -> 0 <= k <= 255 ->
  exists s' n,
    write s v k = Some (s', n) /\ store_wf s' /\
    addresses s' = addresses s /\ config s' = config s /\
    forall i a row, addresses s !! i = Some a -> memory s !! i = Some row ->
      if activated (config s) v a then
        exists row', memory s' !! i = Some row' /\ length row' = length row /\
          forall j x m, v !! j = Some x -> row !! j = Some m ->
            row' !! j = Some (counter_after x m k)
      else memory s' !! i = Some row.
Proof.
  intros Hwf Hlen Hk.
  pose proof (wf_vector_dim s Hwf) as HD. pose proof (wf_num_locations s Hwf) as HN.
  unfold is_uint16 in HD, HN.
  destruct (write_locations_loop (config s) (addresses s) v k
              (memory s) (access_counts s) (Z.to_nat (num_locations (config s))))
    as (st & Hloop & Hact & Hlm & Hlc & Hpost);
    [apply (wf_addresses s Hwf)|apply (wf_memory s Hwf)
    |apply (wf_access_counts s Hwf)|lia|exact Hlen|lia
    |apply (wf_memory_dim s Hwf)|].
  assert (Hw : write s v k =
    Some (mkSDM (mkStats (to_uint32 (total_writes (stats s) + 1))
                         (total_reads (stats s)) (last_confidence (stats s))
                         (ws_activated st) (avg_match_ratio (stats s)))
                (addresses s) (ws_memory st) (ws_access_counts st) (config s),
          ws_activated st)).
  { unfold write. rewrite Hlen, Z.eqb_refl. cbn [negb]. rewrite Hloop.
    reflexivity. }
  eexists _, _. split; [exact Hw|].
  split; [exact (write_preserves_wf s _ v k _ Hwf Hk Hw)|].
  split; [reflexivity|]. split; [reflexivity|].
  intros i a row Ha Hrow. cbn [memory].
  destruct (lookup_lt_is_Some_2 (access_counts s) i) as [c Hc].
  { rewrite (wf_access_counts s Hwf), <- (wf_addresses s Hwf).
    eapply lookup_lt_Some. eassumption. }
  specialize (Hpost i a c row Ha Hc Hrow). unfold written_at in Hpost.
  destruct (activated (config s) v a); [|apply Hpost].
  destruct Hpost as (_ & row' & Hr' & Hl' & Hupd).
  exists row'. split; [exact Hr'|]. split; [exact Hl'|].
  intros j x m Hx Hm. rewrite (Hupd j x m Hx Hm). f_equal.
  apply write_counter_spec; [|exact Hk].
  pose proof (wf_memory_int16 s Hwf) as Hint. rewrite Forall_forall in Hint.
  eapply Forall_forall; [apply Hint|]; eapply list_elem_of_lookup_2; eassumption.
Qed.

(** One more write of [v] on locations that hold its pattern. *)
Lemma write_pattern_step (s : SparseDistributedMemory F) (v : list Z) (k c : Z) :
  store_wf s -> Z.of_nat (length v) = vector_dim (config s) ->
  0 <= k <= 255 -> 0 <= c -> c + k <= INT16_MAX ->
  holds_pattern s v c ->
  exists s' n,
    write s v k = Some (s', n) /\ store_wf s' /\
    addresses s' = addresses s /\ config s' = config s /\
    holds_pattern s' v (c + k).
Proof.
  intros Hwf Hlen Hk Hc Hck Hpat.
  destruct (write_rows s v k Hwf Hlen Hk) as (s' & n & Hw & Hwf' & Ha' & Hc' & Hrows).
  exists s', n. split; [exact Hw|]. split; [exact Hwf'|].
  split; [exact Ha'|]. split; [exact Hc'|].
  intros i a Ha. rewrite Ha' in Ha. rewrite Hc'.
  specialize (Hrows i a _ Ha (Hpat i a Ha)).
  destruct (activated (config s) v a); [|exact Hrows].
  destruct Hrows as (row' & Hr' & Hl' & Hupd). rewrite Hr'. f_equal.
  unfold signed_pattern in Hl'. rewrite length_map in Hl'.
  apply list_eq_same_length with (length v);
    [unfold signed_pattern; by rewrite length_map|exact Hl'|].
  intros j x y Hj Hx Hy.
  destruct (lookup_lt_is_Some_2 v j Hj) as [b Hb].
  rewrite (Hupd j b _ Hb (lookup_signed_pattern c v j b Hb)) in Hx.
  rewrite (lookup_signed_pattern (c + k) v j b Hb) in Hy.
  injection Hx as <-. injection Hy as <-.
  unfold counter_after, clamp_int16, INT16_MIN, INT16_MAX in *.
  destruct (b =? 1); lia.
Qed.

Lemma write_times_pattern (n : nat) (s : SparseDistributedMemory F) (v : list Z)
    (k c : Z) :
  store_wf s -> Z.of_nat (length v) = vector_dim (config s) ->
  0 <= k <= 255 -> 0 <= c -> c + Z.of_nat n * k <= INT16_MAX ->
  holds_pattern s v c ->
  exists s',
    write_times n s v k = Some s' /\ store_wf s' /\
    addresses s' = addresses s /\ config s' = config s /\
    holds_pattern s' v (c + Z.of_nat n * k).
Proof.
  revert s c. induction n as [|n IH]; intros s c Hwf Hlen Hk Hc Hck Hpat.
  - exists s. cbn [write_times]. replace (c + Z.of_nat 0 * k) with c by lia.
    split; [reflexivity|]. split; [exact Hwf|]. repeat split; try reflexivity.
    exact Hpat.
  - destruct (write_pattern_step s v k c Hwf Hlen Hk Hc ltac:(nia) Hpat)
      as (s1 & m & Hw & Hwf1 & Ha1 & Hc1 & Hpat1).
    destruct (IH s1 (c + k) Hwf1 ltac:(rewrite Hc1; exact Hlen) Hk ltac:(lia)
                ltac:(nia) Hpat1) as (s' & Hrun & Hwf' & Ha' & Hc' & Hpat').
    exists s'. cbn [write_times]. rewrite Hw. cbn [mbind option_bind].
    split; [exact Hrun|]. split; [exact Hwf'|]. split; [congruence|].
    split; [congruence|].
    replace (c + Z.of_nat (Datatypes.S n) * k) with (c + k + Z.of_nat n * k) by lia.
    exact Hpat'.
Qed.

(** A store whose counters are all zero holds the zero pattern. *)
Lemma blank_holds_pattern (s : SparseDistributedMemory F) (v : list Z) :
  store_wf s -> Z.of_nat (length v) = vector_dim (config s) ->
  Forall (Forall (eq 0)) (memory s) -> holds_pattern s v 0.
Proof.
  intros Hwf Hlen Hzero i a Ha.
  destruct (lookup_lt_is_Some_2 (memory s) i) as [row Hrow].
  { rewrite (wf_memory s Hwf), <- (wf_addresses s Hwf).
    eapply lookup_lt_Some. eassumption. }
  rewrite Hrow. f_equal. rewrite signed_pattern_zero.
  assert (Hrl : length row = length v).
  { pose proof (wf_memory_dim s Hwf) as Hd. rewrite Forall_forall in Hd.
    rewrite (Hd row) by (eapply list_elem_of_lookup_2; eassumption). lia. }
  assert (Hrz : row = replicate (length v) 0).
  { rewrite <- Hrl. apply list_eq_same_length with (length row);
      [apply length_replicate|reflexivity|].
    intros j x y Hj Hx Hy. rewrite lookup_replicate_2 in Hy by lia.
    rewrite Forall_forall in Hzero.
    assert (Hr0 : Forall (eq 0) row)
      by (apply Hzero; eapply list_elem_of_lookup_2; eassumption).
    rewrite Forall_forall in Hr0.
    rewrite <- (Hr0 x) by (eapply list_elem_of_lookup_2; eassumption).
    congruence. }
  rewrite Hrz. destruct (activated (config s) v a); reflexivity.
Qed.

End RecallWrites.

(** *** Reading the pattern back, in exact arithmetic *)

Lemma exact_weight_pos (d : Z) : 0 <= d -> (0 < weight (F := Q) d)%Q.
Proof.
  intros Hd. unfold weight. cbn [f_div f_add f_of_int exactQ].
  assert (Hden : (0 < inject_Z 1 + inject_Z d)%Q).
  { rewrite <- inject_Z_plus. change 0%Q with (inject_Z 0).
    rewrite <- Zlt_Qlt. lia. }
  apply Qlt_shift_div_l; [exact Hden|]. rewrite Qmult_0_l. reflexivity.
Qed.

Lemma exact_scaled_sum {A : Type} (l : list A) (g w : A -> Q) (c a b : Q) :
  (a == c * b)%Q -> (forall p, p ∈ l -> (g p == w p * c)%Q) ->
  (foldl Qplus a (map g l) == c * foldl Qplus b (map w l))%Q.
Proof.
  revert a b. induction l as [|p l IH]; intros a b Hab Hg; cbn [map foldl].
  - exact Hab.
  - apply IH.
    + rewrite Hab, (Hg p) by apply list_elem_of_here. ring.
    + intros q Hq. apply Hg. apply list_elem_of_further. exact Hq.
Qed.

Lemma exact_sum_pos {A : Type} (l : list A) (w : A -> Q) (a : Q) :
  (forall p, p ∈ l -> (0 < w p)%Q) ->
  (a <= foldl Qplus a (map w l))%Q /\
  (l <> [] -> (a < foldl Qplus a (map w l))%Q).
Proof.
  revert a. induction l as [|p l IH]; intros a Hw; cbn [map foldl].
  - split; [apply Qle_refl|congruence].
  - assert (Hp : (0 < w p)%Q) by (apply Hw, list_elem_of_here).
    destruct (IH (a + w p)%Q) as [Hle _].
    { intros q Hq. apply Hw. apply list_elem_of_further. exact Hq. }
    assert (Hlt : (a < a + w p)%Q).
    { rewrite <- (Qplus_0_r a) at 1. apply Qplus_lt_r. exact Hp. }
    split; [|intros _]; [apply Qlt_le_weak|];
      (eapply Qlt_le_trans; [exact Hlt|exact Hle]).
Qed.

Section RecallRead.
Variable s : SparseDistributedMemory Q.
Variable v : list Z.
Variable c : Z.
Hypothesis s_wf : store_wf s.
Hypothesis v_length : Z.of_nat (length v) = vector_dim (config s).
Hypothesis c_pos : 0 < c.
Hypothesis s_pattern : holds_pattern s v c.
Hypothesis some_activated : 1 <= count_activated (config s) v (addresses s).

(** The weighted mean of column [j] is the counter every activated
    location holds there. *)
Lemma exact_mean_of_pattern (j : nat) (x : Z) :
  v !! j = Some x ->
  (weighted_mean (memory s) (activations (config s) v (addresses s)) j
   == inject_Z (if x =? 1 then c else - c))%Q.
Proof.
  intros Hx. set (acts := activations (config s) v (addresses s)).
  set (cj := if x =? 1 then c else - c).
  assert (Hne : acts <> []).
  { intros Hnil. pose proof (activations_length (config s) v 0 (addresses s)) as Hl.
    fold (activations (config s) v (addresses s)) in Hl. fold acts in Hl.
    rewrite Hnil in Hl. cbn in Hl. lia. }
  assert (Hw : forall p, p ∈ acts -> (0 < weight (F := Q) p.2)%Q).
  { intros [i d] Hin. apply activations_spec in Hin as (a & _ & -> & _).
    apply exact_weight_pos. apply hamming_bounds. }
  assert (Hcnt : forall p, p ∈ acts -> counter (memory s) p.1 j = cj).
  { intros [i d] Hin. apply activations_spec in Hin as (a & Ha & _ & Hact).
    unfold counter. cbn [fst]. rewrite (s_pattern i a Ha), Hact.
    cbn [mbind option_bind]. rewrite (lookup_signed_pattern c v j x Hx).
    reflexivity. }
  unfold weighted_mean, total_weight, f_sum.
  cbn [f_div f_add f_mul f_of_int exactQ].
  destruct (exact_sum_pos acts (fun p => weight (F := Q) p.2) (inject_Z 0) Hw)
    as [_ Hpos]. specialize (Hpos Hne).
  rewrite (exact_scaled_sum acts _ (fun p => weight (F := Q) p.2)
             (inject_Z cj) (inject_Z 0) (inject_Z 0)).
  - apply Qdiv_mult_l. intros Hz. rewrite Hz in Hpos.
    exact (Qlt_irrefl _ Hpos).
  - change (inject_Z 0) with 0%Q. ring.
  - intros p Hp. rewrite (Hcnt p Hp). reflexivity.
Qed.

Lemma exact_read_bits_of_pattern :
  Forall (fun b => b = 0 \/ b = 1) v ->
  read_bits (memory s) (activations (config s) v (addresses s))
            (Z.to_nat (vector_dim (config s))) = v.
Proof.
  intros Hbits. unfold read_bits.
  apply list_eq_same_length with (length v);
    [reflexivity|rewrite length_map, length_seq; lia|].
  intros j b x Hj Hb Hx. rewrite list_lookup_fmap, lookup_seq_lt in Hb by lia.
  set (m := weighted_mean (memory s)
              (activations (config s) v (addresses s)) j).
  change (Some (if f_ltb (f_of_int 0) m then 1 else 0) = Some b) in Hb.
  enough (Hbit : (if f_ltb (f_of_int 0) m then 1 else 0) = x) by congruence.
  pose proof (exact_mean_of_pattern j x Hx) as Hmean. fold m in Hmean.
  assert (Hxb : x = 0 \/ x = 1).
  { rewrite Forall_forall in Hbits. apply Hbits.
    eapply list_elem_of_lookup_2. eassumption. }
  change (f_ltb (f_of_int 0) m) with (negb (Qle_bool m 0)).
  destruct Hxb as [-> | ->].
  - change (if 0 =? 1 then c else - c) with (- c) in Hmean.
    assert (Hle : Qle_bool m 0 = true).
    { apply Qle_bool_iff. rewrite Hmean. change 0%Q with (inject_Z 0).
      rewrite <- Zle_Qle. lia. }
    rewrite Hle. reflexivity.
  - change (if 1 =? 1 then c else - c) with c in Hmean.
    destruct (Qle_bool m 0) eqn:Hle; [|reflexivity].
    apply Qle_bool_iff in Hle. rewrite Hmean in Hle.
    change 0%Q with (inject_Z 0) in Hle. rewrite <- Zle_Qle in Hle. lia.
Qed.

Lemma exact_confidence_of_pattern :
  1 <= vector_dim (config s) ->
  (read_confidence (memory s) (activations (config s) v (addresses s))
                   (Z.to_nat (vector_dim (config s))) == inject_Z c)%Q.
Proof.
  intros HD. unfold read_confidence.
  set (l := map _ (seq 0 (Z.to_nat (vector_dim (config s))))).
  assert (Hall : forall y, y ∈ l -> (y == inject_Z c)%Q).
  { intros y Hy. unfold l in Hy. apply list_elem_of_fmap in Hy as (j & -> & Hj).
    apply elem_of_seq in Hj.
    destruct (lookup_lt_is_Some_2 v j ltac:(lia)) as [x Hx].
    cbn [f_abs exactQ]. rewrite (exact_mean_of_pattern j x Hx).
    destruct (x =? 1).
    - apply Qabs_pos. change 0%Q with (inject_Z 0). rewrite <- Zle_Qle. lia.
    - rewrite inject_Z_opp, Qabs_opp. apply Qabs_pos.
      change 0%Q with (inject_Z 0). rewrite <- Zle_Qle. lia. }
  destruct (exact_maximum_spec l) as [Hmax Hin].
  assert (H0 : Qabs (weighted_mean (memory s)
                  (activations (config s) v (addresses s)) 0) ∈ l).
  { unfold l. apply list_elem_of_fmap. exists 0%nat. split; [reflexivity|].
    apply elem_of_seq. lia. }
  destruct Hin as [Hz|Hin]; [|apply Hall; exact Hin].
  specialize (Hmax _ H0). rewrite (Hall _ H0), Hz in Hmax.
  change 0%Q with (inject_Z 0) in Hmax. rewrite <- Zle_Qle in Hmax. lia.
Qed.

End RecallRead.

(** Reading [v] on a store that holds its pattern. *)
Lemma exact_read_pattern (s : SparseDistributedMemory Q) (v : list Z) (c : Z) :
  store_wf s -> Z.of_nat (length v) = vector_dim (config s) ->
  1 <= vector_dim (config s) ->
  Forall (fun b => b = 0 \/ b = 1) v -> 0 < c ->
  holds_pattern s v c ->
  1 <= count_activated (config s) v (addresses s) ->
  exists s2 conf,
    read s v = Some (s2, (v, conf)) /\ (conf == inject_Z c)%Q.
Proof.
  intros Hwf Hlen HD Hbits Hpos Hpat Hact.
  pose proof (read_run s v Hwf Hlen) as Hread. cbv zeta in Hread.
  destruct (decide (activations (config s) v (addresses s) = [])) as [Hnil|_].
  { pose proof (activations_length (config s) v 0 (addresses s)) as Hl.
    fold (activations (config s) v (addresses s)) in Hl.
    rewrite Hnil in Hl. cbn in Hl. lia. }
  rewrite (exact_read_bits_of_pattern s v c) in Hread by assumption.
  eexists _, _. split; [exact Hread|].
  apply (exact_confidence_of_pattern s v c); assumption.
Qed.



(** X21.  The quick sweep on a card that already holds a small
    configuration.  When [/sdm_config.json] holds a configuration of fewer
    than 32 dimensions (the fallback of [findOptimalConfig] has 16) and
    the card opens, the very first grid point of [runQuickBenchmark], of
    dimension 32, is tested on a store of the saved dimension, and its
    first trial indexes the vector [read] returned past its end: an
    out-of-range subscript, which the model renders as no result. *)
Theorem quick_benchmark_on_configured_card {F : Type} `{FloatOps F}
    (levels : list Z) (w : World F) (doc : JsonDocument F) (c0 : SDMConfig F)
    (k0 : Z) :
  sd_write_ok (w_sd w) = true -> sd_read_ok (w_sd w) = true ->
  sd_config_file (w_sd w) = Some (Some doc) ->
  document_holds doc c0 -> config_wf c0 -> vector_dim c0 < 32 ->
  shuffles_permute w -> card_holds_bytes (w_sd w) ->
  num_ones c0 (sparsity c0) = Some k0 -> k0 <= vector_dim c0 ->
  (levels <> [] -> runQuickBenchmark_with levels w = None) /\
  runQuickBenchmark w = None.
Proof.
  intros Hwr Hrd Hfile Hholds Hwf0 HD0 Hperm Hbytes Hk0 Hk0D.
  assert (Hgen : forall levels, levels <> [] ->
            runQuickBenchmark_with levels w = None).
  { clear levels. intros [|r rest] Hne; [contradiction|].
    unfold runQuickBenchmark_with. rewrite Hwr. cbn [negb].
    set (w0 := set_sd (set_benchmark_results (Some []) (w_sd w)) w).
    assert (Hpoint : forall st, sw_world st = w0 ->
              quick_point 32 100 (f_lit 2 10) r st = None).
    { intros st Hst. unfold quick_point.
      destruct (make_test_config 32 100 (f_lit 2 10)) as [tc|] eqn:Htc;
        [|reflexivity].
      assert (Hdim : vector_dim tc = 32).
      { unfold make_test_config in Htc.
        destruct (f_to_uint16 _) as [radius|]; [|discriminate].
        cbn in Htc. injection Htc as <-. reflexivity. }
      cbn [mbind option_bind]. rewrite Hst. unfold millis at 1.
      destruct (testConfiguration_short_card tc c0 doc
                  (mkWorld (w_sd w0) (w_clock w0) (Datatypes.S (w_clock_calls w0))
                           (w_heap w0) (w_heap_calls w0) (w_raw_random w0)
                           (w_random_calls w0) (w_shuffles w0)
                           (w_shuffle_calls w0) (w_garbage w0)) 5 k0)
        as (s & w1 & _ & _ & _ & Htest); try assumption; try reflexivity.
      - rewrite Hdim. unfold UINT16_MAX. lia.
      - lia.
      - rewrite Htest. reflexivity. }
    cbn [for_each quick_dims quick_locations quick_factors quick_reinforce_loop].
    rewrite Hpoint by reflexivity. reflexivity. }
  split; [apply Hgen|]. apply Hgen. discriminate.
Qed.

Lemma quick_benchmark_on_configured_card_witness :
  runQuickBenchmark configured_world = None.
Proof.
  refine (proj2 (quick_benchmark_on_configured_card [5] configured_world
                   (config_document dim8_config 0) dim8_config 0
                   eq_refl eq_refl eq_refl _ _ _ _ _ _ _)).
  - apply saved_document_holds.
  - unfold config_wf, is_uint16, UINT16_MAX. cbn. lia.
  - cbn. lia.
  - exact blank_world_shuffles.
  - intros data Hd. discriminate Hd.
  - vm_compute. reflexivity.
  - cbn. lia.
Defined.

(** ** The memory guard of the comprehensive sweep *)

(** X22.  The guard [required_memory > ESP.getFreeHeap() - 100000] is an
    unsigned comparison.  With at least 100000 bytes free it skips the
    grid point exactly when the store would not leave 100000 bytes; with
    less than 100000 bytes free the subtraction wraps around 2^32 and the
    point is not skipped (for every footprint below 2^32 - 100000, which
    covers the whole grid), so the tests run when memory is shortest. *)
Theorem memory_guard_wraps {F : Type} `{FloatOps F}
    (params : BenchmarkParams) (dim locations : Z) (st : sweep_state) :
  let heap := fst (getFreeHeap (sw_world st)) in
  let st' := mkSweep (snd (getFreeHeap (sw_world st))) (sw_csv st)
                     (sw_best_performance st) (sw_best_config st) in
  let run :=
    for_each (fun factor =>
      for_each (comprehensive_point dim locations
                  (memory_footprint dim locations) factor)
               (reinforce_cycles params))
      (radius_factors params) st' in
  (100000 <= heap ->
   comprehensive_locations params dim locations st =
   if memory_footprint dim locations >? heap - 100000 then Some st' else run) /\
  (heap < 100000 -> memory_footprint dim locations < 4294967296 - 100000 ->
   comprehensive_locations params dim locations st = run) /\
  (In dim (vector_dims default_params) ->
   In locations (num_locations_grid default_params) ->
   memory_footprint dim locations < 4294967296 - 100000).
Proof.
  intros heap st' run.
  assert (Hheap : 0 <= heap < 4294967296).
  { unfold heap, getFreeHeap, to_uint32. cbn [fst]. apply Z.mod_pos_bound. lia. }
  assert (Hdef : comprehensive_locations params dim locations st =
                 if memory_footprint dim locations >? to_uint32 (heap - 100000)
                 then Some st' else run) by reflexivity.
  split; [|split].
  - intros Hle. rewrite Hdef. unfold to_uint32 at 1.
    rewrite Z.mod_small by lia. reflexivity.
  - intros Hlt Hfoot. rewrite Hdef.
    assert (Hwrap : to_uint32 (heap - 100000) = heap - 100000 + 4294967296).
    { unfold to_uint32.
      rewrite <- (Z.mod_add (heap - 100000) 1 4294967296) by lia.
      apply Z.mod_small. lia. }
    rewrite Hwrap. destruct (Z.gtb_spec (memory_footprint dim locations)
                               (heap - 100000 + 4294967296)); [lia|reflexivity].
  - cbn. intros [<-|[<-|[<-|[<-|[]]]]] [<-|[<-|[<-|[]]]]; vm_compute; reflexivity.
Qed.

(** ** Sequence decoder *)

Lemma count_ones_snoc (l : list Z) (x : Z) :
  count_ones (l ++ [x]) = count_ones l + (if x =? 1 then 1 else 0).
Proof.
  unfold count_ones. rewrite List.filter_app, length_app. cbn [List.filter].
  rewrite (Z.eqb_sym 1 x). destruct (x =? 1); cbn [length]; lia.
Qed.

Lemma count_ones_length (l : list Z) : 0 <= count_ones l <= Z.of_nat (length l).
Proof.
  unfold count_ones. pose proof (List.filter_length_le (Z.eqb 1) l). lia.
Qed.

(** The loop that counts the ones of a segment. *)
Lemma count_active_loop (vector : list Z) (lo n : nat) :
  (n <> 0 -> lo + n <= length vector)%nat -> Z.of_nat n <= UINT16_MAX ->
  for_range (count_active vector) lo n 0 =
  Some (count_ones (take n (drop lo vector))).
Proof.
  intros Hlen Hn.
  destruct (for_range_inv
    (fun j k => k = count_ones (take (j - lo) (drop lo vector)))
    (count_active vector) lo n 0) as (k & Hrun & Hk).
  - by rewrite Nat.sub_diag.
  - intros j k Hj ->.
    destruct (lookup_lt_is_Some_2 vector j ltac:(lia)) as [x Hx].
    unfold count_active. rewrite Hx. cbn [mbind option_bind].
    eexists. split; [reflexivity|].
    assert (Hd : drop lo vector !! (j - lo)%nat = Some x).
    { rewrite lookup_drop. replace (lo + (j - lo))%nat with j by lia. exact Hx. }
    replace (Datatypes.S j - lo)%nat with (Datatypes.S (j - lo)) by lia.
    rewrite (take_S_r _ _ _ Hd), count_ones_snoc.
    pose proof (count_ones_length (take (j - lo) (drop lo vector))) as Hb.
    rewrite length_take in Hb.
    destruct (x =? 1); [|lia].
    unfold to_uint16, UINT16_MAX in *. rewrite Z.mod_small by lia. reflexivity.
  - rewrite Hrun, Hk. do 3 f_equal. lia.
Qed.

Section SequenceDecoder.
Context {F : Type} `{FloatOps F}.

Lemma bits_per_element_range (cfg : SDMConfig F) :
  0 <= bits_per_element cfg <= UINT16_MAX.
Proof.
  unfold bits_per_element, to_uint16, UINT16_MAX.
  pose proof (Z.mod_pos_bound (vector_dim cfg / sequence_length) 65536 ltac:(lia)).
  lia.
Qed.

(** A run of [decodeSequence]. *)
Lemma decodeSequence_run (cfg : SDMConfig F) (vector : list Z) :
  decodeSequence cfg vector = Some (map (segment_value cfg vector) (seq 0 32)).
Proof.
  pose proof (bits_per_element_range cfg) as HB.
  assert (Hstep : forall i l,
            decode_element cfg vector i l = Some (l ++ [segment_value cfg vector i])).
  { intros i l. unfold decode_element, segment_value, segment_ones.
    set (B := bits_per_element cfg) in *.
    set (start := to_uint16 (Z.of_nat i * B)).
    assert (Hs : 0 <= start) by (unfold start, to_uint16; apply Z.mod_pos_bound; lia).
    set (n := Z.to_nat (Z.min B (Z.of_nat (length vector) - start))).
    rewrite (count_active_loop vector (Z.to_nat start) n)
      by (unfold n, UINT16_MAX in *; lia).
    cbn [mbind option_bind].
    replace (take n (drop (Z.to_nat start) vector))
      with (take (Z.to_nat B) (drop (Z.to_nat start) vector)); [reflexivity|].
    destruct (Z.le_gt_cases B (Z.of_nat (length vector) - start)) as [Hle|Hgt].
    - unfold n. rewrite Z.min_l by lia. reflexivity.
    - rewrite (take_ge _ (Z.to_nat B)) by (rewrite length_drop; lia).
      rewrite (take_ge _ n) by (rewrite length_drop; unfold n; lia).
      reflexivity. }
  destruct (for_range_inv
    (fun i l => l = map (segment_value cfg vector) (seq 0 i))
    (decode_element cfg vector) 0 (Z.to_nat sequence_length) [])
    as (l & Hrun & Hl).
  - reflexivity.
  - intros i l _ ->. rewrite Hstep. eexists. split; [reflexivity|].
    rewrite seq_S, map_app. reflexivity.
  - unfold decodeSequence. rewrite Hrun, Hl. reflexivity.
Qed.

End SequenceDecoder.

(** X23.  [decodeSequence] never reads outside the vector it is given,
    whatever its length and whatever the configuration, and returns
    exactly 32 values: value [i] is [k/B * 2 - 1] in the float operations
    of the code, where [B] is [bits_per_element] and [k] the number of
    bytes equal to 1 among the (at most [B]) bytes of the vector from
    position [i * B] on. *)
Theorem decodeSequence_segments {F : Type} `{FloatOps F}
    (cfg : SDMConfig F) (vector : list Z) :
  exists l,
    decodeSequence cfg vector = Some l /\ length l = 32%nat /\
    forall i, (i < 32)%nat ->
      let B := bits_per_element cfg in
      let k := count_ones (take (Z.to_nat B)
                             (drop (Z.to_nat (to_uint16 (Z.of_nat i * B))) vector)) in
      0 <= k <= B /\
      l !! i = Some (f_sub (f_mul (f_div (f_of_int k) (f_of_int B)) (f_of_int 2))
                           (f_of_int 1)).
Proof.
  exists (map (segment_value cfg vector) (seq 0 32)).
  split; [apply decodeSequence_run|].
  split; [rewrite length_map, length_seq; reflexivity|].
  intros i Hi. cbv zeta. split.
  - pose proof (bits_per_element_range cfg) as HB.
    pose proof (count_ones_length
                  (take (Z.to_nat (bits_per_element cfg))
                     (drop (Z.to_nat (to_uint16 (Z.of_nat i * bits_per_element cfg)))
                        vector))) as Hb.
    rewrite length_take in Hb. lia.
  - rewrite list_lookup_fmap, lookup_seq_lt by lia. reflexivity.
Qed.

(** *** The sequence round trip, in exact arithmetic *)

Lemma count_ones_ones (n : nat) : count_ones (replicate n 1) = Z.of_nat n.
Proof.
  unfold count_ones. induction n as [|n IH]; [reflexivity|].
  cbn [replicate List.filter]. change (1 =? 1) with true. cbn [length]. lia.
Qed.

(** A list that holds ones up to position [n] and zeros after it. *)
Lemma count_ones_prefix (l : list Z) (n : nat) :
  (n <= length l)%nat ->
  (forall j, (j < length l)%nat ->
     l !! j = Some (if decide (j < n)%nat then 1 else 0)) ->
  count_ones l = Z.of_nat n.
Proof.
  intros Hn Hl.
  assert (E : l = replicate n 1 ++ replicate (length l - n) 0).
  { apply list_eq_same_length with (length l);
      [rewrite length_app, !length_replicate; lia|reflexivity|].
    intros j x y Hj Hx Hy. rewrite Hl in Hx by exact Hj.
    destruct (decide (j < n)%nat).
    - rewrite lookup_app_l in Hy by (rewrite length_replicate; lia).
      rewrite lookup_replicate_2 in Hy by lia. congruence.
    - rewrite lookup_app_r in Hy by (rewrite length_replicate; lia).
      rewrite lookup_replicate_2 in Hy by (rewrite length_replicate; lia).
      congruence. }
  rewrite E. unfold count_ones. rewrite List.filter_app, length_app.
  fold (count_ones (replicate n 1)). fold (count_ones (replicate (length l - n) 0)).
  rewrite Nat2Z.inj_add.
  change (Z.of_nat (length (List.filter (Z.eqb 1) (replicate n 1))))
    with (count_ones (replicate n 1)).
  change (Z.of_nat (length (List.filter (Z.eqb 1) (replicate (length l - n) 0))))
    with (count_ones (replicate (length l - n) 0)).
  rewrite count_ones_ones, count_ones_zeros. lia.
Qed.

Section SequenceExact.
Variable cfg : SDMConfig Q.
Hypothesis dim_range : 32 <= vector_dim cfg <= UINT16_MAX.

Lemma exact_bits_per_element :
  1 <= bits_per_element cfg <= 2047 /\ 32 * bits_per_element cfg <= vector_dim cfg.
Proof.
  unfold UINT16_MAX in dim_range. unfold bits_per_element, sequence_length.
  assert (1 <= vector_dim cfg / 32) by (apply Z.div_le_lower_bound; lia).
  assert (vector_dim cfg / 32 <= 65535 / 32) by (apply Z.div_le_mono; lia).
  change (65535 / 32) with 2047 in *.
  rewrite to_uint16_id by (unfold is_uint16, UINT16_MAX; lia).
  pose proof (Z.mul_div_le (vector_dim cfg) 32 ltac:(lia)). lia.
Qed.

Lemma exact_num_bits_range (x : Q) :
  (-1 <= x <= 1)%Q -> 0 <= exact_num_bits cfg x <= bits_per_element cfg.
Proof.
  intros Hx. destruct exact_bits_per_element as [HB _].
  assert (HBQ : (0 < inject_Z (bits_per_element cfg))%Q).
  { change 0%Q with (inject_Z 0). rewrite <- Zlt_Qlt. lia. }
  assert (Hn : (0 <= (x + 1) / 2 <= 1)%Q).
  { split; [apply Qle_shift_div_l; lra|apply Qle_shift_div_r; lra]. }
  unfold exact_num_bits. split.
  - change 0 with (Qfloor 0). apply Qfloor_resp_le.
    apply Qmult_le_0_compat; lra.
  - apply Z.le_trans with (Qfloor (inject_Z (bits_per_element cfg)));
      [|rewrite Qfloor_Z; lia].
    apply Qfloor_resp_le.
    apply Qle_trans with (1 * inject_Z (bits_per_element cfg))%Q; [|lra].
    apply Qmult_le_compat_r; lra.
Qed.

(** One element: the first [exact_num_bits] bits of its segment are
    set. *)
Lemma exact_encode_element (sequence : list Q) (i : nat) (x : Q) (e : list Z) :
  sequence !! i = Some x -> (-1 <= x <= 1)%Q -> (i < 32)%nat ->
  encode_element cfg sequence i e =
  for_range set_bit (i * Z.to_nat (bits_per_element cfg))
    (Z.to_nat (exact_num_bits cfg x)) e.
Proof.
  intros Hx Hr Hi. destruct exact_bits_per_element as [HB H32].
  pose proof (exact_num_bits_range x Hr) as Hnb.
  unfold encode_element. rewrite Hx. cbn [mbind option_bind].
  assert (Hn : (0 <= (x + 1) / 2 <= 1)%Q).
  { split; [apply Qle_shift_div_l; lra|apply Qle_shift_div_r; lra]. }
  change (f_div (f_add x (f_of_int 1)) (f_of_int 2)) with ((x + 1) / 2)%Q.
  rewrite exact_constrain_id by exact Hn.
  assert (Hbits : f_to_uint16 (f_mul ((x + 1) / 2)%Q (f_of_int (bits_per_element cfg)))
                  = Some (exact_num_bits cfg x)).
  { unfold f_to_uint16. change (f_to_int ?q) with (ExactQ.to_int q).
    change (f_mul ((x + 1) / 2)%Q (f_of_int (bits_per_element cfg)))
      with ((x + 1) / 2 * inject_Z (bits_per_element cfg))%Q.
    rewrite exact_to_int_floor.
    - cbn [mbind option_bind]. fold (exact_num_bits cfg x). unfold UINT16_MAX.
      destruct (Z.leb_spec 0 (exact_num_bits cfg x)); [|lia].
      destruct (Z.leb_spec (exact_num_bits cfg x) 65535); [|lia]. reflexivity.
    - apply Qmult_le_0_compat; [lra|].
      change 0%Q with (inject_Z 0). rewrite <- Zle_Qle. lia. }
  rewrite Hbits. cbn [mbind option_bind].
  assert (Hstart : to_uint16 (Z.of_nat i * bits_per_element cfg)
                   = Z.of_nat i * bits_per_element cfg).
  { apply to_uint16_id. unfold is_uint16, UINT16_MAX. nia. }
  rewrite Hstart. f_equal; [nia|]. rewrite Z.min_l by nia. reflexivity.
Qed.

(** The loop of [encodeSequence]: segment [i] holds
    [exact_num_bits] ones, then zeros. *)
Lemma exact_encode_loop (sequence : list Q) (n : nat) :
  Forall (fun x => (-1 <= x <= 1)%Q) sequence ->
  (n <= length sequence)%nat -> (n <= 32)%nat ->
  exists v,
    for_range (encode_element cfg sequence) 0 n
      (replicate (Z.to_nat (vector_dim cfg)) 0) = Some v /\
    length v = Z.to_nat (vector_dim cfg) /\
    forall i j, (i < 32)%nat -> (j < Z.to_nat (bits_per_element cfg))%nat ->
      v !! (i * Z.to_nat (bits_per_element cfg) + j)%nat =
      Some (match sequence !! i with
            | Some x =>
                if decide (i < n /\ j < Z.to_nat (exact_num_bits cfg x))%nat
                then 1 else 0
            | None => 0
            end).
Proof.
  intros Hall Hn Hn32. destruct exact_bits_per_element as [HB H32].
  set (B := Z.to_nat (bits_per_element cfg)) in *.
  set (D := Z.to_nat (vector_dim cfg)) in *.
  assert (HBD : (32 * B <= D)%nat) by (unfold B, D; lia).
  destruct (for_range_inv
    (fun m v =>
       length v = D /\
       forall i j, (i < 32)%nat -> (j < B)%nat ->
         v !! (i * B + j)%nat =
         Some (match sequence !! i with
               | Some x =>
                   if decide (i < m /\ j < Z.to_nat (exact_num_bits cfg x))%nat
                   then 1 else 0
               | None => 0
               end))
    (encode_element cfg sequence) 0 n (replicate D 0)) as (v & Hrun & Hv).
  - split; [apply length_replicate|]. intros i j Hi Hj.
    rewrite lookup_replicate_2 by nia.
    destruct (sequence !! i); [|reflexivity].
    destruct (decide _) as [[Hlt _]|_]; [lia|reflexivity].
  - intros m v Hm (Hlen & Hseg).
    destruct (lookup_lt_is_Some_2 sequence m ltac:(lia)) as [x Hx].
    assert (Hr : (-1 <= x <= 1)%Q).
    { rewrite Forall_forall in Hall. apply Hall.
      eapply list_elem_of_lookup_2. eassumption. }
    pose proof (exact_num_bits_range x Hr) as Hnb.
    rewrite (exact_encode_element sequence m x v Hx Hr ltac:(lia)). fold B.
    destruct (set_bits_loop (m * B) (Z.to_nat (exact_num_bits cfg x)) v)
      as (v' & Hloop & Hl' & Hk); [unfold B in *; nia|].
    exists v'. split; [exact Hloop|]. split; [congruence|].
    intros i j Hi Hj. rewrite Hk, Hseg by assumption.
    destruct (decide (i = m)) as [->|Hne].
    + rewrite Hx.
      destruct (decide (m * B <= m * B + j < m * B + Z.to_nat (exact_num_bits cfg x))%nat)
        as [Hin|Hout].
      * destruct (decide _) as [_|Hno]; [reflexivity|]. exfalso. apply Hno. lia.
      * destruct (decide _) as [[Hlt _]|_]; [lia|].
        destruct (decide _) as [[_ Hj']|_]; [exfalso; apply Hout; lia|reflexivity].
    + destruct (decide (m * B <= i * B + j < m * B + Z.to_nat (exact_num_bits cfg x))%nat)
        as [Hin|_].
      * exfalso. unfold B in *. nia.
      * destruct (sequence !! i) as [y|]; [|reflexivity].
        destruct (decide (i < m /\ _)%nat) as [[Hlt Hj']|Hno];
          destruct (decide (i < Datatypes.S m /\ _)%nat) as [[Hlt' Hj'']|Hno'];
          try reflexivity.
        -- exfalso. apply Hno'. split; [lia|exact Hj'].
        -- exfalso. apply Hno. split; [lia|exact Hj''].
  - exists v. cbn [Nat.add] in Hv. destruct Hv as [Hlen Hseg].
    split; [exact Hrun|]. split; [exact Hlen|exact Hseg].
Qed.

End SequenceExact.

Section SequenceRoundTrip.
Variable cfg : SDMConfig Q.
Hypothesis dim_range : 32 <= vector_dim cfg <= UINT16_MAX.

(** The ones [decodeSequence] counts in segment [i] of an encoded
    sequence. *)
Lemma exact_segment_ones (v : list Z) (i : nat) (nb : nat) :
  (i < 32)%nat -> length v = Z.to_nat (vector_dim cfg) ->
  (nb <= Z.to_nat (bits_per_element cfg))%nat ->
  (forall j, (j < Z.to_nat (bits_per_element cfg))%nat ->
     v !! (i * Z.to_nat (bits_per_element cfg) + j)%nat =
     Some (if decide (j < nb)%nat then 1 else 0)) ->
  segment_ones cfg v i = Z.of_nat nb.
Proof.
  intros Hi Hlen Hnb Hseg. destruct (exact_bits_per_element cfg dim_range) as [HB H32].
  unfold segment_ones.
  rewrite to_uint16_id by (unfold is_uint16, UINT16_MAX; nia).
  set (B := Z.to_nat (bits_per_element cfg)) in *.
  replace (Z.to_nat (Z.of_nat i * bits_per_element cfg)) with (i * B)%nat
    by (unfold B; nia).
  assert (Hl : length (take B (drop (i * B) v)) = B).
  { rewrite length_take, length_drop. unfold B in *. nia. }
  apply count_ones_prefix; [lia|]. rewrite Hl. intros j Hj.
  rewrite lookup_take_lt, lookup_drop by lia. apply Hseg. exact Hj.
Qed.

Lemma exact_segment_bound (x : Q) :
  (-1 <= x <= 1)%Q ->
  (Qabs (inject_Z (exact_num_bits cfg x) / inject_Z (bits_per_element cfg) * 2 - 1
         - x)
   <= 2 / inject_Z (bits_per_element cfg))%Q.
Proof.
  intros Hx. destruct (exact_bits_per_element cfg dim_range) as [HB _].
  set (B := bits_per_element cfg) in *.
  assert (HBQ : (0 < inject_Z B)%Q).
  { change 0%Q with (inject_Z 0). rewrite <- Zlt_Qlt. lia. }
  set (q := ((x + 1) / 2 * inject_Z B)%Q).
  assert (Hlo : (inject_Z (exact_num_bits cfg x) <= q)%Q) by apply Qfloor_le.
  assert (Hhi : (q < inject_Z (exact_num_bits cfg x) + 1)%Q).
  { change 1%Q with (inject_Z 1). rewrite <- inject_Z_plus. apply Qlt_floor. }
  set (p := inject_Z (exact_num_bits cfg x)) in *.
  set (t := (2 / inject_Z B)%Q).
  assert (Ht : (0 < t)%Q) by (apply Qlt_shift_div_l; [assumption|lra]).
  assert (E : (p / inject_Z B * 2 - 1 - x == (p - q) * t)%Q).
  { unfold q, t. field. lra. }
  apply Qabs_Qle_condition. rewrite E. split.
  - apply Qle_trans with ((-(1)) * t)%Q; [lra|].
    apply Qmult_le_compat_r; lra.
  - apply Qle_trans with (0 * t)%Q; [|lra].
    apply Qmult_le_compat_r; lra.
Qed.

End SequenceRoundTrip.



(** ** First boot: the store of the fallback configuration *)

Lemma zero_address (D : nat) (a : list Z) :
  sparse_address D 0 a -> a = replicate D 0.
Proof.
  intros (Hlen & Hcount & Hbits).
  apply list_eq_same_length with D; [apply length_replicate|exact Hlen|].
  intros j x y Hj Hx Hy. rewrite lookup_replicate_2 in Hy by lia.
  injection Hy as <-.
  assert (Hb : x = 0 \/ x = 1).
  { rewrite Forall_forall in Hbits. apply Hbits.
    eapply list_elem_of_lookup_2. eassumption. }
  destruct Hb as [->| ->]; [reflexivity|].
  pose proof (count_ones_lookup a j Hx). lia.
Qed.

Lemma hamming_zeros (v : list Z) :
  Forall (fun b => b = 0 \/ b = 1) v ->
  hamming (replicate (length v) 0) v = count_ones v.
Proof.
  unfold count_ones. induction 1 as [|x v Hx _ IH]; [reflexivity|].
  cbn [length replicate hamming List.filter]. rewrite IH.
  destruct Hx as [->| ->]; cbn; lia.
Qed.

Lemma Forall_eq_replicate {A : Type} (l : list A) (x : A) :
  Forall (fun a => a = x) l -> l = replicate (length l) x.
Proof.
  induction 1 as [|a l Ha _ IH]; [reflexivity|].
  cbn [length replicate]. rewrite <- IH, Ha. reflexivity.
Qed.

Lemma filter_const {A : Type} (b : bool) (l : list A) :
  List.filter (fun _ => b) l = if b then l else [].
Proof.
  induction l as [|a l IH]; [destruct b; reflexivity|].
  cbn [List.filter]. rewrite IH. destruct b; reflexivity.
Qed.

Section FallbackStore.
Context {F : Type} `{FloatOps F}.

(** On a store whose addresses are all zero, a bit vector activates
    every location or none, by its number of ones. *)
Lemma write_zero_addresses (s : SparseDistributedMemory F) (v : list Z)
    (strength : Z) :
  store_wf s ->
  addresses s = replicate (Z.to_nat (num_locations (config s)))
                          (replicate (Z.to_nat (vector_dim (config s))) 0) ->
  Z.of_nat (length v) = vector_dim (config s) ->
  Forall (fun b => b = 0 \/ b = 1) v ->
  count_activated (config s) v (addresses s) =
    (if count_ones v <=? access_radius (config s)
     then num_locations (config s) else 0) /\
  exists s',
    write s v strength =
    Some (s', if count_ones v <=? access_radius (config s)
              then num_locations (config s) else 0).
Proof.
  intros Hwf Haddr Hlen Hbits.
  pose proof (wf_num_locations s Hwf) as HN. unfold is_uint16 in HN.
  assert (Hcount : count_activated (config s) v (addresses s) =
            (if count_ones v <=? access_radius (config s)
             then num_locations (config s) else 0)).
  { rewrite (count_activated_ext _ _ _
               (fun _ => count_ones v <=? access_radius (config s))).
    - rewrite filter_const. destruct (count_ones v <=? _); [|reflexivity].
      rewrite (wf_addresses s Hwf). lia.
    - rewrite Haddr. apply Forall_replicate. unfold activated.
      replace (Z.to_nat (vector_dim (config s))) with (length v) by lia.
      rewrite (hamming_zeros v Hbits). reflexivity. }
  split; [exact Hcount|].
  destruct (write_run s v strength Hwf Hlen) as (s' & Hw & _).
  exists s'. rewrite Hw, Hcount. reflexivity.
Qed.

Lemma saveOptimalConfig_frame (c : SDMConfig F) (w : World F) :
  let w' := snd (saveOptimalConfig c w) in
  sd_config_file (w_sd w') = sd_config_file (w_sd w) /\
  sd_memory_file (w_sd w') = sd_memory_file (w_sd w) /\
  w_shuffles w' = w_shuffles w.
Proof.
  unfold saveOptimalConfig, millis. cbn [w_sd fst snd].
  destruct (sd_write_ok (w_sd w)); cbn; repeat split.
Qed.

End FallbackStore.

(** X25.  First boot.  On a card that holds neither an optimal
    configuration nor a saved configuration, [initializeSDM] builds the
    store of the fallback configuration (16 dimensions, 50 locations,
    radius 3, sparsity 0.03).  In the [float] arithmetic of the code
    [num_ones = (uint16_t)(16 * 0.03f)] is 0, so every one of the 50
    addresses is the all-zero vector: a bit vector of 16 bits activates all
    50 locations when it has at most 3 ones, and none otherwise. *)
Theorem first_boot_store (w : World spec_float) :
  sd_optimal_config_file (w_sd w) = None ->
  sd_config_file (w_sd w) = None ->
  shuffles_permute w -> card_holds_bytes (w_sd w) ->
  exists s w',
    initializeSDM true w = Some (Some s, w') /\
    store_wf s /\ config s = safe_default_config /\
    addresses s = replicate 50 (replicate 16 0) /\
    forall v strength,
      length v = 16%nat -> Forall (fun b => b = 0 \/ b = 1) v ->
      exists s',
        write s v strength = Some (s', if count_ones v <=? 3 then 50 else 0).
Proof.
  intros Hopt Hcfg Hperm Hbytes.
  unfold initializeSDM. cbn [negb].
  set (w0 := new_benchmark w).
  rewrite (findOptimalConfig_falls_back w0) by (intros doc Hdoc; cbn in Hdoc; congruence).
  set (w1 := snd (saveOptimalConfig safe_default_config w0)).
  destruct (saveOptimalConfig_frame safe_default_config w0) as (Hc1 & Hm1 & Hs1).
  fold w1 in Hc1, Hm1, Hs1.
  set (s0 := mkSDM default_stats [] [] [] (safe_default_config (F := spec_float))).
  assert (Hload : loadConfig (w_sd w1) s0 = (s0, false)).
  { unfold loadConfig. rewrite Hc1. cbn. rewrite Hcfg. reflexivity. }
  destruct (initialize_run s0 w1 0)
    as (s & w2 & Hinit & Hwf & Hconf & _ & _ & Haddr & _).
  - intros k n. rewrite Hs1. apply Hperm.
  - intros data Hd. rewrite Hm1 in Hd. apply (Hbytes data). exact Hd.
  - rewrite Hload. unfold config_wf, is_uint16, UINT16_MAX. cbn. lia.
  - rewrite Hload. vm_compute. reflexivity.
  - rewrite Hload. cbn. lia.
  - rewrite Hload in Hconf, Haddr. cbn [fst config s0] in Hconf, Haddr.
    rewrite Hinit. cbn [mbind option_bind negb].
    assert (Hprint : printMemoryUsage s w2 = Some (snd (getFreeHeap w2))).
    { unfold printMemoryUsage. rewrite Hconf. reflexivity. }
    rewrite Hprint. cbn [mbind option_bind].
    assert (Hzero : addresses s = replicate 50 (replicate 16 0)).
    { pose proof (wf_addresses s Hwf) as Hlen. rewrite Hconf in Hlen.
      change (Z.to_nat (num_locations safe_default_config)) with 50%nat in Hlen.
      rewrite <- Hlen. apply Forall_eq_replicate.
      eapply Forall_impl; [exact Haddr|]. intros a Ha.
      apply (zero_address 16 a Ha). }
    eexists _, _. split; [reflexivity|]. split; [exact Hwf|].
    split; [exact Hconf|]. split; [exact Hzero|].
    intros v strength Hv Hbits.
    destruct (write_zero_addresses s v strength Hwf) as (_ & s' & Hw).
    + rewrite Hconf. exact Hzero.
    + rewrite Hconf, Hv. reflexivity.
    + exact Hbits.
    + exists s'. rewrite Hw, Hconf. reflexivity.
Qed.

Lemma first_boot_store_witness :
  exists s w',
    initializeSDM true blank_world = Some (Some s, w') /\
    addresses s = replicate 50 (replicate 16 0).
Proof.
  destruct (first_boot_store blank_world eq_refl eq_refl blank_world_shuffles)
    as (s & w' & Hinit & _ & _ & Haddr & _).
  - intros data Hd. discriminate Hd.
  - exists s, w'. split; [exact Hinit|exact Haddr].
Defined.

(** ** The commands ENCODE and DECODE *)

Lemma count_nonzero_bits (v : list Z) :
  Forall (fun b => b = 0 \/ b = 1) v -> count_nonzero v = count_ones v.
Proof.
  unfold count_nonzero, count_ones. induction 1 as [|x v Hx _ IH]; [reflexivity|].
  cbn [List.filter]. destruct Hx as [->| ->].
  - change (negb (0 =? 0)) with false. change (1 =? 0) with false. exact IH.
  - change (negb (1 =? 0)) with true. change (1 =? 1) with true.
    cbn [length]. lia.
Qed.

Lemma decodeText_bits (v : list Z) :
  Forall (fun b => b = 0 \/ b = 1) v -> Z.of_nat (length v) <= UINT16_MAX ->
  decodeText v = "Decoded_" +:+ pretty (count_ones v) +:+ "_bits".
Proof.
  intros Hbits Hlen. unfold decodeText. rewrite fold_count_set by lia.
  rewrite Z.add_0_l, (count_nonzero_bits v Hbits).
  pose proof (count_ones_length v). rewrite to_uint16_id; [reflexivity|].
  unfold is_uint16. lia.
Qed.

Section SavingTotal.
Context {F : Type} `{FloatOps F}.

(** [saveToSD] of a well-formed store returns, whether or not the card
    opens. *)
Lemma saveToSD_returns (s : SparseDistributedMemory F) (w : World F) :
  store_wf s -> exists ok w', saveToSD s w = Some (ok, w').
Proof.
  intros Hwf. destruct (sd_write_ok (w_sd w)) eqn:Hok.
  - destruct (saveToSD_run s w Hwf Hok) as (w' & now & Hsave & _).
    exists true, w'. exact Hsave.
  - assert (Hmem : forall w0, sd_write_ok (w_sd w0) = false ->
              saveMemoryToSD s w0
              = Some (false, set_sd (ensure_sdm_dir (w_sd w0)) w0)).
    { intros w0 H0. unfold saveMemoryToSD. cbn [ensure_sdm_dir sd_write_ok].
      rewrite H0. reflexivity. }
    assert (Hstats : forall w0, sd_write_ok (w_sd w0) = false ->
              exists w0', saveStatsToSD s w0 = (false, w0')).
    { intros w0 H0. unfold saveStatsToSD, millis. cbn [w_sd]. rewrite H0.
      eexists. reflexivity. }
    unfold saveToSD, saveConfig, millis. cbn [w_sd]. rewrite Hok. cbn [negb andb].
    rewrite Hmem by exact Hok. cbn [mbind option_bind].
    destruct (Hstats (set_sd (ensure_sdm_dir (w_sd w))
                (mkWorld (w_sd w) (w_clock w) (Datatypes.S (w_clock_calls w))
                         (w_heap w) (w_heap_calls w) (w_raw_random w)
                         (w_random_calls w) (w_shuffles w) (w_shuffle_calls w)
                         (w_garbage w))) Hok) as [w' Hw'].
    cbn [w_sd] in Hw' |- *. rewrite Hw'. eexists _, _. reflexivity.
Qed.

End SavingTotal.


